(** * Webtris: the board / piece simulation core of [tetris.js]

    A shallow embedding of the game logic of [src/tetris.js]:
    the shape catalogue, [GamePiece] (computeShape, rotate, move),
    [GameBoard] (isOnBoard, isOccupied, isValidMove, checkLines,
    clearLines, bakePiece), [GameStats.addScore] and the [Game] state
    machine (selectNextPiece, start, togglePause, resetTimer, reset),
    followed by the input handler, the clock tick, resizing and the first
    state of the game.

    JavaScript objects that the program mutates through references
    (pieces, their [position] objects and their [shapeArray] arrays) live
    in an explicit store; methods are state transformers that may throw.
    Canvas drawing and audio playback are not modelled. *)

From Stdlib Require Import ZArith Lia Bool.
From stdpp Require Import base tactics option list strings sorting.

Local Open Scope Z_scope.

(** ** Results of running JavaScript code *)

(** A call either returns, throws (the only exception the core can raise is
    a [TypeError] on reading a property of [undefined] or [null]), or, for
    the mutually recursive methods of [Game], exhausts the unfolding budget
    of the model. *)
Inductive result (A : Type) : Type :=
| Ok (a : A)
| Throw
| OutOfFuel.
Arguments Ok {A} a.
Arguments Throw {A}.
Arguments OutOfFuel {A}.

Definition rbind {A B} (r : result A) (k : A -> result B) : result B :=
  match r with
  | Ok a => k a
  | Throw => Throw
  | OutOfFuel => OutOfFuel
  end.

(** [undefined.prop]: reading through a missing object throws. *)
Definition defined {A} (o : option A) : result A :=
  match o with
  | Some a => Ok a
  | None => Throw
  end.

(** ** Cells and arrays *)

(** What an array slot of the board or of a shape array can hold: the
    number [0], a [GameBlock] (its [size] is the constant 20, so only the
    colour is kept), or [undefined] (a hole, or a read past the end). *)
Inductive cell : Type :=
| Zero
| Undefined
| Block (color : Z).

#[global] Instance cell_eq_dec : EqDecision cell.
Proof. solve_decision. Defined.

(** [c instanceof GameBlock] *)
Definition isGameBlock (c : cell) : bool :=
  match c with
  | Block _ => true
  | _ => false
  end.

(** [a[i]] on an array of cells, for a number [i]. *)
Definition cell_get (a : list cell) (i : Z) : cell :=
  if i <? 0 then Undefined else default Undefined (a !! Z.to_nat i).

(** [a[i] = v] on an array of cells, [i] a natural index: JavaScript
    replaces in range and extends the array (leaving holes) past its end. *)
Definition cell_set (a : list cell) (i : nat) (v : cell) : list cell :=
  if decide (i < length a)%nat then <[i := v]> a
  else a ++ replicate (i - length a) Undefined ++ [v].

(** [a[i] = row] on an array of arrays.  Every such assignment in the
    source is made by a counter running upwards from 0, so the index is at
    most the length: it replaces a row or appends one. *)
Definition row_set (a : list (list cell)) (i : nat) (row : list cell)
  : list (list cell) :=
  if decide (i < length a)%nat then <[i := row]> a else a ++ [row].

(** [a[i]] for a number [i] on any array: [None] is [undefined]. *)
Definition lookupZ {A} (a : list A) (i : Z) : option A :=
  if i <? 0 then None else a !! Z.to_nat i.

(** ** Loops *)

(** [for (i = start; i < start + n; i++) body], threading a state and
    stopping at the first exception. *)
Fixpoint for_up {St : Type} (n : nat) (i : nat)
    (body : nat -> St -> result St) (s : St) : result St :=
  match n with
  | O => Ok s
  | S n' => rbind (body i s) (for_up n' (S i) body)
  end.

(** [for (j = n - 1; j >= 0; j--) body] *)
Fixpoint for_down {St : Type} (n : nat)
    (body : nat -> St -> result St) (s : St) : result St :=
  match n with
  | O => Ok s
  | S j => rbind (body j s) (for_down j body)
  end.

(** A read-only scan [for (i = start; ...; i++) if (!test(i)) return false]
    that falls through to [true]. *)
Fixpoint scan_up (n : nat) (i : nat) (test : nat -> result bool)
  : result bool :=
  match n with
  | O => Ok true
  | S n' =>
      rbind (test i) (fun ok => if ok then scan_up n' (S i) test else Ok false)
  end.

(** ** Configuration tables of [Game] *)

Record ShapeDescription : Type := {
  size : Z;
  blocks : list Z;
  color : Z
}.

#[global] Instance ShapeDescription_eq_dec : EqDecision ShapeDescription.
Proof. solve_decision. Defined.

Definition shapes : list (string * ShapeDescription) :=
  [ ("i"%string, {| size := 4; blocks := [0x0F00; 0x2222; 0x00F0; 0x4444]; color := 0 |});
    ("j"%string, {| size := 4; blocks := [0x44C0; 0x8E00; 0x6440; 0x0E20]; color := 1 |});
    ("l"%string, {| size := 3; blocks := [0x4460; 0x0E80; 0xC440; 0x2E00]; color := 2 |});
    ("o"%string, {| size := 2; blocks := [0xCC00; 0xCC00; 0xCC00; 0xCC00]; color := 3 |});
    ("s"%string, {| size := 3; blocks := [0x06C0; 0x8C40; 0x6C00; 0x4620]; color := 4 |});
    ("t"%string, {| size := 3; blocks := [0x0E40; 0x4C40; 0x4E00; 0x4640]; color := 5 |});
    ("z"%string, {| size := 3; blocks := [0x0C60; 0x4C80; 0xC600; 0x2640]; color := 6 |}) ].

(** [obj[key]] on an object literal kept as its list of properties. *)
Fixpoint property {A} (obj : list (string * A)) (key : string) : option A :=
  match obj with
  | [] => None
  | (k, v) :: rest => if decide (k = key) then Some v else property rest key
  end.

(** [Object.keys]-style enumeration ([for (k in obj) if hasOwnProperty]):
    own properties in insertion order. *)
Definition keys {A} (obj : list (string * A)) : list string := fst <$> obj.

Definition hexValues : list (list Z) :=
  [ [0x8000; 0x0800; 0x0080; 0x0008];
    [0x4000; 0x0400; 0x0040; 0x0004];
    [0x2000; 0x0200; 0x0020; 0x0002];
    [0x1000; 0x0100; 0x0010; 0x0001] ].

Definition difficultyTimeouts : list Z :=
  [1000; 750; 625; 500; 425; 300; 250; 225; 200; 175].

Definition pointsAwardedForLines : list Z := [40; 100; 300; 1200].

Definition scorePerLevel : list Z :=
  [1200; 1200 * 4; 1200 * 8; 1200 * 16; 1200 * 32; 1200 * 64; 1200 * 128;
   1200 * 256; 1200 * 512].

(** [indexContainsBlock(i, j, shape)]: the bitwise AND of [hexValues[i][j]]
    with the mask is non-zero.  [hexValues[i]] must exist; a missing
    [hexValues[i][j]] or an [undefined] mask counts as 0 under [&]. *)
Definition indexContainsBlock (i j : nat) (shape : option Z) : result bool :=
  rbind (defined (hexValues !! i)) (fun row =>
    Ok (negb (Z.land (default 0 (row !! j)) (default 0 shape) =? 0))).

(** ** The store of mutable objects *)

(** A reference to an object: its index in the store. *)
Abbreviation loc := nat (only parsing).

Module Position.
(** A [{x: ..., y: ...}] object. *)
Record t : Type := mk { x : Z; y : Z }.
End Position.

Module Piece.
(** A [GamePiece] object.  [shapeArray] and [position] are references:
    [this.shapeArray = []] and [this.position = {...}] install fresh
    objects, [this.shapeArray[i] = ...] and [this.position.x += 1] mutate
    the referenced one.  [height] and [width] are set to 4 by the
    constructor and never assigned again, so they are the constants
    [GamePiece_height] and [GamePiece_width] below. *)
Record t : Type := mk {
  shapeDescription : option ShapeDescription;
  rotation : Z;
  shapeArray : loc;
  position : loc
}.
End Piece.

Definition GamePiece_height : nat := 4.
Definition GamePiece_width : nat := 4.

Record Store : Type := {
  pieces : list Piece.t;
  positions : list Position.t;
  arrays : list (list (list cell))
}.

Module Board.
(** A [GameBoard] object: [gameBoard[x][y]] is column [x], row [y]. *)
Record t : Type := mk {
  width : Z;
  height : Z;
  gameBoard : list (list cell)
}.
End Board.

(** ** The game state *)

(** The [Game] object after [init()], together with the two pieces of the
    environment its logic reads: the timers of the window and the random
    source.  [score] is [gameStats.score], where [None] is [NaN].
    [ticker] is the handle of the game clock ([None] is [null]; handles
    returned by [setInterval] are non-zero, hence truthy).  [intervals]
    lists the running timers with their delay ([None]: [undefined]).
    [randoms k] stands for the value [Math.floor(Math.random() * n)] of
    the [k]-th coming draw, reduced modulo [n] where it is used. *)
Record Game : Type := {
  difficulty : Z;
  isRunning : bool;
  isPaused : bool;
  isGameOver : bool;
  ticker : option nat;
  boardWidth : Z;
  boardHeight : Z;
  gameBoard : Board.t;
  score : option Z;
  gamePiece : option loc;
  nextPiece : option loc;
  store : Store;
  intervals : list (nat * option Z);
  handles : nat;
  randoms : nat -> nat
}.

Definition set_difficulty (v : Z) (g : Game) : Game :=
  {| difficulty := v; isRunning := isRunning g; isPaused := isPaused g;
     isGameOver := isGameOver g; ticker := ticker g;
     boardWidth := boardWidth g; boardHeight := boardHeight g;
     gameBoard := gameBoard g; score := score g; gamePiece := gamePiece g;
     nextPiece := nextPiece g; store := store g; intervals := intervals g;
     handles := handles g; randoms := randoms g |}.

Definition set_isRunning (v : bool) (g : Game) : Game :=
  {| difficulty := difficulty g; isRunning := v; isPaused := isPaused g;
     isGameOver := isGameOver g; ticker := ticker g;
     boardWidth := boardWidth g; boardHeight := boardHeight g;
     gameBoard := gameBoard g; score := score g; gamePiece := gamePiece g;
     nextPiece := nextPiece g; store := store g; intervals := intervals g;
     handles := handles g; randoms := randoms g |}.

Definition set_isPaused (v : bool) (g : Game) : Game :=
  {| difficulty := difficulty g; isRunning := isRunning g; isPaused := v;
     isGameOver := isGameOver g; ticker := ticker g;
     boardWidth := boardWidth g; boardHeight := boardHeight g;
     gameBoard := gameBoard g; score := score g; gamePiece := gamePiece g;
     nextPiece := nextPiece g; store := store g; intervals := intervals g;
     handles := handles g; randoms := randoms g |}.

Definition set_isGameOver (v : bool) (g : Game) : Game :=
  {| difficulty := difficulty g; isRunning := isRunning g;
     isPaused := isPaused g; isGameOver := v; ticker := ticker g;
     boardWidth := boardWidth g; boardHeight := boardHeight g;
     gameBoard := gameBoard g; score := score g; gamePiece := gamePiece g;
     nextPiece := nextPiece g; store := store g; intervals := intervals g;
     handles := handles g; randoms := randoms g |}.

Definition set_ticker (v : option nat) (g : Game) : Game :=
  {| difficulty := difficulty g; isRunning := isRunning g;
     isPaused := isPaused g; isGameOver := isGameOver g; ticker := v;
     boardWidth := boardWidth g; boardHeight := boardHeight g;
     gameBoard := gameBoard g; score := score g; gamePiece := gamePiece g;
     nextPiece := nextPiece g; store := store g; intervals := intervals g;
     handles := handles g; randoms := randoms g |}.

Definition set_gameBoard (v : Board.t) (g : Game) : Game :=
  {| difficulty := difficulty g; isRunning := isRunning g;
     isPaused := isPaused g; isGameOver := isGameOver g; ticker := ticker g;
     boardWidth := boardWidth g; boardHeight := boardHeight g;
     gameBoard := v; score := score g; gamePiece := gamePiece g;
     nextPiece := nextPiece g; store := store g; intervals := intervals g;
     handles := handles g; randoms := randoms g |}.

Definition set_score (v : option Z) (g : Game) : Game :=
  {| difficulty := difficulty g; isRunning := isRunning g;
     isPaused := isPaused g; isGameOver := isGameOver g; ticker := ticker g;
     boardWidth := boardWidth g; boardHeight := boardHeight g;
     gameBoard := gameBoard g; score := v; gamePiece := gamePiece g;
     nextPiece := nextPiece g; store := store g; intervals := intervals g;
     handles := handles g; randoms := randoms g |}.

Definition set_gamePiece (v : option loc) (g : Game) : Game :=
  {| difficulty := difficulty g; isRunning := isRunning g;
     isPaused := isPaused g; isGameOver := isGameOver g; ticker := ticker g;
     boardWidth := boardWidth g; boardHeight := boardHeight g;
     gameBoard := gameBoard g; score := score g; gamePiece := v;
     nextPiece := nextPiece g; store := store g; intervals := intervals g;
     handles := handles g; randoms := randoms g |}.

Definition set_nextPiece (v : option loc) (g : Game) : Game :=
  {| difficulty := difficulty g; isRunning := isRunning g;
     isPaused := isPaused g; isGameOver := isGameOver g; ticker := ticker g;
     boardWidth := boardWidth g; boardHeight := boardHeight g;
     gameBoard := gameBoard g; score := score g; gamePiece := gamePiece g;
     nextPiece := v; store := store g; intervals := intervals g;
     handles := handles g; randoms := randoms g |}.

Definition set_store (v : Store) (g : Game) : Game :=
  {| difficulty := difficulty g; isRunning := isRunning g;
     isPaused := isPaused g; isGameOver := isGameOver g; ticker := ticker g;
     boardWidth := boardWidth g; boardHeight := boardHeight g;
     gameBoard := gameBoard g; score := score g; gamePiece := gamePiece g;
     nextPiece := nextPiece g; store := v; intervals := intervals g;
     handles := handles g; randoms := randoms g |}.

Definition set_timers (v : list (nat * option Z)) (h : nat) (g : Game) : Game :=
  {| difficulty := difficulty g; isRunning := isRunning g;
     isPaused := isPaused g; isGameOver := isGameOver g; ticker := ticker g;
     boardWidth := boardWidth g; boardHeight := boardHeight g;
     gameBoard := gameBoard g; score := score g; gamePiece := gamePiece g;
     nextPiece := nextPiece g; store := store g; intervals := v;
     handles := h; randoms := randoms g |}.

Definition set_randoms (v : nat -> nat) (g : Game) : Game :=
  {| difficulty := difficulty g; isRunning := isRunning g;
     isPaused := isPaused g; isGameOver := isGameOver g; ticker := ticker g;
     boardWidth := boardWidth g; boardHeight := boardHeight g;
     gameBoard := gameBoard g; score := score g; gamePiece := gamePiece g;
     nextPiece := nextPiece g; store := store g; intervals := intervals g;
     handles := handles g; randoms := v |}.

(** ** The monad of methods: state passing with exceptions *)

Definition M (A : Type) : Type := Game -> result (A * Game).

Definition ret {A} (a : A) : M A := fun g => Ok (a, g).

Definition bind {A B} (m : M A) (k : A -> M B) : M B :=
  fun g =>
    match m g with
    | Ok (a, g') => k a g'
    | Throw => Throw
    | OutOfFuel => OutOfFuel
    end.

Declare Scope method_scope.
Delimit Scope method_scope with method.
Notation "x <- m ;; k" := (bind m (fun x => k))
  (at level 100, m at next level, right associativity) : method_scope.
Notation "m ;; k" := (bind m (fun _ => k))
  (at level 100, right associativity) : method_scope.
Local Open Scope method_scope.

(** Read a field of [this.game]. *)
Definition gets {A} (f : Game -> A) : M A := fun g => Ok (f g, g).

(** Assign fields of [this.game]. *)
Definition modify (f : Game -> Game) : M unit := fun g => Ok (tt, f g).

(** Lift a computation that touches no state. *)
Definition lift {A} (r : result A) : M A :=
  fun g => rbind r (fun a => Ok (a, g)).

(** *** Store access *)

Definition getPiece (l : loc) : M Piece.t :=
  g <- gets store ;; lift (defined (pieces g !! l)).

Definition getPosition (l : loc) : M Position.t :=
  g <- gets store ;; lift (defined (positions g !! l)).

Definition getArray (l : loc) : M (list (list cell)) :=
  g <- gets store ;; lift (defined (arrays g !! l)).

Definition setPiece (l : loc) (p : Piece.t) : M unit :=
  modify (fun g => set_store
    {| pieces := <[l := p]> (pieces (store g));
       positions := positions (store g);
       arrays := arrays (store g) |} g).

Definition setPosition (l : loc) (p : Position.t) : M unit :=
  modify (fun g => set_store
    {| pieces := pieces (store g);
       positions := <[l := p]> (positions (store g));
       arrays := arrays (store g) |} g).

Definition setArray (l : loc) (a : list (list cell)) : M unit :=
  modify (fun g => set_store
    {| pieces := pieces (store g);
       positions := positions (store g);
       arrays := <[l := a]> (arrays (store g)) |} g).

(** Object and array literals allocate. *)
Definition newPiece (p : Piece.t) : M loc :=
  fun g => Ok (length (pieces (store g)), set_store
    {| pieces := pieces (store g) ++ [p];
       positions := positions (store g);
       arrays := arrays (store g) |} g).

Definition newPosition (p : Position.t) : M loc :=
  fun g => Ok (length (positions (store g)), set_store
    {| pieces := pieces (store g);
       positions := positions (store g) ++ [p];
       arrays := arrays (store g) |} g).

Definition newArray (a : list (list cell)) : M loc :=
  fun g => Ok (length (arrays (store g)), set_store
    {| pieces := pieces (store g);
       positions := positions (store g);
       arrays := arrays (store g) ++ [a] |} g).

(** *** Timers of the window *)

(** [setInterval(this.gameTick, delay)]: a new handle, a new running timer. *)
Definition setInterval (delay : option Z) : M nat :=
  fun g =>
    let h := S (handles g) in
    Ok (h, set_timers ((h, delay) :: intervals g) h g).

(** [clearInterval(handle)]: stops that timer; [null] stops nothing. *)
Definition clearInterval (handle : option nat) : M unit :=
  modify (fun g =>
    match handle with
    | Some h =>
        set_timers (filter (fun t => fst t <> h) (intervals g)) (handles g) g
    | None => g
    end).

(** ** GamePiece *)

(** [new GamePiece(game, shape)] *)
Definition GamePiece (shape : string) : M loc :=
  a <- newArray [] ;;
  pos <- newPosition (Position.mk 0 0) ;;
  newPiece (Piece.mk (property shapes shape) 0 a pos).

(** The body of the inner loop of [computeShape], at indices [i], [j]. *)
Definition computeShape_cell (sd : option ShapeDescription) (rot : Z)
    (i j : nat) (arr : list (list cell)) : result (list (list cell)) :=
  rbind (defined sd) (fun d =>
  let currentShape := lookupZ (blocks d) rot in
  rbind (indexContainsBlock i j currentShape) (fun b =>
  rbind (defined (arr !! i)) (fun row =>
  Ok (<[i := cell_set row j (if b then Block (color d) else Zero)]> arr)))).

(** The body of the outer loop of [computeShape]. *)
Definition computeShape_row (sd : option ShapeDescription) (rot : Z)
    (i : nat) (arr : list (list cell)) : result (list (list cell)) :=
  for_up GamePiece_width 0 (computeShape_cell sd rot i) (row_set arr i []).

(** [computeShape()] *)
Definition computeShape (this : loc) : M unit :=
  p <- getPiece this ;;
  arr <- getArray (Piece.shapeArray p) ;;
  arr' <- lift (for_up GamePiece_height 0
            (computeShape_row (Piece.shapeDescription p) (Piece.rotation p))
            arr) ;;
  setArray (Piece.shapeArray p) arr'.

(** [rotate()] *)
Definition rotate (this : loc) : M unit :=
  p <- getPiece this ;;
  let rotation' :=
    if Piece.rotation p <=? 2 then Piece.rotation p + 1 else 0 in
  a <- newArray [] ;;
  setPiece this
    (Piece.mk (Piece.shapeDescription p) rotation' a (Piece.position p)).

(** [this.position.x += dx; this.position.y += dy] *)
Definition shiftPosition (this : loc) (dx dy : Z) : M unit :=
  p <- getPiece this ;;
  pos <- getPosition (Piece.position p) ;;
  setPosition (Piece.position p)
    (Position.mk (Position.x pos + dx) (Position.y pos + dy)).

(** [move(direction)]: a [switch] over three strings; any other
    direction does nothing. *)
Definition move (this : loc) (direction : string) : M unit :=
  if decide (direction = "right"%string) then shiftPosition this 1 0
  else if decide (direction = "left"%string) then shiftPosition this (-1) 0
  else if decide (direction = "down"%string) then shiftPosition this 0 1
  else ret tt.

(** ** GameBoard *)

(** [isOnBoard(x, y)].  [&&] short-circuits: [this.gameBoard[0].length] is
    only read once [0 <= x < this.gameBoard.length] is known, so column 0
    exists whenever it is read. *)
Definition isOnBoard (b : Board.t) (x y : Z) : bool :=
  (x >=? 0) && (y >=? 0)
  && (x <? Z.of_nat (length (Board.gameBoard b)))
  && (y <? Z.of_nat (length (default [] (Board.gameBoard b !! 0%nat)))).

(** [isOccupied(x, y)].  Column [x] exists whenever it is read, because
    [isOnBoard] has just succeeded. *)
Definition isOccupied (b : Board.t) (x y : Z) : bool :=
  if negb (isOnBoard b x y) then true
  else isGameBlock (cell_get (default [] (lookupZ (Board.gameBoard b) x)) y).

Definition isUnoccupied (b : Board.t) (x y : Z) : bool :=
  negb (isOccupied b x y).

(** The collision loop of [isValidMove] over a piece's shape array:
    [false] as soon as an occupied cell of the piece is off the board or on
    an occupied board cell. *)
Definition collisionFree (b : Board.t) (shapeArray : list (list cell))
    (pos : Position.t) : result bool :=
  scan_up GamePiece_height 0 (fun i =>
    scan_up GamePiece_width 0 (fun j =>
      rbind (defined (shapeArray !! i)) (fun row =>
        let pieceBlock := cell_get row (Z.of_nat j) in
        if isGameBlock pieceBlock then
          let bx := Position.x pos + Z.of_nat i in
          let by_ := Position.y pos + Z.of_nat j in
          Ok (negb (negb (isOnBoard b bx by_) || isOccupied b bx by_))
        else Ok true))).

(** [isValidMove(gamePiece, direction)] *)
Definition isValidMove (gamePiece : loc) (direction : string) : M bool :=
  tmpPiece <- GamePiece "null" ;;
  gp <- getPiece gamePiece ;;
  tmp <- getPiece tmpPiece ;;
  setPiece tmpPiece
    (Piece.mk (Piece.shapeDescription gp) (Piece.rotation gp)
       (Piece.shapeArray tmp) (Piece.position tmp)) ;;
  gpos <- getPosition (Piece.position gp) ;;
  pos <- newPosition (Position.mk (Position.x gpos) (Position.y gpos)) ;;
  tmp <- getPiece tmpPiece ;;
  setPiece tmpPiece
    (Piece.mk (Piece.shapeDescription tmp) (Piece.rotation tmp)
       (Piece.shapeArray tmp) pos) ;;
  (if decide (direction = "rotate"%string) then rotate tmpPiece
   else if decide (direction = "left"%string) then move tmpPiece direction
   else if decide (direction = "right"%string) then move tmpPiece direction
   else if decide (direction = "down"%string) then move tmpPiece direction
   else ret tt) ;;
  computeShape tmpPiece ;;
  tmp <- getPiece tmpPiece ;;
  arr <- getArray (Piece.shapeArray tmp) ;;
  tpos <- getPosition (Piece.position tmp) ;;
  b <- gets gameBoard ;;
  lift (collisionFree b arr tpos).


(** The test of one row in [checkLines]: [brokenLine] stays false when
    every [this.gameBoard[i][j]], [i < this.width], is a block.  The scan
    stops at the first cell that is not ([break]). *)
Definition lineComplete (b : Board.t) (j : Z) : result bool :=
  scan_up (Z.to_nat (Board.width b)) 0 (fun i =>
    rbind (defined (Board.gameBoard b !! i)) (fun col =>
      Ok (isGameBlock (cell_get col j)))).

(** The row loop of [checkLines]: rows [j], [j + 1], ... ([n] of them),
    pushing the complete ones in that order. *)
Fixpoint scanLines (b : Board.t) (j : Z) (n : nat) : result (list Z) :=
  match n with
  | O => Ok []
  | S n' =>
      rbind (lineComplete b j) (fun complete =>
      rbind (scanLines b (j + 1) n') (fun rest =>
      Ok (if complete then j :: rest else rest)))
  end.

(** [checkLines(gamePiece)] *)
Definition checkLines (gamePiece : option loc) : M (list Z) :=
  b <- gets gameBoard ;;
  range <- match gamePiece with
           | Some gp =>
               p <- getPiece gp ;;
               pos <- getPosition (Piece.position p) ;;
               ret (Position.y pos,
                    Position.y pos + Z.of_nat GamePiece_height)
           | None => ret (0, Board.height b)
           end ;;
  lift (scanLines b (fst range) (Z.to_nat (snd range - fst range))).

(** ** GameStats and the game clock *)

(** [a + b] and [a * b] on numbers, [None] being [NaN] or [undefined]. *)
Definition num_add (a b : option Z) : option Z :=
  match a, b with
  | Some a, Some b => Some (a + b)
  | _, _ => None
  end.

Definition num_mul (a b : option Z) : option Z :=
  match a, b with
  | Some a, Some b => Some (a * b)
  | _, _ => None
  end.

(** [a > b]: false as soon as one side is [NaN] or [undefined]. *)
Definition num_gt (a b : option Z) : bool :=
  match a, b with
  | Some a, Some b => b <? a
  | _, _ => false
  end.

(** [resetTimer()] *)
Definition resetTimer : M unit :=
  t <- gets ticker ;;
  clearInterval t ;;
  d <- gets difficulty ;;
  h <- setInterval (lookupZ difficultyTimeouts d) ;;
  modify (set_ticker (Some h)).

(** [addScore(val)] *)
Definition addScore (val : option Z) : M unit :=
  s <- gets score ;;
  modify (set_score (num_add s val)) ;;
  s' <- gets score ;;
  d <- gets difficulty ;;
  if num_gt s' (lookupZ scorePerLevel d) then
    if d <? 9 then
      modify (set_difficulty (d + 1)) ;;
      resetTimer
    else ret tt
  else ret tt.

(** ** Clearing lines *)

(** [completedLines.slice().sort(function (a, b) { return a - b })] *)
Fixpoint insert_ascending (a : Z) (l : list Z) : list Z :=
  match l with
  | [] => [a]
  | b :: l' => if a <=? b then a :: l else b :: insert_ascending a l'
  end.

Definition sort_ascending (l : list Z) : list Z :=
  foldr insert_ascending [] l.

(** The innermost statement of [clearLines], row [j], column [k]:
    [gameBoard[k][j] = (j > 0) ? gameBoard[k][j - 1] : 0]. *)
Definition shiftCell (j k : nat) (grid : list (list cell))
  : result (list (list cell)) :=
  rbind (defined (grid !! k)) (fun col =>
    Ok (<[k := cell_set col j
                 (if (0 <? j)%nat then cell_get col (Z.of_nat j - 1)
                  else Zero)]> grid)).

(** The sweep for one completed row: [for (j = rowNum; j >= 0; j--)]
    over [for (k = 0; k < this.width; k++)]. *)
Definition collapseRow (width : Z) (rowNum : Z) (grid : list (list cell))
  : result (list (list cell)) :=
  for_down (Z.to_nat (rowNum + 1))
    (fun j => for_up (Z.to_nat width) 0 (shiftCell j)) grid.

(** The loop over [sortedLines]. *)
Fixpoint collapseRows (width : Z) (sortedLines : list Z)
    (grid : list (list cell)) : result (list (list cell)) :=
  match sortedLines with
  | [] => Ok grid
  | rowNum :: rest =>
      rbind (collapseRow width rowNum grid) (collapseRows width rest)
  end.

(** [clearLines(completedLines)] *)
Definition clearLines (completedLines : list Z) : M unit :=
  if (0 <? length completedLines)%nat then
    let sortedLines := sort_ascending completedLines in
    d <- gets difficulty ;;
    addScore
      (num_mul (pointsAwardedForLines !! (length sortedLines - 1)%nat)
               (Some (d + 1))) ;;
    b <- gets gameBoard ;;
    grid <- lift (collapseRows (Board.width b) sortedLines
                    (Board.gameBoard b)) ;;
    modify (set_gameBoard (Board.mk (Board.width b) (Board.height b) grid))
  else ret tt.

(** ** Baking *)

(** The body of the copy loop of [bakePiece] at indices [i], [j]. *)
Definition bakeCell (pos : Position.t) (shapeArray : list (list cell))
    (i j : nat) (b : Board.t) : result Board.t :=
  let bx := Position.x pos + Z.of_nat i in
  let by_ := Position.y pos + Z.of_nat j in
  if isOnBoard b bx by_ then
    rbind (defined (shapeArray !! i)) (fun row =>
      let block := cell_get row (Z.of_nat j) in
      if isGameBlock block then
        rbind (defined (lookupZ (Board.gameBoard b) bx)) (fun col =>
          Ok (Board.mk (Board.width b) (Board.height b)
                (<[Z.to_nat bx := cell_set col (Z.to_nat by_) block]>
                   (Board.gameBoard b))))
      else Ok b)
  else Ok b.

(** The copy loop of [bakePiece]. *)
Definition bakeCells (pos : Position.t) (shapeArray : list (list cell))
    (b : Board.t) : result Board.t :=
  for_up GamePiece_height 0
    (fun i => for_up GamePiece_width 0 (bakeCell pos shapeArray i)) b.

(** [bakePiece(gamePiece)], given [this.game.selectNextPiece]; the
    argument is written [gamePiece'] to keep it apart from the field
    [this.game.gamePiece], which the method reads as [rawPiece]. *)
Definition bakePiece_ (selectNextPiece : M unit) (gamePiece' : option loc)
  : M unit :=
  match gamePiece' with
  | Some _ =>
      raw <- gets gamePiece ;;
      rawPiece <- lift (defined raw) ;;
      p <- getPiece rawPiece ;;
      pos <- getPosition (Piece.position p) ;;
      arr <- getArray (Piece.shapeArray p) ;;
      b <- gets gameBoard ;;
      b' <- lift (bakeCells pos arr b) ;;
      modify (set_gameBoard b') ;;
      completedLines <- checkLines gamePiece' ;;
      clearLines completedLines ;;
      selectNextPiece
  | None => ret tt
  end.

(** ** Game *)

(** [new GameBoard(game, width, height)]: the two loops that fill the
    board with zeros. *)
Definition GameBoard (width height : Z) : result Board.t :=
  rbind
    (for_up (Z.to_nat width) 0
       (fun i grid =>
          for_up (Z.to_nat height) 0
            (fun j grid =>
               rbind (defined (grid !! i)) (fun col =>
                 Ok (<[i := cell_set col j Zero]> grid)))
            (row_set grid i []))
       [])
    (fun grid => Ok (Board.mk width height grid)).

(** [getRandomPiece()] *)
Definition getRandomPiece : M loc :=
  r <- gets randoms ;;
  modify (set_randoms (fun n => r (S n))) ;;
  let keys := keys shapes in
  let randomShapeKey := keys !! (r O mod length keys)%nat in
  GamePiece (default "undefined"%string randomShapeKey).

(** [Math.ceil(a / 2)] for an integer [a]. *)
Definition ceil_half (a : Z) : Z := (a + 1) / 2.

(** The first three statements of [selectNextPiece()]: the next piece
    becomes the piece in play, gets its spawn position, and a new next
    piece is drawn.  Returns [this.gamePiece]. *)
Definition putNextPieceInPlay : M loc :=
  np <- gets nextPiece ;;
  modify (set_gamePiece np) ;;
  gp <- lift (defined np) ;;
  p <- getPiece gp ;;
  sd <- lift (defined (Piece.shapeDescription p)) ;;
  b <- gets gameBoard ;;
  pos <- newPosition (Position.mk (ceil_half (Board.width b - size sd)) 0) ;;
  setPiece gp
    (Piece.mk (Piece.shapeDescription p) (Piece.rotation p)
       (Piece.shapeArray p) pos) ;;
  n <- getRandomPiece ;;
  modify (set_nextPiece (Some n)) ;;
  ret gp.

(** [selectNextPiece()], given [this.togglePause]. *)
Definition selectNextPiece_ (togglePause : M unit) : M unit :=
  gp <- putNextPieceInPlay ;;
  ok <- isValidMove gp "down" ;;
  if ok then ret tt
  else
    modify (set_isGameOver true) ;;
    togglePause.

(** [start()], given [this.selectNextPiece]. *)
Definition start_ (selectNextPiece : M unit) : M unit :=
  running <- gets isRunning ;;
  if negb running then
    selectNextPiece ;;
    t <- gets ticker ;;
    (if t is Some _ then clearInterval t else ret tt) ;;
    d <- gets difficulty ;;
    h <- setInterval (lookupZ difficultyTimeouts d) ;;
    modify (set_ticker (Some h)) ;;
    modify (set_isRunning true)
  else ret tt.

(** [reset()], given [this.start]. *)
Definition reset_ (start : M unit) : M unit :=
  t <- gets ticker ;;
  clearInterval t ;;
  modify (set_ticker None) ;;
  modify (set_difficulty 0) ;;
  modify (set_isGameOver false) ;;
  modify (set_isRunning false) ;;
  modify (set_isPaused false) ;;
  w <- gets boardWidth ;;
  h <- gets boardHeight ;;
  b <- lift (GameBoard w h) ;;
  modify (set_gameBoard b) ;;
  modify (set_score (Some 0)) ;;
  modify (set_gamePiece None) ;;
  n <- getRandomPiece ;;
  modify (set_nextPiece (Some n)) ;;
  start.

(** [togglePause()], given [this.reset]. *)
Definition togglePause_ (reset : M unit) : M unit :=
  paused <- gets isPaused ;;
  if negb paused then
    t <- gets ticker ;;
    clearInterval t ;;
    modify (set_ticker None) ;;
    modify (set_isPaused true)
  else
    over <- gets isGameOver ;;
    if over then reset
    else
      d <- gets difficulty ;;
      h <- setInterval (lookupZ difficultyTimeouts d) ;;
      modify (set_ticker (Some h)) ;;
      modify (set_isPaused false).

(** The four methods call each other in a cycle
    (selectNextPiece, togglePause, reset, start, selectNextPiece); the
    knot is tied by unfolding [togglePause] at most [fuel] times. *)
Fixpoint togglePause (fuel : nat) : M unit :=
  match fuel with
  | O => fun _ => OutOfFuel
  | S fuel' =>
      togglePause_ (reset_ (start_ (selectNextPiece_ (togglePause fuel'))))
  end.

Definition selectNextPiece (fuel : nat) : M unit :=
  selectNextPiece_ (togglePause fuel).

Definition start (fuel : nat) : M unit := start_ (selectNextPiece fuel).

Definition reset (fuel : nat) : M unit := reset_ (start fuel).

Definition bakePiece (fuel : nat) (gamePiece' : option loc) : M unit :=
  bakePiece_ (selectNextPiece fuel) gamePiece'.

(** * Specification-level definitions *)

(** ** Views of the store *)

(** The piece object, position and shape array reached from a reference. *)
Definition pieceAt (g : Game) (l : loc) : option Piece.t :=
  pieces (store g) !! l.

Definition positionOf (g : Game) (l : loc) : option Position.t :=
  p ← pieceAt g l; positions (store g) !! Piece.position p.

Definition occupancy (g : Game) (l : loc) : option (list (list cell)) :=
  p ← pieceAt g l; arrays (store g) !! Piece.shapeArray p.

(** Every object of [s] is still there, unchanged, in [s']: the second
    store only has more objects. *)
Definition extends (s s' : Store) : Prop :=
  pieces s `prefix_of` pieces s'
  /\ positions s `prefix_of` positions s'
  /\ arrays s `prefix_of` arrays s'.

(** ** Occupancy in closed form *)

(** Cell [(i, j)] of the 4x4 grid is set in mask number [rot] of [sd]. *)
Definition occupies (sd : ShapeDescription) (rot : Z) (i j : nat) : bool :=
  negb (Z.land (default 0 (hexValues !! i ≫= (.!! j)))
               (default 0 (lookupZ (blocks sd) rot)) =? 0).

(** The array [computeShape] builds. *)
Definition shapeMatrix (sd : ShapeDescription) (rot : Z) : list (list cell) :=
  (fun i => (fun j => if occupies sd rot i j then Block (color sd) else Zero)
              <$> seq 0 GamePiece_width) <$> seq 0 GamePiece_height.

(** The rotation index after [rotate()]. *)
Definition rotated (rot : Z) : Z := if rot <=? 2 then rot + 1 else 0.

(** The rotation and position of the clone in [isValidMove] after the
    [switch] on the direction. *)
Definition movedRotation (direction : string) (rot : Z) : Z :=
  if decide (direction = "rotate"%string) then rotated rot else rot.

Definition movedPosition (direction : string) (pos : Position.t)
  : Position.t :=
  if decide (direction = "left"%string) then
    Position.mk (Position.x pos - 1) (Position.y pos)
  else if decide (direction = "right"%string) then
    Position.mk (Position.x pos + 1) (Position.y pos)
  else if decide (direction = "down"%string) then
    Position.mk (Position.x pos) (Position.y pos + 1)
  else pos.

(** One cell of the collision test: a block of the piece needs a board
    cell that is on the board and not occupied. *)
Definition cellFree (b : Board.t) (pieceBlock : cell) (bx by_ : Z) : bool :=
  if isGameBlock pieceBlock
  then negb (negb (isOnBoard b bx by_) || isOccupied b bx by_)
  else true.

(** The collision test as a conjunction over the 16 cells. *)
Definition fits (b : Board.t) (shapeArray : list (list cell))
    (pos : Position.t) : bool :=
  forallb (fun i =>
    forallb (fun j =>
      cellFree b (cell_get (default [] (shapeArray !! i)) (Z.of_nat j))
        (Position.x pos + Z.of_nat i) (Position.y pos + Z.of_nat j))
      (seq 0 GamePiece_width))
    (seq 0 GamePiece_height).

(** The store after [isValidMove] has probed a piece of shape [sd],
    rotation [rot] and position [pos]: the clone, the two position
    objects made for it, and its shape array(s) come on top of [s]. *)
Definition probeStore (s : Store) (sd : ShapeDescription) (rot : Z)
    (pos : Position.t) (direction : string) : Store :=
  {| pieces := pieces s ++
       [Piece.mk (Some sd) (movedRotation direction rot)
          (if decide (direction = "rotate"%string)
           then S (length (arrays s)) else length (arrays s))
          (S (length (positions s)))];
     positions := positions s ++
       [Position.mk 0 0; movedPosition direction pos];
     arrays := arrays s ++
       (if decide (direction = "rotate"%string)
        then [[]; shapeMatrix sd (movedRotation direction rot)]
        else [shapeMatrix sd (movedRotation direction rot)]) |}.

(** ** Clearing lines, reference formulation *)

(** Column [col] without the cells whose row index is in [lines]; [j] is
    the row index of the first cell of [col]. *)
Fixpoint deleteRows (lines : list Z) (j : nat) (col : list cell) : list cell :=
  match col with
  | [] => []
  | c :: rest =>
      if decide (Z.of_nat j ∈ lines) then deleteRows lines (S j) rest
      else c :: deleteRows lines (S j) rest
  end.

(** Modelled on the words of the specification: delete all completed rows
    at once and insert that many empty rows at the top.  The grid is kept
    by columns, so this is done in every column. *)
Definition deleteAndPrepend (lines : list Z) (grid : list (list cell))
  : list (list cell) :=
  (fun col => replicate (length lines) Zero ++ deleteRows lines 0 col)
    <$> grid.

(** The statement executed for column [col] in row [j] of a sweep. *)
Definition shiftColumn (j : nat) (col : list cell) : list cell :=
  cell_set col j (if (0 <? j)%nat then cell_get col (Z.of_nat j - 1) else Zero).

(** One column after the rows [n - 1], ..., [0] of a sweep. *)
Fixpoint sweepColumn (n : nat) (col : list cell) : list cell :=
  match n with
  | O => col
  | S j => sweepColumn j (shiftColumn j col)
  end.

(** A board as the constructor makes it and the game keeps it: [width]
    columns of [height] cells. *)
Definition rectangular (b : Board.t) : Prop :=
  Board.width b = Z.of_nat (length (Board.gameBoard b))
  /\ Forall (fun col => Z.of_nat (length col) = Board.height b)
       (Board.gameBoard b).

(** A column after the sweep for row [r]: row [r] is gone, a zero has
    come in at the top. *)
Definition collapseColumn (r : nat) (col : list cell) : list cell :=
  Zero :: take r col ++ drop (S r) col.

(** ** Scoring *)

(** The timers left running by [clearInterval(handle)]. *)
Definition stopTimer (handle : option nat) (timers : list (nat * option Z))
  : list (nat * option Z) :=
  match handle with
  | Some h => filter (fun t => fst t <> h) timers
  | None => timers
  end.

(** The state after [resetTimer()]. *)
Definition afterResetTimer (g : Game) : Game :=
  set_ticker (Some (S (handles g)))
    (set_timers
       ((S (handles g), lookupZ difficultyTimeouts (difficulty g))
          :: stopTimer (ticker g) (intervals g))
       (S (handles g)) g).

(** The state after [addScore(val)]. *)
Definition afterScore (val : option Z) (g : Game) : Game :=
  let g1 := set_score (num_add (score g) val) g in
  if num_gt (score g1) (lookupZ scorePerLevel (difficulty g))
     && (difficulty g <? 9)
  then afterResetTimer (set_difficulty (difficulty g + 1) g1)
  else g1.

(** The points [clearLines] tallies for [n] lines at difficulty [d]:
    [pointsAwardedForLines[n - 1] * (d + 1)]. *)
Definition reward (n : nat) (d : Z) : option Z :=
  num_mul (pointsAwardedForLines !! (n - 1)%nat) (Some (d + 1)).

(** ** Baking, cell by cell *)

(** [b.gameBoard[X][Y]] for numbers [X], [Y] ([undefined] off the grid). *)
Definition cellAt (b : Board.t) (X Y : Z) : cell :=
  cell_get (default [] (lookupZ (Board.gameBoard b) X)) Y.

(** [shapeArray[i][j]] for numbers [i], [j]. *)
Definition pieceCell (shapeArray : list (list cell)) (i j : Z) : cell :=
  cell_get (default [] (lookupZ shapeArray i)) j.

(** The cell at [(X, Y)] once the copy loop of [bakePiece] has done the
    cells of the piece before [(i0, j0)] (in the order of the loops). *)
Definition bakedUpTo (b : Board.t) (pos : Position.t)
    (shapeArray : list (list cell)) (i0 j0 : Z) (X Y : Z) : cell :=
  let i := X - Position.x pos in
  let j := Y - Position.y pos in
  let block := pieceCell shapeArray i j in
  if (0 <=? i) && (0 <=? j) && (j <? 4)
     && ((i <? i0) || ((i =? i0) && (j <? j0)))
     && isOnBoard b X Y && isGameBlock block
  then block
  else cellAt b X Y.

(** The cell at [(X, Y)] after the whole copy loop: the block of the piece
    lying there, if the piece has one and the place is on the board, and
    the old cell otherwise. *)
Definition bakedCell (b : Board.t) (pos : Position.t)
    (shapeArray : list (list cell)) (X Y : Z) : cell :=
  bakedUpTo b pos shapeArray 4 0 X Y.

(** What holds of the board [b] when the copy loop, started on [b0], is
    at indices [i0], [j0]. *)
Definition bakeInvariant (b0 : Board.t) (pos : Position.t)
    (arr : list (list cell)) (i0 j0 : nat) (b : Board.t) : Prop :=
  Board.width b = Board.width b0
  /\ Board.height b = Board.height b0
  /\ length <$> Board.gameBoard b = length <$> Board.gameBoard b0
  /\ forall X Y, cellAt b X Y
                 = bakedUpTo b0 pos arr (Z.of_nat i0) (Z.of_nat j0) X Y.

(** ** Spawning *)

(** The state after [putNextPieceInPlay] has put piece [l] (object [p] of
    shape [sd]) in play. *)
Definition afterSpawn (g : Game) (l : loc) (p : Piece.t)
    (sd : ShapeDescription) : Game :=
  let s := store g in
  let keys := keys shapes in
  let key := default "undefined"%string
               (keys !! (randoms g O mod length keys)%nat) in
  set_nextPiece (Some (length (pieces s)))
    (set_store
       {| pieces :=
            <[l := Piece.mk (Piece.shapeDescription p) (Piece.rotation p)
                     (Piece.shapeArray p) (length (positions s))]> (pieces s)
            ++ [Piece.mk (property shapes key) 0 (length (arrays s))
                  (S (length (positions s)))];
          positions := positions s
            ++ [Position.mk
                  (ceil_half (Board.width (gameBoard g) - size sd)) 0;
                Position.mk 0 0];
          arrays := arrays s ++ [[]] |}
       (set_randoms (fun n => randoms g (S n))
          (set_gamePiece (Some l) g))).

(** The state left by the first branch of [togglePause]. *)
Definition afterPause (g : Game) : Game :=
  set_isPaused true
    (set_ticker None
       (set_timers (stopTimer (ticker g) (intervals g)) (handles g) g)).

(** ** Concrete states used by the examples *)

(** [shapes[key]] for one of the seven keys. *)
Definition shapeOf (key : string) : ShapeDescription :=
  default {| size := 0; blocks := []; color := 0 |} (property shapes key).

(** A board of zeros, as [new GameBoard] makes it. *)
Definition emptyBoard (w h : nat) : Board.t :=
  Board.mk (Z.of_nat w) (Z.of_nat h) (replicate w (replicate h Zero)).

(** A piece object of the given shape and rotation whose position object
    and (computed) shape array sit at index [k] of their stores. *)
Definition pieceObject (key : string) (rot : Z) (k : loc) : Piece.t :=
  Piece.mk (property shapes key) rot k k.

(** A running game on board [b] with the given objects. *)
Definition gameWith (b : Board.t) (s : Store) (gp np : option loc) : Game :=
  {| difficulty := 0; isRunning := true; isPaused := false;
     isGameOver := false; ticker := Some 1%nat;
     boardWidth := Board.width b; boardHeight := Board.height b;
     gameBoard := b; score := Some 0; gamePiece := gp; nextPiece := np;
     store := s; intervals := [(1%nat, Some 1000)]; handles := 1%nat;
     randoms := fun _ => 3%nat |}.

(** An L piece in its spawn rotation against the left wall of an empty
    10x20 board, and a vertical I piece behind it as next piece. *)
Definition wallGame : Game :=
  gameWith (emptyBoard 10 20)
    {| pieces := [pieceObject "l" 0 0%nat; pieceObject "i" 1 1%nat];
       positions := [Position.mk 0 5; Position.mk 6 0];
       arrays := [shapeMatrix (shapeOf "l") 0; shapeMatrix (shapeOf "i") 1] |}
    (Some 0%nat) (Some 1%nat).

(** Two O pieces on an empty 10x20 board, one against each wall. *)
Definition boxGame : Game :=
  gameWith (emptyBoard 10 20)
    {| pieces := [pieceObject "o" 0 0%nat; pieceObject "o" 0 1%nat];
       positions := [Position.mk 0 5; Position.mk 8 5];
       arrays := [shapeMatrix (shapeOf "o") 0; shapeMatrix (shapeOf "o") 0] |}
    (Some 0%nat) (Some 1%nat).

(** A 3x6 board whose rows 2 and 3 are full, with blocks above and below
    them, at difficulty 0 with score 0. *)
Definition linesBoard : Board.t :=
  Board.mk 3 6
    [ [Zero; Block 1; Block 0; Block 0; Zero; Block 2];
      [Zero; Zero; Block 0; Block 0; Block 4; Block 2];
      [Block 5; Zero; Block 0; Block 0; Zero; Zero] ].

Definition linesGame : Game :=
  gameWith linesBoard {| pieces := []; positions := []; arrays := [] |}
    None None.

(** An O piece lying on the floor of an empty 2x4 board: baking it
    completes rows 2 and 3. *)
Definition floorGame : Game :=
  gameWith (emptyBoard 2 4)
    {| pieces := [pieceObject "o" 0 0%nat];
       positions := [Position.mk 0 2];
       arrays := [shapeMatrix (shapeOf "o") 0] |}
    (Some 0%nat) (Some 0%nat).

(** The game holds an O piece on the floor of an empty 10x20 board as its
    active piece (object 0) and a flat I piece at the top as its next
    piece (object 1); both shape arrays are computed. *)
Definition twoPieceGame : Game :=
  gameWith (emptyBoard 10 20)
    {| pieces := [pieceObject "o" 0 0%nat; pieceObject "i" 0 1%nat];
       positions := [Position.mk 4 18; Position.mk 3 0];
       arrays := [shapeMatrix (shapeOf "o") 0; shapeMatrix (shapeOf "i") 0] |}
    (Some 0%nat) (Some 1%nat).

(** A running game on a 10x20 board whose columns 3 to 6 are filled from
    row 2 down; the next piece is an O piece (object 0, shape array
    computed), no piece is in play. *)
Definition blockedBoard : Board.t :=
  Board.mk 10 20
    (replicate 3 (replicate 20 Zero)
     ++ replicate 4 (Zero :: Zero :: replicate 18 (Block 0))
     ++ replicate 3 (replicate 20 Zero)).

Definition blockedGame : Game :=
  gameWith blockedBoard
    {| pieces := [pieceObject "o" 0 0%nat];
       positions := [Position.mk 0 0];
       arrays := [shapeMatrix (shapeOf "o") 0] |}
    None (Some 0%nat).

(** The game as [init()], the space bar and their redraws leave it on a
    board of [w] by [h] blocks too low for the first piece to go down,
    when every random piece is an I piece: the piece in play (object 0)
    lies flat at [(x, 0)] with its blocks in row 1, the game is over and
    paused, and [start()] has set the clock going all the same.  Object 2
    is the clone that [isValidMove] made and moved down. *)
Definition stalledGame (w h : nat) (x : Z) : Game :=
  {| difficulty := 0; isRunning := true; isPaused := true;
     isGameOver := true; ticker := Some 1%nat;
     boardWidth := Z.of_nat w; boardHeight := Z.of_nat h;
     gameBoard := emptyBoard w h; score := Some 0;
     gamePiece := Some 0%nat; nextPiece := Some 1%nat;
     store :=
       {| pieces := [Piece.mk (property shapes "i") 0 0%nat 1%nat;
                     Piece.mk (property shapes "i") 0 1%nat 2%nat;
                     Piece.mk (property shapes "i") 0 2%nat 4%nat];
          positions := [Position.mk 0 0; Position.mk x 0; Position.mk 0 0;
                        Position.mk 0 0; Position.mk x 1];
          arrays := [shapeMatrix (shapeOf "i") 0; shapeMatrix (shapeOf "i") 0;
                     shapeMatrix (shapeOf "i") 0] |};
     intervals := [(1%nat, Some 1000)]; handles := 1%nat;
     randoms := fun _ => 0%nat |}.

(** On a canvas of 200 by 40 pixels: a board of 4 by 2 blocks, which the
    first piece spans. *)
Definition tinyGame : Game := stalledGame 4 2 0.

(** On a canvas of 320 by 20 pixels: a board of 10 by 1 blocks, and the
    blocks of the first piece, in row 1, are all below it. *)
Definition flatGame : Game := stalledGame 10 1 3.

(** ** Further specification-level definitions *)

(** Row [j] of the board is complete: its [width] cells are blocks. *)
Definition rowComplete (b : Board.t) (j : Z) : bool :=
  forallb (fun i => isGameBlock
                      (cell_get (default [] (Board.gameBoard b !! i)) j))
    (seq 0 (Z.to_nat (Board.width b))).

(** The blocks of a grid (a computed shape array, or the grid of the
    board), one entry per block. *)
Definition blocksOf (shapeArray : list (list cell)) : list cell :=
  filter (fun c => isGameBlock c = true) (concat shapeArray).

(** A method never exhausts the unfolding budget. *)
Definition fuel_free {A} (m : M A) : Prop := forall g, m g <> OutOfFuel.

(** A method that returns leaves the observation [f] of the game as it
    was. *)
Definition keeps {A B} (f : Game -> B) (m : M A) : Prop :=
  forall g a g', m g = Ok (a, g') -> f g' = f g.

(** An observation that does not look at the store. *)
Definition ignores_store {C} (f : Game -> C) : Prop :=
  forall s g, f (set_store s g) = f g.

(** The state [reset()] has built when it calls [start()]: the clock
    stopped, level 0, a board of zeros, score 0, no piece in play and a
    newly drawn next piece. *)
Definition freshGame (g : Game) : Game :=
  let s := store g in
  let keys := keys shapes in
  let key := default "undefined"%string
               (keys !! (randoms g O mod length keys)%nat) in
  set_nextPiece (Some (length (pieces s)))
    (set_store
       {| pieces := pieces s ++
            [Piece.mk (property shapes key) 0 (length (arrays s))
               (length (positions s))];
          positions := positions s ++ [Position.mk 0 0];
          arrays := arrays s ++ [[]] |}
       (set_randoms (fun n => randoms g (S n))
          (set_gamePiece None
             (set_score (Some 0)
                (set_gameBoard
                   (Board.mk (boardWidth g) (boardHeight g)
                      (replicate (Z.to_nat (boardWidth g))
                         (replicate (Z.to_nat (boardHeight g)) Zero)))
                   (set_isPaused false
                      (set_isRunning false
                         (set_isGameOver false
                            (set_difficulty 0
                               (set_ticker None
                                  (set_timers
                                     (stopTimer (ticker g) (intervals g))
                                     (handles g) g))))))))))).

(** The state after the second half of [start()]: the clock armed for the
    current level and the game running. *)
Definition afterStart (g : Game) : Game :=
  set_isRunning true (afterResetTimer g).

(** * More of the game: input, the clock tick, resizing *)

(** ** Input and the clock tick *)

(** [this.gamePiece.method()]: the piece in play is read again for the
    call. *)
Definition withGamePiece (method : loc -> M unit) : M unit :=
  gp <- gets gamePiece ;;
  l <- lift (defined gp) ;;
  method l.

(** [if (!this.isPaused && this.gamePiece
         && this.gameBoard.isValidMove(this.gamePiece, direction))
       this.gamePiece.method()], the statement of the three keys that
    steer the piece; [&&] short-circuits. *)
Definition steer (direction : string) (method : loc -> M unit) : M unit :=
  paused <- gets isPaused ;;
  if negb paused then
    gp <- gets gamePiece ;;
    match gp with
    | Some l =>
        ok <- isValidMove l direction ;;
        if (ok : bool) then withGamePiece method else ret tt
    | None => ret tt
    end
  else ret tt.

(** The [switch] of [handleInput(e)] on [e.keyCode], given [this.start],
    [this.togglePause] and [this.gameBoard.bakePiece].  The redraw that
    follows the [switch] is on the canvas. *)
Definition handleInput_ (start togglePause : M unit)
    (bakePiece : option loc -> M unit) (keyCode : Z) : M unit :=
  if decide (keyCode = 38) then steer "rotate" rotate
  else if decide (keyCode = 37) then steer "left" (fun l => move l "left")
  else if decide (keyCode = 39) then steer "right" (fun l => move l "right")
  else if decide (keyCode = 40) then
    paused <- gets isPaused ;;
    if negb paused then
      gp <- gets gamePiece ;;
      ok <- match gp with
            | Some l => isValidMove l "down"
            | None => ret false
            end ;;
      if (ok : bool) then withGamePiece (fun l => move l "down")
      else
        gp' <- gets gamePiece ;;
        bakePiece gp'
    else ret tt
  else if decide (keyCode = 32) then
    running <- gets isRunning ;;
    if negb running then start else togglePause
  else ret tt.

(** The [if] of [gameTick()], given [game.gameBoard.bakePiece]; the redraw
    that follows it is on the canvas. *)
Definition gameTick_ (bakePiece : option loc -> M unit) : M unit :=
  gp <- gets gamePiece ;;
  match gp with
  | Some l =>
      ok <- isValidMove l "down" ;;
      if (ok : bool) then withGamePiece (fun l => move l "down")
      else
        gp' <- gets gamePiece ;;
        bakePiece gp'
  | None => ret tt
  end.

(** The state left by the last branch of [togglePause]: a new clock for
    the current level, the game no longer paused. *)
Definition afterResume (g : Game) : Game :=
  set_isPaused false
    (set_ticker (Some (S (handles g)))
       (set_timers
          ((S (handles g), lookupZ difficultyTimeouts (difficulty g))
             :: intervals g)
          (S (handles g)) g)).

(** ** Resizing the board *)

(** [a.slice(0, e)]: a negative [e] counts from the end of the array. *)
Definition slice0 {A} (a : list A) (e : Z) : list A :=
  if e <? 0 then take (Z.to_nat (Z.of_nat (length a) + e)) a
  else take (Z.to_nat e) a.

(** [for (i = start; i < start + n; i++) body], where the body may [break]
    (it then returns [true]). *)
Fixpoint for_break {St : Type} (n : nat) (i : nat)
    (body : nat -> St -> result (bool * St)) (s : St) : result St :=
  match n with
  | O => Ok s
  | S n' =>
      rbind (body i s) (fun r =>
        if fst r then Ok (snd r) else for_break n' (S i) body (snd r))
  end.

(** The body of the inner loop of [resize], at indices [i], [j]. *)
Definition resizeCell (width height newHeight : Z) (i j : nat)
    (grid : list (list cell)) : result (bool * list (list cell)) :=
  if Z.of_nat j >=? newHeight then
    rbind (defined (grid !! i)) (fun col =>
      Ok (true, <[i := slice0 col newHeight]> grid))
  else if Z.of_nat i >=? width then
    Ok (false, <[i := cell_set [] j Zero]> (row_set grid i []))
  else if Z.of_nat j >=? height then
    rbind (defined (grid !! i)) (fun col =>
      Ok (false, <[i := cell_set col j Zero]> grid))
  else Ok (false, grid).

(** The body of the outer loop of [resize], at index [i]. *)
Definition resizeColumn (width height newWidth newHeight : Z) (i : nat)
    (grid : list (list cell)) : result (bool * list (list cell)) :=
  if Z.of_nat i >=? newWidth then Ok (true, slice0 grid newWidth)
  else
    rbind (for_break (Z.to_nat (Z.max height newHeight)) 0
             (resizeCell width height newHeight i) grid)
          (fun grid' => Ok (false, grid')).

(** [resize(newWidth, newHeight)] of the board: the two loops and the
    two assignments after them; what follows resizes and redraws the
    canvas.  The grid has at least [this.width] columns when the method
    is called, so the counter [i] of [this.gameBoard[i] = []] is at most
    the length of the grid, as [row_set] has it. *)
Definition GameBoard_resize (newWidth newHeight : Z) (b : Board.t)
  : result Board.t :=
  rbind (for_break (Z.to_nat (Z.max (Board.width b) newWidth)) 0
           (resizeColumn (Board.width b) (Board.height b)
              newWidth newHeight)
           (Board.gameBoard b))
        (fun grid => Ok (Board.mk newWidth newHeight grid)).

(** ** The clock of a game *)

(** What the game knows of its clock and of its phase. *)
Definition clockView (g : Game)
  : option nat * list (nat * option Z) * Z * bool * bool * bool :=
  (ticker g, intervals g, difficulty g, isPaused g, isGameOver g, isRunning g).

(** The only timer of the window is the one the game holds in [ticker],
    and it runs at the interval of the current level. *)
Definition tickerIsTheOnlyTimer (g : Game) : Prop :=
  intervals g
  = match ticker g with
    | Some h => [(h, lookupZ difficultyTimeouts (difficulty g))]
    | None => []
    end.

(** The states of the clock that the game goes through: one timer at
    most; none while the game is paused and not over; a game that has not
    been started is not paused and has no piece in play. *)
Definition oneClock (g : Game) : Prop :=
  tickerIsTheOnlyTimer g
  /\ (isPaused g = true -> isGameOver g = false -> ticker g = None)
  /\ (isRunning g = false -> isPaused g = false)
  /\ (isRunning g = false -> gamePiece g = None).

(** What the input handler and the tick rely on when they call
    [bakePiece]: called with the piece of a game that is running and not
    in a pause (or with no piece), it keeps the clock in one of these
    states. *)
Definition keepsOneClock (bakePiece : option loc -> M unit) : Prop :=
  forall p g g',
    oneClock g ->
    isPaused g = false \/ isGameOver g = true ->
    (isRunning g = false -> p = None) ->
    bakePiece p g = Ok (tt, g') ->
    oneClock g'.

(** A method that returns keeps the property [P] of the game. *)
Definition preserves {A} (P : Game -> Prop) (m : M A) : Prop :=
  forall g a g', P g -> m g = Ok (a, g') -> P g'.

(** What [bakePiece] leaves alone before it calls [selectNextPiece]: the
    phase [v] of the game and its piece in play; and the ticker stays the
    only timer. *)
Definition bakeFrame (v : bool * bool * bool * option loc) (g : Game)
  : Prop :=
  tickerIsTheOnlyTimer g
  /\ (isPaused g, isGameOver g, isRunning g, gamePiece g) = v.

(** ** The outcome of [resize] *)

(** A column of height [h] cut or filled with zeros to the height [nh]. *)
Definition resizedColumn (h nh : nat) (col : list cell) : list cell :=
  take nh (col ++ replicate (nh - h) Zero).

(** The column that [resize] builds where the board had none: the inner
    loop makes a new array at every row, so only the last cell is set. *)
Definition newColumn (nh : nat) : list cell :=
  replicate (nh - 1) Undefined ++ [Zero].

(** The grid after [resize] from [w] by [h] to [nw] by [nh]. *)
Definition resizedGrid (w h nw nh : nat) (grid : list (list cell))
  : list (list cell) :=
  (resizedColumn h nh <$> take nw grid) ++ replicate (nw - w) (newColumn nh).

(** ** The size of the game, and its first state *)

(** [this.boardWidth = w; this.boardHeight = h] *)
Definition set_boardSize (w h : Z) (g : Game) : Game :=
  {| difficulty := difficulty g; isRunning := isRunning g;
     isPaused := isPaused g; isGameOver := isGameOver g;
     ticker := ticker g; boardWidth := w; boardHeight := h;
     gameBoard := gameBoard g; score := score g;
     gamePiece := gamePiece g; nextPiece := nextPiece g;
     store := store g; intervals := intervals g; handles := handles g;
     randoms := randoms g |}.

(** [new GameBlock(null).size] *)
Definition blockSize : Z := 20.

(** [this.blockSize * 6] *)
Definition sideBarSize : Z := blockSize * 6.

(** The size of the board in blocks for a canvas of [width] by [height]
    pixels: [Math.floor(width / blockSize)
             - Math.floor(sideBarSize / blockSize)] and
    [Math.floor(height / blockSize)]. *)
Definition blocksWide (width : Z) : Z :=
  width / blockSize - sideBarSize / blockSize.

Definition blocksHigh (height : Z) : Z := height / blockSize.

(** [resize(width, height)] of the game, in pixels, up to its redraw:
    the board is resized, then the game takes the new size. *)
Definition Game_resize (width height : Z) : M unit :=
  let newWidth := blocksWide width in
  let newHeight := blocksHigh height in
  b <- gets gameBoard ;;
  b' <- lift (GameBoard_resize newWidth newHeight b) ;;
  modify (set_gameBoard b') ;;
  modify (set_boardSize newWidth newHeight).

(** The game that the constructor [Game(canvasId)] and [init()] build on a
    canvas of the given size, up to the first redraw.  The window has no
    timer yet. *)
Definition Game_init (canvasWidth canvasHeight : Z) (random : nat -> nat)
  : result Game :=
  rbind (GameBoard (blocksWide canvasWidth) (blocksHigh canvasHeight))
    (fun b =>
       rbind
         (getRandomPiece
            {| difficulty := 0; isRunning := false; isPaused := false;
               isGameOver := false; ticker := None;
               boardWidth := blocksWide canvasWidth;
               boardHeight := blocksHigh canvasHeight;
               gameBoard := b; score := Some 0;
               gamePiece := None; nextPiece := None;
               store := {| pieces := []; positions := []; arrays := [] |};
               intervals := []; handles := 0; randoms := random |})
         (fun r => Ok (set_nextPiece (Some (fst r)) (snd r)))).

(** ** From the first state to the first key *)

(** The game that [init()], a redraw, the key [keyCode] and another
    redraw give on a canvas of the given size. *)
Definition afterFirstKey (canvasWidth canvasHeight : Z)
    (random : nat -> nat) (keyCode : Z) : result Game :=
  rbind (Game_init canvasWidth canvasHeight random) (fun g0 =>
  rbind (computeShape 0%nat g0) (fun '(_, g1) =>
  rbind (handleInput_ (start 2) (togglePause 2) (bakePiece 2) keyCode g1)
    (fun '(_, g2) =>
  rbind (computeShape 1%nat g2) (fun '(_, g3) => Ok g3)))).

(** * Proofs *)

(** ** Running methods *)

Ltac game_simpl :=
  cbn [difficulty isRunning isPaused isGameOver ticker boardWidth boardHeight
       gameBoard score gamePiece nextPiece store intervals handles randoms
       set_difficulty set_isRunning set_isPaused set_isGameOver set_ticker
       set_gameBoard set_score set_gamePiece set_nextPiece set_store
       set_timers set_randoms pieces positions arrays
       Piece.shapeDescription Piece.rotation Piece.shapeArray Piece.position
       Position.x Position.y Board.width Board.height Board.gameBoard
       fst snd].

Lemma bind_run {A B} (m : M A) (k : A -> M B) g a g1 :
  m g = Ok (a, g1) -> bind m k g = k a g1.
Proof. unfold bind. intros ->. reflexivity. Qed.

Lemma bind_throw {A B} (m : M A) (k : A -> M B) g :
  m g = Throw -> bind m k g = Throw.
Proof. unfold bind. intros ->. reflexivity. Qed.

Lemma lift_run {A} (r : result A) a g : r = Ok a -> lift r g = Ok (a, g).
Proof. intros ->. reflexivity. Qed.

Lemma getPiece_run g l p :
  pieces (store g) !! l = Some p -> getPiece l g = Ok (p, g).
Proof. unfold getPiece, bind, gets, lift. intros ->. reflexivity. Qed.

Lemma getPosition_run g l p :
  positions (store g) !! l = Some p -> getPosition l g = Ok (p, g).
Proof. unfold getPosition, bind, gets, lift. intros ->. reflexivity. Qed.

Lemma getArray_run g l a :
  arrays (store g) !! l = Some a -> getArray l g = Ok (a, g).
Proof. unfold getArray, bind, gets, lift. intros ->. reflexivity. Qed.

Lemma set_store_twice s1 s2 g : set_store s2 (set_store s1 g) = set_store s2 g.
Proof. reflexivity. Qed.

Lemma set_store_same g : set_store (store g) g = g.
Proof. destruct g. reflexivity. Qed.

(** Run the first method of a sequence with the given equation. *)
Ltac run1 tac :=
  erewrite bind_run; [| solve [tac] ]; game_simpl;
  rewrite ?set_store_twice.

(** ** Lists as arrays *)

Lemma lookup_snoc {A} (l : list A) (x : A) : (l ++ [x]) !! length l = Some x.
Proof. apply list_lookup_middle. reflexivity. Qed.

Lemma insert_snoc {A} (l : list A) (x y : A) :
  <[length l := y]> (l ++ [x]) = l ++ [y].
Proof.
  rewrite insert_app_r_alt by lia. rewrite Nat.sub_diag. reflexivity.
Qed.

Lemma lookupZ_Some {A} (a : list A) (i : Z) (v : A) :
  lookupZ a i = Some v <-> 0 <= i /\ a !! Z.to_nat i = Some v.
Proof.
  unfold lookupZ. destruct (Z.ltb_spec i 0); split.
  - discriminate.
  - intros [? _]. lia.
  - auto.
  - intros [_ ?]. assumption.
Qed.

Lemma lookupZ_of_nat {A} (a : list A) (i : nat) :
  lookupZ a (Z.of_nat i) = a !! i.
Proof.
  unfold lookupZ. destruct (Z.ltb_spec (Z.of_nat i) 0); [lia|].
  rewrite Nat2Z.id. reflexivity.
Qed.

Lemma cell_get_of_nat (a : list cell) (i : nat) :
  cell_get a (Z.of_nat i) = default Undefined (a !! i).
Proof.
  unfold cell_get. destruct (Z.ltb_spec (Z.of_nat i) 0); [lia|].
  rewrite Nat2Z.id. reflexivity.
Qed.

Lemma cell_set_in_range (a : list cell) (i : nat) (v : cell) :
  (i < length a)%nat -> cell_set a i v = <[i := v]> a.
Proof. intros H. unfold cell_set. destruct (decide _); [reflexivity|lia]. Qed.

Lemma cell_set_length_in_range (a : list cell) (i : nat) (v : cell) :
  (i < length a)%nat -> length (cell_set a i v) = length a.
Proof. intros H. rewrite cell_set_in_range by assumption. apply length_insert. Qed.

(** ** Loops *)

Lemma scan_up_pure n : forall i test (f : nat -> bool),
  (forall k, (i <= k < i + n)%nat -> test k = Ok (f k)) ->
  scan_up n i test = Ok (forallb f (seq i n)).
Proof.
  induction n as [|n IH]; intros i test f H; [reflexivity|].
  cbn [scan_up seq forallb]. rewrite (H i) by lia. cbn [rbind].
  destruct (f i); [|reflexivity].
  rewrite (IH (S i) test f); [reflexivity|]. intros k Hk. apply H. lia.
Qed.

(** Invariant rule for an upward loop: [P k] holds before iteration [k]. *)
Lemma for_up_invariant {St} (P : nat -> St -> Prop) (body : nat -> St -> result St) n :
  forall i s,
    P i s ->
    (forall k s, (i <= k < i + n)%nat -> P k s ->
       exists s', body k s = Ok s' /\ P (S k) s') ->
    exists s', for_up n i body s = Ok s' /\ P (i + n)%nat s'.
Proof.
  induction n as [|n IH]; intros i s HP Hstep.
  - exists s. rewrite Nat.add_0_r. split; [reflexivity|assumption].
  - destruct (Hstep i s) as (s1 & Hb & HP1); [lia|assumption|].
    destruct (IH (S i) s1 HP1) as (s' & Hrun & HP').
    { intros k s2 Hk. apply Hstep. lia. }
    exists s'. cbn [for_up]. rewrite Hb. cbn [rbind].
    split; [assumption|]. replace (i + S n)%nat with (S i + n)%nat by lia.
    assumption.
Qed.

(** Invariant rule for a downward loop: [P j] holds when rows [j] and up
    have been done. *)
Lemma for_down_invariant {St} (P : nat -> St -> Prop) (body : nat -> St -> result St) n :
  forall s,
    P n s ->
    (forall j s, (j < n)%nat -> P (S j) s ->
       exists s', body j s = Ok s' /\ P j s') ->
    exists s', for_down n body s = Ok s' /\ P O s'.
Proof.
  induction n as [|n IH]; intros s HP Hstep.
  - exists s. split; [reflexivity|assumption].
  - destruct (Hstep n s) as (s1 & Hb & HP1); [lia|assumption|].
    destruct (IH s1 HP1) as (s' & Hrun & HP').
    { intros j s2 Hj. apply Hstep. lia. }
    exists s'. cbn [for_down]. rewrite Hb. cbn [rbind]. auto.
Qed.

(** ** The configuration tables *)

(** C9, as the code has it: ten clock delays, four line rewards, nine
    score thresholds (one for each step between the ten difficulty
    levels), and seven shapes with four rotation masks each. *)
Theorem table_sizes :
  length difficultyTimeouts = 10%nat
  /\ length pointsAwardedForLines = 4%nat
  /\ length scorePerLevel = 9%nat
  /\ length shapes = 7%nat
  /\ Forall (fun kv => length (blocks (snd kv)) = 4%nat) shapes.
Proof. repeat split. repeat constructor. Qed.

(** The claim C9 fails on the threshold table: it does not have ten
    entries, and there is no threshold for difficulty 9. *)
Lemma scorePerLevel_size_counterexample :
  length scorePerLevel <> 10%nat /\ lookupZ scorePerLevel 9 = None.
Proof. split; [discriminate|reflexivity]. Qed.

(** ** GamePiece: construction, rotation, moves, occupancy *)

Lemma computeShape_loop sd rot arr :
  for_up GamePiece_height 0 (computeShape_row (Some sd) rot) arr
  = Ok (shapeMatrix sd rot ++ drop 4 arr).
Proof.
  destruct arr as [|r0 [|r1 [|r2 [|r3 rest]]]]; reflexivity.
Qed.

Lemma GamePiece_run key g :
  GamePiece key g =
  Ok (length (pieces (store g)),
      set_store
        {| pieces := pieces (store g) ++
             [Piece.mk (property shapes key) 0
                (length (arrays (store g))) (length (positions (store g)))];
           positions := positions (store g) ++ [Position.mk 0 0];
           arrays := arrays (store g) ++ [[]] |} g).
Proof. reflexivity. Qed.

Lemma rotate_run g l p :
  pieces (store g) !! l = Some p ->
  rotate l g =
  Ok (tt, set_store
        {| pieces := <[l := Piece.mk (Piece.shapeDescription p)
                              (rotated (Piece.rotation p))
                              (length (arrays (store g)))
                              (Piece.position p)]> (pieces (store g));
           positions := positions (store g);
           arrays := arrays (store g) ++ [[]] |} g).
Proof.
  intros Hp. unfold rotate.
  run1 ltac:(apply getPiece_run; eassumption).
  reflexivity.
Qed.

Lemma shiftPosition_run g l p pos dx dy :
  pieces (store g) !! l = Some p ->
  positions (store g) !! Piece.position p = Some pos ->
  shiftPosition l dx dy g =
  Ok (tt, set_store
        {| pieces := pieces (store g);
           positions := <[Piece.position p :=
                           Position.mk (Position.x pos + dx) (Position.y pos + dy)]>
                          (positions (store g));
           arrays := arrays (store g) |} g).
Proof.
  intros Hp Hpos. unfold shiftPosition.
  run1 ltac:(apply getPiece_run; eassumption).
  run1 ltac:(apply getPosition_run; eassumption).
  reflexivity.
Qed.

Lemma computeShape_run g l p sd arr :
  pieces (store g) !! l = Some p ->
  Piece.shapeDescription p = Some sd ->
  arrays (store g) !! Piece.shapeArray p = Some arr ->
  computeShape l g =
  Ok (tt, set_store
        {| pieces := pieces (store g);
           positions := positions (store g);
           arrays := <[Piece.shapeArray p :=
                        shapeMatrix sd (Piece.rotation p) ++ drop 4 arr]>
                       (arrays (store g)) |} g).
Proof.
  intros Hp Hsd Harr. unfold computeShape.
  run1 ltac:(apply getPiece_run; eassumption).
  run1 ltac:(apply getArray_run; eassumption).
  rewrite Hsd.
  run1 ltac:(apply lift_run; apply computeShape_loop).
  reflexivity.
Qed.

Lemma rotated_four rot : 0 <= rot <= 3 -> rotated (rotated (rotated (rotated rot))) = rot.
Proof.
  intros H. assert (rot = 0 \/ rot = 1 \/ rot = 2 \/ rot = 3) as [->|[->|[->| ->]]] by lia;
  reflexivity.
Qed.

(** C8: for a piece in any of the rotation states 0..3, four calls of
    [rotate()] followed by [computeShape()] give the same shape array as
    [computeShape()] before the rotations (and the same rotation index). *)
Theorem rotate_four_times_same_occupancy g l p sd arr :
  pieceAt g l = Some p ->
  Piece.shapeDescription p = Some sd ->
  0 <= Piece.rotation p <= 3 ->
  arrays (store g) !! Piece.shapeArray p = Some arr ->
  (length arr <= 4)%nat ->
  exists g0 g4,
    computeShape l g = Ok (tt, g0)
    /\ (rotate l ;; rotate l ;; rotate l ;; rotate l ;; computeShape l) g
       = Ok (tt, g4)
    /\ occupancy g0 l = Some (shapeMatrix sd (Piece.rotation p))
    /\ occupancy g4 l = occupancy g0 l
    /\ (Piece.rotation <$> pieceAt g4 l) = Some (Piece.rotation p).
Proof.
  unfold pieceAt. intros Hp Hsd Hrot Harr Hlen.
  assert (Hl := lookup_lt_Some _ _ _ Hp).
  assert (Ha := lookup_lt_Some _ _ _ Harr).
  eexists. eexists. split; [|split].
  - apply (computeShape_run g l p sd arr); assumption.
  - run1 ltac:(apply rotate_run; eassumption).
    run1 ltac:(apply rotate_run; game_simpl; apply list_lookup_insert_eq; lia).
    run1 ltac:(apply rotate_run; game_simpl; apply list_lookup_insert_eq; rewrite length_insert; lia).
    run1 ltac:(apply rotate_run; game_simpl; apply list_lookup_insert_eq; rewrite !length_insert; lia).
    erewrite (computeShape_run _ _ _ sd); game_simpl.
    + rewrite set_store_twice. reflexivity.
    + apply list_lookup_insert_eq. rewrite !length_insert. lia.
    + exact Hsd.
    + game_simpl. apply lookup_snoc.
  - unfold occupancy, pieceAt. game_simpl. rewrite Hp. cbn [mbind option_bind].
    assert (Hbefore :
      <[Piece.shapeArray p := shapeMatrix sd (Piece.rotation p) ++ drop 4 arr]>
        (arrays (store g)) !! Piece.shapeArray p
      = Some (shapeMatrix sd (Piece.rotation p))).
    { rewrite list_lookup_insert_eq by lia.
      rewrite drop_ge by lia. rewrite app_nil_r. reflexivity. }
    rewrite Hbefore. split; [reflexivity|].
    rewrite list_lookup_insert_eq by (rewrite !length_insert; lia).
    cbn [option_bind Piece.shapeArray Piece.rotation fmap option_fmap option_map].
    rewrite rotated_four by assumption.
    split; [|reflexivity].
    rewrite insert_snoc. cbn [mbind option_bind Piece.shapeArray].
    rewrite lookup_snoc. cbn [drop]. rewrite app_nil_r. reflexivity.
Qed.

Lemma rotate_four_times_same_occupancy_witness :
  exists g0 g4,
    computeShape 0%nat wallGame = Ok (tt, g0)
    /\ (rotate 0%nat ;; rotate 0%nat ;; rotate 0%nat ;; rotate 0%nat ;;
        computeShape 0%nat) wallGame = Ok (tt, g4)
    /\ occupancy g0 0%nat = Some (shapeMatrix (shapeOf "l") 0)
    /\ occupancy g4 0%nat = occupancy g0 0%nat
    /\ (Piece.rotation <$> pieceAt g4 0%nat) = Some 0.
Proof.
  apply (rotate_four_times_same_occupancy wallGame 0%nat
           (pieceObject "l" 0 0%nat) (shapeOf "l")
           (shapeMatrix (shapeOf "l") 0));
    try reflexivity; vm_compute; try lia. split; discriminate.
Defined.

(** ** GameBoard.isValidMove *)

Lemma collisionFree_fits b arr pos :
  (GamePiece_height <= length arr)%nat ->
  collisionFree b arr pos = Ok (fits b arr pos).
Proof.
  intros Hlen. unfold collisionFree, fits.
  apply scan_up_pure. intros i Hi.
  apply scan_up_pure. intros j Hj.
  destruct (lookup_lt_is_Some_2 arr i) as [row Hrow]; [lia|].
  rewrite Hrow. cbn [defined rbind default]. unfold cellFree.
  destruct (isGameBlock _); reflexivity.
Qed.

Lemma move_run g l p pos direction :
  pieces (store g) !! l = Some p ->
  positions (store g) !! Piece.position p = Some pos ->
  direction <> "rotate"%string ->
  move l direction g =
  Ok (tt, set_store
        {| pieces := pieces (store g);
           positions := <[Piece.position p := movedPosition direction pos]>
                          (positions (store g));
           arrays := arrays (store g) |} g).
Proof.
  intros Hp Hpos Hdir. unfold move, movedPosition.
  destruct (decide (direction = "right"%string)) as [->|].
  { rewrite (shiftPosition_run _ _ _ _ _ _ Hp Hpos). cbn. rewrite Z.add_0_r. reflexivity. }
  destruct (decide (direction = "left"%string)) as [->|].
  { rewrite (shiftPosition_run _ _ _ _ _ _ Hp Hpos). cbn. rewrite Z.add_0_r. reflexivity. }
  destruct (decide (direction = "down"%string)) as [->|].
  { rewrite (shiftPosition_run _ _ _ _ _ _ Hp Hpos). cbn. rewrite Z.add_0_r. reflexivity. }
  unfold ret. rewrite list_insert_id by assumption. 
  destruct g as [? ? ? ? ? ? ? ? ? ? ? [? ? ?] ? ? ?]. reflexivity.
Qed.

Lemma shapeMatrix_length sd rot : length (shapeMatrix sd rot) = 4%nat.
Proof. reflexivity. Qed.

Lemma probe_tail g t tmp sd tpos :
  pieces (store g) !! t = Some tmp ->
  Piece.shapeDescription tmp = Some sd ->
  arrays (store g) !! Piece.shapeArray tmp = Some [] ->
  positions (store g) !! Piece.position tmp = Some tpos ->
  (computeShape t ;;
   tmp <- getPiece t ;;
   arr <- getArray (Piece.shapeArray tmp) ;;
   tpos <- getPosition (Piece.position tmp) ;;
   b <- gets gameBoard ;;
   lift (collisionFree b arr tpos)) g
  = Ok (fits (gameBoard g) (shapeMatrix sd (Piece.rotation tmp)) tpos,
        set_store
          {| pieces := pieces (store g);
             positions := positions (store g);
             arrays := <[Piece.shapeArray tmp :=
                          shapeMatrix sd (Piece.rotation tmp)]>
                         (arrays (store g)) |} g).
Proof.
  intros Hp Hsd Harr Hpos.
  assert (Ha := lookup_lt_Some _ _ _ Harr).
  run1 ltac:(apply (computeShape_run g t tmp sd []); assumption).
  cbn [drop]. rewrite app_nil_r.
  run1 ltac:(apply getPiece_run; game_simpl; eassumption).
  run1 ltac:(apply getArray_run; game_simpl; apply list_lookup_insert_eq; lia).
  run1 ltac:(apply getPosition_run; game_simpl; eassumption).
  run1 ltac:(reflexivity).
  erewrite lift_run; [reflexivity|].
  apply collisionFree_fits. rewrite shapeMatrix_length. reflexivity.
Qed.

Lemma isValidMove_run g l p pos sd direction :
  pieces (store g) !! l = Some p ->
  positions (store g) !! Piece.position p = Some pos ->
  Piece.shapeDescription p = Some sd ->
  isValidMove l direction g =
  Ok (fits (gameBoard g)
        (shapeMatrix sd (movedRotation direction (Piece.rotation p)))
        (movedPosition direction pos),
      set_store (probeStore (store g) sd (Piece.rotation p) pos direction) g).
Proof.
  intros Hp Hpos Hsd.
  assert (Hl := lookup_lt_Some _ _ _ Hp).
  assert (Hq := lookup_lt_Some _ _ _ Hpos).
  destruct pos as [px py].
  unfold isValidMove.
  run1 ltac:(apply GamePiece_run).
  run1 ltac:(apply getPiece_run; game_simpl; rewrite lookup_app_l by lia; eassumption).
  run1 ltac:(apply getPiece_run; game_simpl; apply lookup_snoc).
  run1 ltac:(reflexivity).
  rewrite insert_snoc.
  run1 ltac:(apply getPosition_run; game_simpl; rewrite lookup_app_l by lia; eassumption).
  run1 ltac:(reflexivity).
  run1 ltac:(apply getPiece_run; game_simpl; apply lookup_snoc).
  run1 ltac:(reflexivity).
  rewrite insert_snoc. rewrite Hsd.
  unfold probeStore, movedRotation.
  destruct (decide (direction = "rotate"%string)) as [->|Hne].
  - run1 ltac:(apply rotate_run; game_simpl; apply lookup_snoc).
    rewrite insert_snoc.
    erewrite (probe_tail _ _ _ sd); game_simpl; cycle 1.
    + apply lookup_snoc.
    + reflexivity.
    + game_simpl. apply lookup_snoc.
    + game_simpl. apply lookup_snoc.
    + game_simpl. rewrite set_store_twice. rewrite insert_snoc.
      rewrite !length_app. cbn [length]. rewrite !Nat.add_1_r.
      rewrite <- !app_assoc. reflexivity.
  - assert (Hmove :
      (if decide (direction = "left"%string)
       then move (length (pieces (store g))) direction
       else if decide (direction = "right"%string)
       then move (length (pieces (store g))) direction
       else if decide (direction = "down"%string)
       then move (length (pieces (store g))) direction
       else ret tt) = move (length (pieces (store g))) direction).
    { unfold move.
      destruct (decide (direction = "left"%string)); [reflexivity|].
      destruct (decide (direction = "right"%string)); [reflexivity|].
      destruct (decide (direction = "down"%string)); reflexivity. }
    rewrite Hmove.
    run1 ltac:(eapply move_run; game_simpl; [apply lookup_snoc | game_simpl; apply lookup_snoc | assumption]).
    rewrite insert_snoc.
    erewrite (probe_tail _ _ _ sd); game_simpl; cycle 1.
    + apply lookup_snoc.
    + reflexivity.
    + game_simpl. apply lookup_snoc.
    + game_simpl. apply lookup_snoc.
    + game_simpl. rewrite set_store_twice. rewrite insert_snoc.
      rewrite !length_app. cbn [length]. rewrite !Nat.add_1_r.
      rewrite <- !app_assoc. reflexivity.
Qed.

Lemma extends_probeStore s sd rot pos direction :
  extends s (probeStore s sd rot pos direction).
Proof.
  unfold extends, probeStore. cbn [pieces positions arrays].
  repeat split; apply prefix_app_r; reflexivity.
Qed.

(** C4: probing a move of a piece with [isValidMove], for any direction
    string, returns and changes nothing of the game but the store, where
    it only adds objects: the board, the piece passed, its position and
    its shape array are as before. *)
Theorem isValidMove_does_not_mutate g l p pos arr sd direction :
  pieceAt g l = Some p ->
  positionOf g l = Some pos ->
  occupancy g l = Some arr ->
  Piece.shapeDescription p = Some sd ->
  exists b g',
    isValidMove l direction g = Ok (b, g')
    /\ gameBoard g' = gameBoard g
    /\ g' = set_store (store g') g
    /\ extends (store g) (store g')
    /\ pieceAt g' l = Some p
    /\ positionOf g' l = Some pos
    /\ occupancy g' l = Some arr.
Proof.
  unfold positionOf, occupancy, pieceAt. intros Hp Hpos Harr Hsd.
  rewrite Hp in Hpos, Harr. cbn [mbind option_bind] in Hpos, Harr.
  assert (Hl := lookup_lt_Some _ _ _ Hp).
  assert (Hq := lookup_lt_Some _ _ _ Hpos).
  assert (Ha := lookup_lt_Some _ _ _ Harr).
  eexists. eexists. split.
  { apply (isValidMove_run g l p pos sd direction); assumption. }
  game_simpl.
  split; [reflexivity|]. split; [reflexivity|].
  split; [apply extends_probeStore|].
  unfold probeStore. game_simpl.
  rewrite (lookup_app_l (pieces (store g))) by lia. rewrite Hp.
  cbn [mbind option_bind].
  rewrite (lookup_app_l (positions (store g))) by lia.
  rewrite (lookup_app_l (arrays (store g))) by lia.
  auto.
Qed.

Lemma isValidMove_witness_state :
  pieceAt wallGame 0%nat = Some (pieceObject "l" 0 0%nat)
  /\ positionOf wallGame 0%nat = Some (Position.mk 0 5)
  /\ occupancy wallGame 0%nat = Some (shapeMatrix (shapeOf "l") 0).
Proof. repeat split. Qed.

Lemma isValidMove_does_not_mutate_witness :
  exists b g',
    isValidMove 0%nat "rotate" wallGame = Ok (b, g')
    /\ gameBoard g' = gameBoard wallGame
    /\ g' = set_store (store g') wallGame
    /\ extends (store wallGame) (store g')
    /\ pieceAt g' 0%nat = Some (pieceObject "l" 0 0%nat)
    /\ positionOf g' 0%nat = Some (Position.mk 0 5)
    /\ occupancy g' 0%nat = Some (shapeMatrix (shapeOf "l") 0).
Proof.
  apply (isValidMove_does_not_mutate wallGame 0%nat (pieceObject "l" 0 0%nat)
           (Position.mk 0 5) (shapeMatrix (shapeOf "l") 0) (shapeOf "l")
           "rotate"); reflexivity.
Defined.

(** ** Walls *)

Lemma hexValues_rows : Forall (fun row : list Z => length row = 4%nat) hexValues.
Proof. repeat constructor. Qed.

Lemma occupies_in_range sd rot i j :
  occupies sd rot i j = true -> (i < 4)%nat /\ (j < 4)%nat.
Proof.
  unfold occupies. intros H.
  destruct (hexValues !! i) as [row|] eqn:Hrow; cbn [mbind option_bind] in H.
  - destruct (row !! j) as [v|] eqn:Hv.
    + split; [exact (lookup_lt_Some _ _ _ Hrow)|].
      assert (Hlen := proj1 (Forall_lookup _ _) hexValues_rows i row Hrow).
      cbn beta in Hlen. rewrite <- Hlen. exact (lookup_lt_Some _ _ _ Hv).
    + cbn [default] in H. rewrite Z.land_0_l in H. discriminate H.
  - cbn [default] in H. rewrite Z.land_0_l in H. discriminate H.
Qed.

Lemma shapeMatrix_cell sd rot i j :
  (i < 4)%nat -> (j < 4)%nat ->
  cell_get (default [] (shapeMatrix sd rot !! i)) (Z.of_nat j)
  = if occupies sd rot i j then Block (color sd) else Zero.
Proof.
  intros Hi Hj. rewrite cell_get_of_nat.
  unfold shapeMatrix.
  rewrite (list_lookup_fmap _ (seq 0 GamePiece_height) i).
  rewrite (lookup_seq_lt 0 GamePiece_height i Hi).
  simpl (_ <$> Some _). cbn [default id].
  destruct j as [|[|[|[|j]]]]; try reflexivity. lia.
Qed.

Lemma fits_false b arr pos i j :
  (i < 4)%nat -> (j < 4)%nat ->
  isGameBlock (cell_get (default [] (arr !! i)) (Z.of_nat j)) = true ->
  isOnBoard b (Position.x pos + Z.of_nat i) (Position.y pos + Z.of_nat j) = false ->
  fits b arr pos = false.
Proof.
  intros Hi Hj Hblock Hoff.
  destruct (fits b arr pos) eqn:Hfits; [|reflexivity].
  unfold fits in Hfits. rewrite forallb_forall in Hfits.
  assert (Hin : forall k, (k < 4)%nat -> In k (seq 0 4)).
  { intros k Hk. apply in_seq. lia. }
  specialize (Hfits i (Hin i Hi)). rewrite forallb_forall in Hfits.
  specialize (Hfits j (Hin j Hj)).
  unfold cellFree in Hfits. rewrite Hblock, Hoff in Hfits. discriminate Hfits.
Qed.

Lemma movedRotation_not_rotate direction rot :
  direction <> "rotate"%string -> movedRotation direction rot = rot.
Proof. intros H. unfold movedRotation. destruct (decide _); [contradiction|reflexivity]. Qed.

Lemma movedPosition_left pos :
  movedPosition "left" pos = Position.mk (Position.x pos - 1) (Position.y pos).
Proof. reflexivity. Qed.

Lemma movedPosition_right pos :
  movedPosition "right" pos = Position.mk (Position.x pos + 1) (Position.y pos).
Proof. reflexivity. Qed.

Lemma movedPosition_down pos :
  movedPosition "down" pos = Position.mk (Position.x pos) (Position.y pos + 1).
Proof. reflexivity. Qed.

Lemma isOnBoard_true b x y :
  isOnBoard b x y = true <->
  0 <= x < Z.of_nat (length (Board.gameBoard b))
  /\ 0 <= y < Z.of_nat (length (default [] (Board.gameBoard b !! 0%nat))).
Proof.
  unfold isOnBoard. rewrite !andb_true_iff.
  rewrite !Z.geb_le, !Z.ltb_lt. lia.
Qed.

Lemma isOnBoard_false_x b x y :
  x < 0 \/ Z.of_nat (length (Board.gameBoard b)) <= x ->
  isOnBoard b x y = false.
Proof.
  intros H. destruct (isOnBoard b x y) eqn:E; [|reflexivity].
  apply isOnBoard_true in E. lia.
Qed.

(** C7, as the code has it: a piece at [x = 0] whose current mask has a
    block in column 0 cannot move left, and a piece at
    [x = width - size] whose current mask has a block in column
    [size - 1] cannot move right ([width] being the number of columns of
    the board). *)
Theorem wall_collision g l p pos sd :
  pieceAt g l = Some p ->
  positionOf g l = Some pos ->
  Piece.shapeDescription p = Some sd ->
  (Position.x pos = 0 ->
   (exists j, occupies sd (Piece.rotation p) 0 j = true) ->
   exists g', isValidMove l "left" g = Ok (false, g'))
  /\ (forall c,
        Z.of_nat c = size sd - 1 ->
        Position.x pos = Board.width (gameBoard g) - size sd ->
        Board.width (gameBoard g)
          = Z.of_nat (length (Board.gameBoard (gameBoard g))) ->
        (exists j, occupies sd (Piece.rotation p) c j = true) ->
        exists g', isValidMove l "right" g = Ok (false, g')).
Proof.
  unfold positionOf, pieceAt. intros Hp Hpos Hsd.
  rewrite Hp in Hpos. cbn [mbind option_bind] in Hpos.
  split.
  - intros Hx [j Hocc]. eexists.
    rewrite (isValidMove_run g l p pos sd "left" Hp Hpos Hsd).
    f_equal. f_equal.
    destruct (occupies_in_range _ _ _ _ Hocc) as [Hi Hj].
    apply (fits_false _ _ _ 0%nat j Hi Hj).
    + rewrite shapeMatrix_cell by assumption.
      rewrite movedRotation_not_rotate by discriminate.
      rewrite Hocc. reflexivity.
    + rewrite movedPosition_left. cbn [Position.x Position.y].
      apply isOnBoard_false_x. lia.
  - intros c Hc Hx Hw [j Hocc]. eexists.
    rewrite (isValidMove_run g l p pos sd "right" Hp Hpos Hsd).
    f_equal. f_equal.
    destruct (occupies_in_range _ _ _ _ Hocc) as [Hi Hj].
    apply (fits_false _ _ _ c j Hi Hj).
    + rewrite shapeMatrix_cell by assumption.
      rewrite movedRotation_not_rotate by discriminate.
      rewrite Hocc. reflexivity.
    + rewrite movedPosition_right. cbn [Position.x Position.y].
      apply isOnBoard_false_x. lia.
Qed.

Lemma wall_collision_counterexample :
  positionOf wallGame 0%nat = Some (Position.mk 0 5)
  /\ (exists g', isValidMove 0%nat "left" wallGame = Ok (true, g'))
  /\ positionOf wallGame 1%nat
     = Some (Position.mk (Board.width (gameBoard wallGame) - size (shapeOf "i")) 0)
  /\ (exists g', isValidMove 1%nat "right" wallGame = Ok (true, g')).
Proof.
  split; [reflexivity|]. split; [eexists; vm_compute; reflexivity|].
  split; [reflexivity|]. eexists; vm_compute; reflexivity.
Qed.

Lemma wall_collision_witness :
  (exists g', isValidMove 0%nat "left" boxGame = Ok (false, g'))
  /\ (exists g', isValidMove 1%nat "right" boxGame = Ok (false, g')).
Proof.
  split.
  - apply (proj1 (wall_collision boxGame 0%nat (pieceObject "o" 0 0%nat)
                    (Position.mk 0 5) (shapeOf "o")
                    eq_refl eq_refl eq_refl));
      [reflexivity | exists 0%nat; reflexivity].
  - apply (proj2 (wall_collision boxGame 1%nat (pieceObject "o" 0 1%nat)
                    (Position.mk 8 5) (shapeOf "o")
                    eq_refl eq_refl eq_refl) 1%nat);
      [reflexivity | reflexivity | reflexivity | exists 0%nat; reflexivity].
Defined.

(** ** Scoring and the game clock *)

Lemma resetTimer_run g : resetTimer g = Ok (tt, afterResetTimer g).
Proof. unfold resetTimer, afterResetTimer, stopTimer. destruct g as [? ? ? ? [t|] ? ? ? ? ? ? ? ? ? ?]; reflexivity. Qed.

Lemma addScore_run val g : addScore val g = Ok (tt, afterScore val g).
Proof.
  unfold addScore, afterScore.
  run1 ltac:(reflexivity). run1 ltac:(reflexivity).
  run1 ltac:(reflexivity). run1 ltac:(reflexivity).
  destruct (num_gt _ _); [|reflexivity].
  destruct (difficulty g <? 9); [|reflexivity].
  cbn [andb]. run1 ltac:(reflexivity). apply resetTimer_run.
Qed.

Lemma afterScore_frame val g :
  gameBoard (afterScore val g) = gameBoard g
  /\ store (afterScore val g) = store g
  /\ gamePiece (afterScore val g) = gamePiece g
  /\ nextPiece (afterScore val g) = nextPiece g
  /\ isPaused (afterScore val g) = isPaused g
  /\ isGameOver (afterScore val g) = isGameOver g
  /\ isRunning (afterScore val g) = isRunning g
  /\ score (afterScore val g) = num_add (score g) val.
Proof.
  unfold afterScore. game_simpl.
  destruct (_ && _); repeat split.
Qed.


Lemma scorePerLevel_defined d threshold :
  lookupZ scorePerLevel d = Some threshold -> 0 <= d <= 8.
Proof.
  intros H. apply lookupZ_Some in H as [Hd H].
  apply lookup_lt_Some in H. cbn in H. lia.
Qed.

Lemma difficultyTimeouts_defined d :
  0 <= d <= 9 -> exists ms, lookupZ difficultyTimeouts d = Some ms.
Proof.
  intros H. unfold lookupZ. destruct (Z.ltb_spec d 0); [lia|].
  apply lookup_lt_is_Some_2. cbn. lia.
Qed.

(** C5: when the score after [addScore(val)] exceeds
    [scorePerLevel[difficulty]], the difficulty goes up by exactly one and
    stays within 9, the old clock is cleared and the running clock has
    the delay [difficultyTimeouts] gives for the new difficulty; otherwise
    difficulty and clock stay as they are. *)
Theorem difficulty_transition g val :
  (forall threshold,
     lookupZ scorePerLevel (difficulty g) = Some threshold ->
     num_gt (num_add (score g) val) (Some threshold) = true ->
     exists g' h ms,
       addScore val g = Ok (tt, g')
       /\ difficulty g' = difficulty g + 1
       /\ difficulty g' <= 9
       /\ lookupZ difficultyTimeouts (difficulty g') = Some ms
       /\ ticker g' = Some h
       /\ intervals g' = (h, Some ms) :: stopTimer (ticker g) (intervals g)
       /\ (forall t old,
             ticker g = Some t -> intervals g = [(t, old)] ->
             intervals g' = [(h, Some ms)]))
  /\ (num_gt (num_add (score g) val)
        (lookupZ scorePerLevel (difficulty g)) = false ->
      exists g',
        addScore val g = Ok (tt, g')
        /\ difficulty g' = difficulty g
        /\ ticker g' = ticker g
        /\ intervals g' = intervals g).
Proof.
  split.
  - intros threshold Hthr Hgt.
    destruct (scorePerLevel_defined _ _ Hthr) as [Hlo Hhi].
    destruct (difficultyTimeouts_defined (difficulty g + 1)) as [ms Hms]; [lia|].
    exists (afterScore val g), (S (handles g)), ms.
    split; [apply addScore_run|].
    unfold afterScore. game_simpl. rewrite Hthr, Hgt.
    destruct (Z.ltb_spec (difficulty g) 9); [|lia]. cbn [andb].
    unfold afterResetTimer. game_simpl. rewrite Hms.
    repeat split; try lia.
    intros t old -> ->. cbn [stopTimer filter list_filter fst].
    destruct (decide (t <> t)) as [Hne|_]; [contradiction|reflexivity].
  - intros Hgt. exists (afterScore val g).
    split; [apply addScore_run|].
    unfold afterScore. game_simpl. rewrite Hgt. cbn [andb]. repeat split.
Qed.

Lemma difficulty_transition_witness :
  (exists g' h ms,
     addScore (Some 1300) linesGame = Ok (tt, g')
     /\ difficulty g' = 0 + 1
     /\ difficulty g' <= 9
     /\ lookupZ difficultyTimeouts (difficulty g') = Some ms
     /\ ticker g' = Some h
     /\ intervals g' = (h, Some ms) :: stopTimer (Some 1%nat) [(1%nat, Some 1000)]
     /\ (forall t old,
           Some 1%nat = Some t -> [(1%nat, Some 1000)] = [(t, old)] ->
           intervals g' = [(h, Some ms)]))
  /\ (exists g',
        addScore (Some 100) linesGame = Ok (tt, g')
        /\ difficulty g' = 0
        /\ ticker g' = Some 1%nat
        /\ intervals g' = [(1%nat, Some 1000)]).
Proof.
  split.
  - apply (proj1 (difficulty_transition linesGame (Some 1300)) 1200);
      reflexivity.
  - apply (proj2 (difficulty_transition linesGame (Some 100))). reflexivity.
Defined.

(** ** Clearing lines *)

Lemma shiftRow_run j : forall (rest pre : list (list cell)),
  for_up (length rest) (length pre) (shiftCell j) (pre ++ rest)
  = Ok (pre ++ (shiftColumn j <$> rest)).
Proof.
  induction rest as [|col rest IH]; intros pre.
  - reflexivity.
  - cbn [length for_up]. unfold shiftCell at 1.
    rewrite list_lookup_middle by reflexivity. cbn [defined rbind].
    rewrite insert_app_r_alt by lia. rewrite Nat.sub_diag. cbn [insert list_insert].
    fold (shiftColumn j col).
    specialize (IH (pre ++ [shiftColumn j col])).
    rewrite length_app in IH. cbn [length] in IH. rewrite Nat.add_1_r in IH.
    rewrite <- app_assoc in IH. cbn [app] in IH. rewrite IH.
    rewrite <- app_assoc. reflexivity.
Qed.

Lemma sweep_run width n : forall grid,
  Z.to_nat width = length grid ->
  for_down n (fun j => for_up (Z.to_nat width) 0 (shiftCell j)) grid
  = Ok (sweepColumn n <$> grid).
Proof.
  induction n as [|j IH]; intros grid Hw.
  - cbn [for_down sweepColumn]. rewrite list_fmap_id. reflexivity.
  - cbn [for_down].
    pose proof (shiftRow_run j grid []) as Hrow. cbn [length app] in Hrow.
    rewrite <- Hw in Hrow. rewrite Hrow. cbn [rbind].
    rewrite IH by (rewrite length_fmap; exact Hw).
    rewrite <- list_fmap_compose. reflexivity.
Qed.

Lemma sweepColumn_closed r : forall col,
  (r < length col)%nat -> sweepColumn (S r) col = collapseColumn r col.
Proof.
  induction r as [|r IH]; intros col Hr.
  - destruct col as [|c col]; [cbn in Hr; lia|]. reflexivity.
  - change (sweepColumn (S (S r)) col) with (sweepColumn (S r) (shiftColumn (S r) col)).
    unfold shiftColumn. rewrite cell_set_in_range by assumption.
    change (0 <? S r)%nat with true. cbn match.
    replace (Z.of_nat (S r) - 1) with (Z.of_nat r) by lia.
    rewrite cell_get_of_nat.
    destruct (lookup_lt_is_Some_2 col r) as [c Hc]; [lia|]. rewrite Hc. cbn [default].
    rewrite IH by (rewrite length_insert; lia).
    unfold collapseColumn. f_equal.
    rewrite take_insert_ge by lia.
    rewrite drop_insert_ge by lia. rewrite Nat.sub_diag.
    destruct (lookup_lt_is_Some_2 col (S r)) as [d Hd]; [lia|].
    rewrite (drop_S col d (S r) Hd). cbn [insert list_insert].
    rewrite (take_S_r col r c Hc). rewrite <- app_assoc. reflexivity.
Qed.

Lemma collapseColumn_length r col :
  (r < length col)%nat -> length (collapseColumn r col) = length col.
Proof.
  intros H. unfold collapseColumn. cbn [length].
  rewrite length_app, length_take, length_drop. lia.
Qed.

Lemma collapseRow_run width r grid h :
  Z.to_nat width = length grid ->
  Forall (fun col => length col = h) grid ->
  0 <= r < Z.of_nat h ->
  collapseRow width r grid = Ok (collapseColumn (Z.to_nat r) <$> grid).
Proof.
  intros Hw Hh Hr. unfold collapseRow.
  rewrite sweep_run by assumption. f_equal.
  apply Forall_fmap_ext_1. eapply Forall_impl; [exact Hh|].
  intros col Hlen. cbn beta in Hlen.
  replace (Z.to_nat (r + 1)) with (S (Z.to_nat r)) by lia.
  apply sweepColumn_closed. lia.
Qed.

Lemma deleteRows_ext L1 L2 col : forall k,
  (forall j, (k <= j)%nat -> Z.of_nat j ∈ L1 <-> Z.of_nat j ∈ L2) ->
  deleteRows L1 k col = deleteRows L2 k col.
Proof.
  induction col as [|c col IH]; intros k H; [reflexivity|].
  cbn [deleteRows].
  rewrite (IH (S k)) by (intros j Hj; apply H; lia).
  destruct (decide (Z.of_nat k ∈ L1)) as [H1|H1];
    destruct (decide (Z.of_nat k ∈ L2)) as [H2|H2]; try reflexivity.
  - exfalso. apply H2. apply (H k); [lia|exact H1].
  - exfalso. apply H1. apply (H k); [lia|exact H2].
Qed.

Lemma deleteRows_collapse L r : forall col k,
  Forall (fun x => Z.of_nat (k + r) < x) L ->
  deleteRows L (S k) (take r col ++ drop (S r) col)
  = deleteRows (Z.of_nat (k + r) :: L) k col.
Proof.
  induction r as [|r IH]; intros col k HL.
  - destruct col as [|c col]; [reflexivity|].
    cbn [take drop app deleteRows]. rewrite Nat.add_0_r.
    destruct (decide (Z.of_nat k ∈ Z.of_nat k :: L)) as [_|Hn];
      [|exfalso; apply Hn; left].
    apply deleteRows_ext. intros j Hj. rewrite elem_of_cons.
    split; [auto|]. intros [Heq|?]; [lia|assumption].
  - destruct col as [|c col]; [reflexivity|].
    cbn [take drop app deleteRows].
    assert (Hk : forall j, (j <= k + S r)%nat -> Z.of_nat j ∉ L).
    { intros j Hj Hin. rewrite Forall_forall in HL.
      specialize (HL _ Hin). lia. }
    destruct (decide (Z.of_nat (S k) ∈ L)) as [Hin|_];
      [exfalso; apply (Hk (S k)); [lia|exact Hin]|].
    destruct (decide (Z.of_nat k ∈ Z.of_nat (k + S r) :: L)) as [Hin|_].
    { exfalso. apply elem_of_cons in Hin as [Heq|Hin]; [lia|].
      apply (Hk k); [lia|exact Hin]. }
    f_equal. rewrite IH.
    + replace (S k + r)%nat with (k + S r)%nat by lia. reflexivity.
    + replace (S k + r)%nat with (k + S r)%nat by lia. exact HL.
Qed.

Lemma deleteRows_nil col k : deleteRows [] k col = col.
Proof.
  revert k. induction col as [|c col IH]; intros k; [reflexivity|].
  cbn [deleteRows]. destruct (decide _) as [Hin|_].
  - apply elem_of_nil in Hin. contradiction.
  - rewrite IH. reflexivity.
Qed.

Lemma collapseRows_run width h : forall L grid,
  StronglySorted Z.lt L ->
  Forall (fun r => 0 <= r < Z.of_nat h) L ->
  Z.to_nat width = length grid ->
  Forall (fun col => length col = h) grid ->
  collapseRows width L grid
  = Ok ((fun col => replicate (length L) Zero ++ deleteRows L 0 col) <$> grid).
Proof.
  induction L as [|r L IH]; intros grid Hsorted Hrange Hw Hh.
  - cbn [collapseRows length replicate app]. f_equal.
    rewrite <- (list_fmap_id grid) at 1. apply list_fmap_ext.
    intros i col _. rewrite deleteRows_nil. reflexivity.
  - apply StronglySorted_inv in Hsorted as [Hsorted Hhead].
    apply Forall_cons in Hrange as [Hr Hrange].
    cbn [collapseRows]. rewrite (collapseRow_run width r grid h) by assumption.
    cbn [rbind]. rewrite IH; try assumption.
    + f_equal. rewrite <- list_fmap_compose.
      apply Forall_fmap_ext_1. eapply Forall_impl; [exact Hh|].
      intros col Hlen. cbn beta in Hlen. unfold compose, collapseColumn.
      cbn [deleteRows length].
      destruct (decide (Z.of_nat 0 ∈ L)) as [Hin|_].
      { exfalso. rewrite Forall_forall in Hhead. specialize (Hhead _ Hin). lia. }
      rewrite (deleteRows_collapse L (Z.to_nat r) col 0%nat).
      * cbn [Nat.add]. rewrite Z2Nat.id by lia.
        rewrite replicate_S_end. rewrite <- app_assoc. reflexivity.
      * cbn [Nat.add]. rewrite Z2Nat.id by lia. exact Hhead.
    + rewrite length_fmap. exact Hw.
    + apply Forall_fmap. eapply Forall_impl; [exact Hh|].
      intros col Hlen. cbn beta in Hlen. unfold compose.
      rewrite collapseColumn_length; lia.
Qed.

Lemma insert_ascending_perm a l : insert_ascending a l ≡ₚ a :: l.
Proof.
  induction l as [|b l IH]; [reflexivity|].
  cbn [insert_ascending]. destruct (a <=? b); [reflexivity|].
  rewrite IH. apply Permutation_swap.
Qed.

Lemma sort_ascending_perm l : sort_ascending l ≡ₚ l.
Proof.
  induction l as [|a l IH]; [reflexivity|].
  cbn [sort_ascending foldr]. fold (sort_ascending l).
  rewrite insert_ascending_perm. rewrite IH. reflexivity.
Qed.

Lemma insert_ascending_sorted a l :
  StronglySorted Z.le l -> StronglySorted Z.le (insert_ascending a l).
Proof.
  induction 1 as [|b l Hs IH Hb].
  - repeat constructor.
  - cbn [insert_ascending]. destruct (Z.leb_spec a b).
    + constructor; [constructor; assumption|].
      constructor; [assumption|].
      eapply Forall_impl; [exact Hb|]. intros; cbn beta in *; lia.
    + constructor; [assumption|].
      rewrite insert_ascending_perm. constructor; [lia|assumption].
Qed.

Lemma sort_ascending_sorted l : StronglySorted Z.le (sort_ascending l).
Proof.
  induction l as [|a l IH]; [constructor|].
  cbn [sort_ascending foldr]. apply insert_ascending_sorted. exact IH.
Qed.

Lemma sorted_nodup_strict l :
  StronglySorted Z.le l -> NoDup l -> StronglySorted Z.lt l.
Proof.
  induction 1 as [|a l Hs IH Ha]; intros Hnd; [constructor|].
  apply NoDup_cons in Hnd as [Hnotin Hnd].
  constructor; [auto|].
  rewrite Forall_forall in Ha |- *. intros x Hx.
  specialize (Ha x Hx). assert (a <> x) by (intros ->; contradiction). lia.
Qed.

Lemma clear_equals_reference width h lines grid :
  NoDup lines ->
  Forall (fun r => 0 <= r < Z.of_nat h) lines ->
  Z.to_nat width = length grid ->
  Forall (fun col => length col = h) grid ->
  collapseRows width (sort_ascending lines) grid
  = Ok (deleteAndPrepend lines grid).
Proof.
  intros Hnd Hrange Hw Hh.
  assert (Hperm := sort_ascending_perm lines).
  rewrite (collapseRows_run width h); try assumption.
  - f_equal. unfold deleteAndPrepend. apply list_fmap_ext.
    intros i col _. rewrite (Permutation_length Hperm). f_equal.
    apply deleteRows_ext. intros j _. rewrite Hperm. reflexivity.
  - apply sorted_nodup_strict; [apply sort_ascending_sorted|].
    rewrite Hperm. exact Hnd.
  - rewrite Hperm. exact Hrange.
Qed.

(** The sweeps of [clearLines] never throw on a board that has its
    [width] columns. *)
Lemma shiftRow_total j : forall n k grid,
  (k + n <= length grid)%nat ->
  exists grid', for_up n k (shiftCell j) grid = Ok grid'
                /\ length grid' = length grid.
Proof.
  induction n as [|n IH]; intros k grid Hk.
  - exists grid. split; reflexivity.
  - cbn [for_up]. unfold shiftCell at 1.
    destruct (lookup_lt_is_Some_2 grid k) as [col Hcol]; [lia|].
    rewrite Hcol. cbn [defined rbind].
    destruct (IH (S k) (<[k := shiftColumn j col]> grid)) as (grid' & Hrun & Hlen).
    { rewrite length_insert. lia. }
    exists grid'. split; [exact Hrun|].
    rewrite Hlen. apply length_insert.
Qed.

Lemma collapseRow_total width r grid :
  (Z.to_nat width <= length grid)%nat ->
  exists grid', collapseRow width r grid = Ok grid'
                /\ length grid' = length grid.
Proof.
  intros Hw. unfold collapseRow.
  generalize (Z.to_nat (r + 1)). intros n. revert grid Hw.
  induction n as [|n IH]; intros grid Hw.
  - exists grid. split; reflexivity.
  - cbn [for_down].
    destruct (shiftRow_total n (Z.to_nat width) 0%nat grid) as (g1 & Hrun & Hlen);
      [lia|].
    rewrite Hrun. cbn [rbind].
    destruct (IH g1) as (g2 & Hrun2 & Hlen2); [lia|].
    exists g2. split; [exact Hrun2|lia].
Qed.

Lemma collapseRows_total width L : forall grid,
  (Z.to_nat width <= length grid)%nat ->
  exists grid', collapseRows width L grid = Ok grid'
                /\ length grid' = length grid.
Proof.
  induction L as [|r L IH]; intros grid Hw.
  - exists grid. split; reflexivity.
  - cbn [collapseRows].
    destruct (collapseRow_total width r grid Hw) as (g1 & Hrun & Hlen).
    rewrite Hrun. cbn [rbind].
    destruct (IH g1) as (g2 & Hrun2 & Hlen2); [lia|].
    exists g2. split; [exact Hrun2|lia].
Qed.

(** [clearLines] run on a non-empty list of lines. *)
Lemma clearLines_run lines g grid' :
  lines <> [] ->
  collapseRows (Board.width (gameBoard g)) (sort_ascending lines)
    (Board.gameBoard (gameBoard g)) = Ok grid' ->
  clearLines lines g =
  Ok (tt, set_gameBoard
            (Board.mk (Board.width (gameBoard g)) (Board.height (gameBoard g))
               grid')
            (afterScore (reward (length lines) (difficulty g)) g)).
Proof.
  intros Hne Hrows. unfold clearLines.
  destruct lines as [|r lines]; [contradiction|].
  change (0 <? length (r :: lines))%nat with true. cbn match zeta.
  rewrite (Permutation_length (sort_ascending_perm (r :: lines))).
  set (val := reward (length (r :: lines)) (difficulty g)).
  unfold bind, gets.
  change (num_mul (pointsAwardedForLines !! (length (r :: lines) - 1)%nat)
            (Some (difficulty g + 1))) with val.
  rewrite (addScore_run val g).
  destruct (afterScore_frame val g) as (Hb & _).
  rewrite Hb. unfold lift. rewrite Hrows. reflexivity.
Qed.

Lemma deleteAndPrepend_nil grid : deleteAndPrepend [] grid = grid.
Proof.
  unfold deleteAndPrepend. rewrite <- (list_fmap_id grid) at 2.
  apply list_fmap_ext. intros i col _. rewrite deleteRows_nil. reflexivity.
Qed.

Lemma deleteRows_below lines k col :
  Forall (fun r => r < Z.of_nat k) lines -> deleteRows lines k col = col.
Proof.
  intros H. rewrite <- (deleteRows_nil col k) at 2.
  apply deleteRows_ext. intros j Hj. split.
  - intros Hin. rewrite Forall_forall in H. specialize (H _ Hin). lia.
  - intros Hin. apply elem_of_nil in Hin. contradiction.
Qed.

(** C3: on a rectangular board, [clearLines] applied to a set of row
    indices of the board (no duplicates) leaves the grid that deleting all
    these rows at once and inserting as many empty rows at the top gives;
    for the rows 2 and 3, every column gets two zeros at the top, its
    rows 0 and 1 moved down by two, and its rows from 4 on unchanged. *)
Theorem clearLines_equals_delete_and_prepend g lines :
  rectangular (gameBoard g) ->
  NoDup lines ->
  Forall (fun r => 0 <= r < Board.height (gameBoard g)) lines ->
  exists g',
    clearLines lines g = Ok (tt, g')
    /\ gameBoard g'
       = Board.mk (Board.width (gameBoard g)) (Board.height (gameBoard g))
           (deleteAndPrepend lines (Board.gameBoard (gameBoard g)))
    /\ (lines = [2; 3] ->
        forall k col,
          Board.gameBoard (gameBoard g) !! k = Some col ->
          Board.gameBoard (gameBoard g') !! k
          = Some (Zero :: Zero :: take 2 col ++ drop 4 col)).
Proof.
  intros [Hw Hh] Hnd Hrange.
  assert (Hgrid :
    collapseRows (Board.width (gameBoard g)) (sort_ascending lines)
      (Board.gameBoard (gameBoard g))
    = Ok (deleteAndPrepend lines (Board.gameBoard (gameBoard g)))).
  { apply (clear_equals_reference _ (Z.to_nat (Board.height (gameBoard g)))).
    - exact Hnd.
    - eapply Forall_impl; [exact Hrange|]. intros r Hr. cbn beta in Hr. lia.
    - lia.
    - eapply Forall_impl; [exact Hh|]. intros col Hc. cbn beta in Hc. lia. }
  assert (Hrun : exists g',
    clearLines lines g = Ok (tt, g')
    /\ gameBoard g'
       = Board.mk (Board.width (gameBoard g)) (Board.height (gameBoard g))
           (deleteAndPrepend lines (Board.gameBoard (gameBoard g)))).
  { destruct lines as [|r lines].
    - exists g. split; [reflexivity|]. rewrite deleteAndPrepend_nil.
      destruct (gameBoard g). reflexivity.
    - eexists. split; [apply clearLines_run; [discriminate|exact Hgrid]|].
      reflexivity. }
  destruct Hrun as (g' & Hrun & Hboard).
  exists g'. split; [exact Hrun|]. split; [exact Hboard|].
  intros -> k col Hcol. rewrite Hboard. cbn [Board.gameBoard].
  unfold deleteAndPrepend. rewrite list_lookup_fmap, Hcol.
  cbn [fmap option_fmap option_map length replicate app]. f_equal. f_equal. f_equal.
  assert (Hlen : (4 <= length col)%nat).
  { rewrite Forall_forall in Hh.
    specialize (Hh col (list_elem_of_lookup_2 _ _ _ Hcol)).
    apply Forall_cons in Hrange as [_ Hrange].
    apply Forall_cons in Hrange as [H3 _]. lia. }
  destruct col as [|a [|b [|c [|d rest]]]]; cbn [length] in Hlen; try lia.
  cbn [take drop app].
  change (deleteRows [2; 3] 0 (a :: b :: c :: d :: rest))
    with (a :: b :: deleteRows [2; 3] 4 rest).
  rewrite deleteRows_below; [reflexivity|].
  repeat constructor.
Qed.

Lemma linesBoard_rectangular : rectangular linesBoard.
Proof. split; [reflexivity|]. repeat constructor. Qed.

Lemma clearLines_equals_delete_and_prepend_witness :
  exists g',
    clearLines [2; 3] linesGame = Ok (tt, g')
    /\ gameBoard g'
       = Board.mk 3 6 (deleteAndPrepend [2; 3] (Board.gameBoard linesBoard))
    /\ ([2; 3] = [2; 3] ->
        forall k col,
          Board.gameBoard linesBoard !! k = Some col ->
          Board.gameBoard (gameBoard g') !! k
          = Some (Zero :: Zero :: take 2 col ++ drop 4 col)).
Proof.
  apply (clearLines_equals_delete_and_prepend linesGame [2; 3]).
  - exact linesBoard_rectangular.
  - repeat constructor; rewrite ?elem_of_cons, ?elem_of_nil; lia.
  - repeat constructor; cbn; lia.
Defined.

(** ** The copy loop of bakePiece *)

Lemma isOnBoard_column b x y :
  isOnBoard b x y = true ->
  exists col, lookupZ (Board.gameBoard b) x = Some col
              /\ Board.gameBoard b !! Z.to_nat x = Some col.
Proof.
  intros H. apply isOnBoard_true in H as [Hx _].
  destruct (lookup_lt_is_Some_2 (Board.gameBoard b) (Z.to_nat x)) as [col Hcol];
    [lia|].
  exists col. split; [|exact Hcol]. apply lookupZ_Some. split; [lia|exact Hcol].
Qed.

(** Same array lengths, same answers of [isOnBoard]. *)
Lemma isOnBoard_lengths b b' x y :
  length <$> Board.gameBoard b' = length <$> Board.gameBoard b ->
  isOnBoard b' x y = isOnBoard b x y.
Proof.
  intros H. unfold isOnBoard.
  assert (Hlen : length (Board.gameBoard b') = length (Board.gameBoard b)).
  { apply (f_equal length) in H. rewrite !length_fmap in H. exact H. }
  assert (H0 : length (default [] (Board.gameBoard b' !! 0%nat))
               = length (default [] (Board.gameBoard b !! 0%nat))).
  { apply (f_equal (fun l => l !! 0%nat)) in H.
    rewrite !list_lookup_fmap in H.
    destruct (Board.gameBoard b' !! 0%nat), (Board.gameBoard b !! 0%nat);
      cbn in H |- *; congruence. }
  rewrite Hlen, H0. reflexivity.
Qed.

(** One step of the copy loop never throws and keeps the number of
    columns. *)
Lemma bakeCell_total pos arr i j b :
  (i < length arr)%nat ->
  exists b', bakeCell pos arr i j b = Ok b'
             /\ Board.width b' = Board.width b
             /\ Board.height b' = Board.height b
             /\ length (Board.gameBoard b') = length (Board.gameBoard b).
Proof.
  intros Hi. unfold bakeCell. cbn zeta.
  destruct (isOnBoard b _ _) eqn:Hon; [|exists b; auto].
  destruct (lookup_lt_is_Some_2 arr i Hi) as [row Hrow].
  rewrite Hrow. cbn [defined rbind].
  destruct (isGameBlock _); [|exists b; auto].
  destruct (isOnBoard_column _ _ _ Hon) as (col & Hcol & _).
  rewrite Hcol. cbn [defined rbind]. eexists. split; [reflexivity|].
  cbn [Board.width Board.height Board.gameBoard]. rewrite length_insert. auto.
Qed.

(** The copy loop never throws, whatever the board and the position. *)
Lemma bakeCells_total pos arr b :
  (GamePiece_height <= length arr)%nat ->
  exists b', bakeCells pos arr b = Ok b'
             /\ Board.width b' = Board.width b
             /\ Board.height b' = Board.height b
             /\ length (Board.gameBoard b') = length (Board.gameBoard b).
Proof.
  intros Hlen. unfold bakeCells.
  set (P := fun (_ : nat) (b' : Board.t) =>
              Board.width b' = Board.width b
              /\ Board.height b' = Board.height b
              /\ length (Board.gameBoard b') = length (Board.gameBoard b)).
  destruct (for_up_invariant P
              (fun i => for_up GamePiece_width 0 (bakeCell pos arr i))
              GamePiece_height 0%nat b) as (b' & Hrun & HP).
  - repeat split.
  - intros i b1 Hi HP1.
    destruct (for_up_invariant P (bakeCell pos arr i) GamePiece_width 0%nat b1)
      as (b2 & Hrun2 & HP2).
    + exact HP1.
    + intros j b3 _ (Hw & Hh & Hl).
      destruct (bakeCell_total pos arr i j b3) as (b4 & Hrun4 & Hw4 & Hh4 & Hl4);
        [unfold GamePiece_height in *; lia|].
      exists b4. split; [exact Hrun4|]. unfold P. repeat split; congruence.
    + exists b2. split; [exact Hrun2|exact HP2].
  - exists b'. split; [exact Hrun|exact HP].
Qed.

Lemma cellAt_update w h w' h' grid bx by_ col v X Y :
  grid !! bx = Some col ->
  (by_ < length col)%nat ->
  cellAt (Board.mk w h (<[bx := <[by_ := v]> col]> grid)) X Y
  = if (X =? Z.of_nat bx) && (Y =? Z.of_nat by_) then v
    else cellAt (Board.mk w' h' grid) X Y.
Proof.
  intros Hcol Hby. assert (Hbx := lookup_lt_Some _ _ _ Hcol).
  unfold cellAt, lookupZ, cell_get. cbn [Board.gameBoard].
  destruct (Z.ltb_spec X 0).
  { destruct (Z.eqb_spec X (Z.of_nat bx)); [lia|]. reflexivity. }
  destruct (Z.eqb_spec X (Z.of_nat bx)) as [->|Hne].
  - rewrite Nat2Z.id. rewrite (list_lookup_insert_eq grid bx) by assumption.
    rewrite Hcol. cbn [default id andb].
    destruct (Z.ltb_spec Y 0).
    { destruct (Z.eqb_spec Y (Z.of_nat by_)); [lia|]. reflexivity. }
    destruct (Z.eqb_spec Y (Z.of_nat by_)) as [->|Hney].
    + rewrite Nat2Z.id. rewrite (list_lookup_insert_eq col by_) by assumption.
      reflexivity.
    + rewrite (list_lookup_insert_ne col by_) by lia. reflexivity.
  - rewrite (list_lookup_insert_ne grid bx) by lia. reflexivity.
Qed.

Lemma bakedUpTo_next_row b pos arr i0 X Y :
  bakedUpTo b pos arr i0 4 X Y = bakedUpTo b pos arr (i0 + 1) 0 X Y.
Proof.
  unfold bakedUpTo. cbn zeta.
  destruct (0 <=? X - Position.x pos); [|reflexivity].
  destruct (0 <=? Y - Position.y pos) eqn:Hj0; [|reflexivity].
  destruct (Z.ltb_spec (Y - Position.y pos) 4); [|reflexivity].
  cbn [andb].
  replace ((X - Position.x pos <? i0)
           || (X - Position.x pos =? i0) && true)
    with ((X - Position.x pos <? i0 + 1)
          || (X - Position.x pos =? i0 + 1) && (Y - Position.y pos <? 0));
    [reflexivity|].
  apply Z.leb_le in Hj0.
  destruct (Z.ltb_spec (X - Position.x pos) i0),
           (Z.ltb_spec (X - Position.x pos) (i0 + 1)),
           (Z.eqb_spec (X - Position.x pos) i0),
           (Z.eqb_spec (X - Position.x pos) (i0 + 1)),
           (Z.ltb_spec (Y - Position.y pos) 0); cbn; try reflexivity; lia.
Qed.

Lemma bakedUpTo_start b pos arr X Y :
  bakedUpTo b pos arr (Z.of_nat 0) (Z.of_nat 0) X Y = cellAt b X Y.
Proof.
  unfold bakedUpTo. cbn zeta. change (Z.of_nat 0) with 0.
  destruct (Z.leb_spec 0 (X - Position.x pos)); [|reflexivity].
  destruct (Z.leb_spec 0 (Y - Position.y pos)); [|reflexivity].
  replace (X - Position.x pos <? 0) with false by (symmetry; apply Z.ltb_ge; lia).
  replace (Y - Position.y pos <? 0) with false by (symmetry; apply Z.ltb_ge; lia).
  rewrite andb_false_r. cbn [orb]. rewrite !andb_false_r. reflexivity.
Qed.

Section BakeInvariant.

Variable b0 : Board.t.
Variable pos : Position.t.
Variable arr : list (list cell).
Hypothesis b0_rectangular : rectangular b0.
Hypothesis arr_computed : (GamePiece_height <= length arr)%nat.

Lemma bakedUpTo_skip i0 j0 X Y :
  (isOnBoard b0 (Position.x pos + Z.of_nat i0) (Position.y pos + Z.of_nat j0)
   && isGameBlock (pieceCell arr (Z.of_nat i0) (Z.of_nat j0))) = false ->
  bakedUpTo b0 pos arr (Z.of_nat i0) (Z.of_nat (S j0)) X Y
  = bakedUpTo b0 pos arr (Z.of_nat i0) (Z.of_nat j0) X Y.
Proof.
  intros Hskip. unfold bakedUpTo. cbn zeta.
  destruct (Z.eq_dec (X - Position.x pos) (Z.of_nat i0)) as [Hi|Hi];
    [destruct (Z.eq_dec (Y - Position.y pos) (Z.of_nat j0)) as [Hj|Hj]|].
  - (* the cell just visited: nothing was written *)
    rewrite Hi, Hj.
    replace X with (Position.x pos + Z.of_nat i0) by lia.
    replace Y with (Position.y pos + Z.of_nat j0) by lia.
    rewrite <- !(andb_assoc _ (isOnBoard _ _ _) (isGameBlock _)).
    rewrite Hskip, !andb_false_r. reflexivity.
  - replace ((X - Position.x pos <? Z.of_nat i0)
             || (X - Position.x pos =? Z.of_nat i0)
                && (Y - Position.y pos <? Z.of_nat (S j0)))
      with ((X - Position.x pos <? Z.of_nat i0)
            || (X - Position.x pos =? Z.of_nat i0)
               && (Y - Position.y pos <? Z.of_nat j0)); [reflexivity|].
    f_equal. f_equal.
    destruct (Z.ltb_spec (Y - Position.y pos) (Z.of_nat j0)),
             (Z.ltb_spec (Y - Position.y pos) (Z.of_nat (S j0)));
      try reflexivity; lia.
  - replace (X - Position.x pos =? Z.of_nat i0) with false
      by (symmetry; apply Z.eqb_neq; exact Hi).
    reflexivity.
Qed.

Lemma bakedUpTo_write i0 j0 X Y :
  (j0 < 4)%nat ->
  isOnBoard b0 (Position.x pos + Z.of_nat i0) (Position.y pos + Z.of_nat j0)
  = true ->
  isGameBlock (pieceCell arr (Z.of_nat i0) (Z.of_nat j0)) = true ->
  bakedUpTo b0 pos arr (Z.of_nat i0) (Z.of_nat (S j0)) X Y
  = if (X =? Position.x pos + Z.of_nat i0) && (Y =? Position.y pos + Z.of_nat j0)
    then pieceCell arr (Z.of_nat i0) (Z.of_nat j0)
    else bakedUpTo b0 pos arr (Z.of_nat i0) (Z.of_nat j0) X Y.
Proof.
  intros Hj0 Hon Hblock. unfold bakedUpTo. cbn zeta.
  destruct (Z.eqb_spec X (Position.x pos + Z.of_nat i0)) as [->|Hx];
    [destruct (Z.eqb_spec Y (Position.y pos + Z.of_nat j0)) as [->|Hy]|];
    cbn [andb].
  - replace (Position.x pos + Z.of_nat i0 - Position.x pos) with (Z.of_nat i0) by lia.
    replace (Position.y pos + Z.of_nat j0 - Position.y pos) with (Z.of_nat j0) by lia.
    rewrite Hon, Hblock.
    replace (0 <=? Z.of_nat i0) with true by (symmetry; apply Z.leb_le; lia).
    replace (0 <=? Z.of_nat j0) with true by (symmetry; apply Z.leb_le; lia).
    replace (Z.of_nat j0 <? 4) with true by (symmetry; apply Z.ltb_lt; lia).
    rewrite Z.eqb_refl.
    replace (Z.of_nat j0 <? Z.of_nat (S j0)) with true
      by (symmetry; apply Z.ltb_lt; lia).
    rewrite orb_true_r. reflexivity.
  - replace (Position.x pos + Z.of_nat i0 - Position.x pos) with (Z.of_nat i0) by lia.
    replace (Y - Position.y pos <? Z.of_nat (S j0))
      with (Y - Position.y pos <? Z.of_nat j0); [reflexivity|].
    destruct (Z.ltb_spec (Y - Position.y pos) (Z.of_nat j0)),
             (Z.ltb_spec (Y - Position.y pos) (Z.of_nat (S j0)));
      try reflexivity; lia.
  - replace (X - Position.x pos =? Z.of_nat i0) with false
      by (symmetry; apply Z.eqb_neq; lia).
    reflexivity.
Qed.

Lemma pieceCell_row i j row :
  arr !! i = Some row ->
  pieceCell arr (Z.of_nat i) (Z.of_nat j) = cell_get row (Z.of_nat j).
Proof.
  intros Hrow. unfold pieceCell. rewrite lookupZ_of_nat, Hrow. reflexivity.
Qed.

(** One step of the copy loop on a rectangular board. *)
Lemma bakeCell_step i0 j0 b :
  (i0 < 4)%nat -> (j0 < 4)%nat ->
  bakeInvariant b0 pos arr i0 j0 b ->
  exists b', bakeCell pos arr i0 j0 b = Ok b' /\ bakeInvariant b0 pos arr i0 (S j0) b'.
Proof.
  intros Hi0 Hj0 (Hw & Hh & Hlen & Hcells).
  destruct (lookup_lt_is_Some_2 arr i0) as [row Hrow];
    [unfold GamePiece_height in arr_computed; lia|].
  unfold bakeCell. cbn zeta.
  rewrite (isOnBoard_lengths b0 b) by exact Hlen.
  rewrite Hrow. cbn [defined rbind].
  rewrite <- (pieceCell_row i0 j0 row Hrow).
  destruct (isOnBoard b0 _ _) eqn:Hon.
  2:{ exists b. split; [reflexivity|]. repeat split; try assumption.
      intros X Y. rewrite bakedUpTo_skip; [apply Hcells|].
      rewrite Hon. reflexivity. }
  destruct (isGameBlock _) eqn:Hblock.
  2:{ exists b. split; [reflexivity|]. repeat split; try assumption.
      intros X Y. rewrite bakedUpTo_skip; [apply Hcells|].
      rewrite Hblock. apply andb_false_r. }
  assert (Hon' : isOnBoard b (Position.x pos + Z.of_nat i0)
                   (Position.y pos + Z.of_nat j0) = true).
  { rewrite (isOnBoard_lengths b0 b) by exact Hlen. exact Hon. }
  destruct (isOnBoard_column _ _ _ Hon') as (col & Hcol & Hcol').
  rewrite Hcol. cbn [defined rbind].
  (* the column is as long as column 0 *)
  assert (Hby : (Z.to_nat (Position.y pos + Z.of_nat j0) < length col)%nat).
  { apply isOnBoard_true in Hon as [Hx Hy].
    destruct b0_rectangular as [_ Hrect].
    assert (Hcol0 : exists col0,
              Board.gameBoard b0 !! Z.to_nat (Position.x pos + Z.of_nat i0)
              = Some col0 /\ length col0 = length col).
    { apply (f_equal (fun l => l !! Z.to_nat (Position.x pos + Z.of_nat i0)))
        in Hlen.
      rewrite !list_lookup_fmap, Hcol' in Hlen.
      destruct (Board.gameBoard b0 !! _) as [col0|]; [|discriminate Hlen].
      exists col0. split; [reflexivity|]. cbn in Hlen. congruence. }
    destruct Hcol0 as (col0 & Hcol0 & Hlen0).
    destruct (Board.gameBoard b0 !! 0%nat) as [c0|] eqn:Hc0;
      [|cbn in Hy; lia].
    cbn [default id] in Hy.
    rewrite Forall_forall in Hrect.
    pose proof (Hrect _ (list_elem_of_lookup_2 _ _ _ Hcol0)) as H1.
    pose proof (Hrect _ (list_elem_of_lookup_2 _ _ _ Hc0)) as H2.
    cbn beta in H1, H2. lia. }
  rewrite cell_set_in_range by exact Hby.
  eexists. split; [reflexivity|].
  unfold bakeInvariant. cbn [Board.width Board.height Board.gameBoard].
  split; [exact Hw|]. split; [exact Hh|]. split.
  - rewrite list_fmap_insert. rewrite length_insert.
    rewrite list_insert_id; [exact Hlen|].
    rewrite list_lookup_fmap, Hcol'. reflexivity.
  - intros X Y.
    rewrite (cellAt_update _ _ (Board.width b) (Board.height b) _ _ _ col)
      by assumption.
    rewrite bakedUpTo_write by assumption.
    rewrite !Z2Nat.id by (apply isOnBoard_true in Hon; lia).
    destruct (_ && _); [reflexivity|].
    rewrite <- Hcells. destruct b. reflexivity.
Qed.

(** The copy loop on a rectangular board. *)
Lemma bakeCells_run :
  exists b', bakeCells pos arr b0 = Ok b' /\ bakeInvariant b0 pos arr 4 0 b'.
Proof.
  unfold bakeCells.
  destruct (for_up_invariant (fun i => bakeInvariant b0 pos arr i 0)
              (fun i => for_up GamePiece_width 0 (bakeCell pos arr i))
              GamePiece_height 0%nat b0) as (b' & Hrun & HP).
  - repeat split. intros X Y. symmetry. apply bakedUpTo_start.
  - intros i b1 Hi HP1.
    destruct (for_up_invariant (bakeInvariant b0 pos arr i) (bakeCell pos arr i)
                GamePiece_width 0%nat b1) as (b2 & Hrun2 & HP2).
    + exact HP1.
    + intros j b3 Hj HP3.
      apply bakeCell_step;
        [unfold GamePiece_height in Hi|unfold GamePiece_width in Hj|];
        try lia. exact HP3.
    + exists b2. split; [exact Hrun2|].
      destruct HP2 as (Hw & Hh & Hlen & Hcells).
      repeat split; try assumption.
      intros X Y. rewrite Hcells. cbn [Nat.add].
      change (Z.of_nat GamePiece_width) with 4.
      rewrite bakedUpTo_next_row. f_equal. lia.
  - exists b'. split; [exact Hrun|exact HP].
Qed.

End BakeInvariant.

(** The copy loop of [bakePiece] on a rectangular board: it returns, keeps
    the board rectangular and of the same size, and cell by cell gives
    [bakedCell]. *)
Lemma bakeCells_rectangular b pos arr :
  rectangular b ->
  (GamePiece_height <= length arr)%nat ->
  exists b',
    bakeCells pos arr b = Ok b'
    /\ Board.width b' = Board.width b
    /\ Board.height b' = Board.height b
    /\ rectangular b'
    /\ forall X Y, cellAt b' X Y = bakedCell b pos arr X Y.
Proof.
  intros Hrect Harr.
  destruct (bakeCells_run b pos arr Hrect Harr)
    as (b' & Hrun & Hw & Hh & Hlen & Hcells).
  exists b'. split; [exact Hrun|]. split; [exact Hw|]. split; [exact Hh|].
  split; [|exact Hcells].
  destruct Hrect as [Hwidth Hcols]. split.
  - rewrite Hw, Hwidth. apply (f_equal length) in Hlen.
    rewrite !length_fmap in Hlen. lia.
  - rewrite Hh. apply Forall_lookup. intros k col Hcol.
    apply (f_equal (fun l => l !! k)) in Hlen.
    rewrite !list_lookup_fmap, Hcol in Hlen.
    destruct (Board.gameBoard b !! k) as [col0|] eqn:Hcol0; [|discriminate Hlen].
    cbn in Hlen. rewrite Forall_forall in Hcols.
    specialize (Hcols _ (list_elem_of_lookup_2 _ _ _ Hcol0)).
    cbn beta in Hcols. congruence.
Qed.

(** ** checkLines and bakePiece *)

Lemma lineComplete_run b j :
  (Z.to_nat (Board.width b) <= length (Board.gameBoard b))%nat ->
  lineComplete b j
  = Ok (forallb (fun i => isGameBlock
                            (cell_get (default [] (Board.gameBoard b !! i)) j))
          (seq 0 (Z.to_nat (Board.width b)))).
Proof.
  intros Hw. unfold lineComplete. apply scan_up_pure. intros k Hk.
  destruct (lookup_lt_is_Some_2 (Board.gameBoard b) k) as [col Hcol]; [lia|].
  rewrite Hcol. reflexivity.
Qed.

Lemma scanLines_total b n : forall j,
  (Z.to_nat (Board.width b) <= length (Board.gameBoard b))%nat ->
  exists lines, scanLines b j n = Ok lines
                /\ (length lines <= n)%nat
                /\ Forall (fun r => j <= r < j + Z.of_nat n) lines
                /\ StronglySorted Z.lt lines.
Proof.
  induction n as [|n IH]; intros j Hw.
  - exists []. repeat split; [cbn; lia|constructor|constructor].
  - cbn [scanLines]. rewrite lineComplete_run by exact Hw. cbn [rbind].
    destruct (IH (j + 1) Hw) as (rest & Hrun & Hlen & Hrange & Hsorted).
    rewrite Hrun. cbn [rbind].
    assert (Hrange' : Forall (fun r => j <= r < j + Z.of_nat (S n)) rest).
    { eapply Forall_impl; [exact Hrange|]. intros r Hr. cbn beta in Hr. lia. }
    destruct (forallb _ _).
    + exists (j :: rest). split; [reflexivity|]. split; [cbn [length]; lia|].
      split; [constructor; [lia|exact Hrange']|].
      constructor; [exact Hsorted|].
      eapply Forall_impl; [exact Hrange|]. intros r Hr. cbn beta in Hr. lia.
    + exists rest. split; [reflexivity|]. split; [lia|]. split; assumption.
Qed.

Lemma checkLines_run g l p pos lines :
  pieces (store g) !! l = Some p ->
  positions (store g) !! Piece.position p = Some pos ->
  scanLines (gameBoard g) (Position.y pos) GamePiece_height = Ok lines ->
  checkLines (Some l) g = Ok (lines, g).
Proof.
  intros Hp Hpos Hscan. unfold checkLines.
  run1 ltac:(reflexivity).
  run1 ltac:(erewrite bind_run; [|apply getPiece_run; eassumption];
             erewrite bind_run; [|apply getPosition_run; eassumption];
             reflexivity).
  replace (Z.to_nat (Position.y pos + Z.of_nat GamePiece_height - Position.y pos))
    with GamePiece_height by (unfold GamePiece_height; lia).
  rewrite Hscan. reflexivity.
Qed.

Lemma clearLines_total lines g :
  (Z.to_nat (Board.width (gameBoard g))
   <= length (Board.gameBoard (gameBoard g)))%nat ->
  exists g',
    clearLines lines g = Ok (tt, g')
    /\ score g' = (if decide (lines = []) then score g
                   else num_add (score g) (reward (length lines) (difficulty g)))
    /\ store g' = store g
    /\ gamePiece g' = gamePiece g
    /\ nextPiece g' = nextPiece g
    /\ isPaused g' = isPaused g
    /\ Board.width (gameBoard g') = Board.width (gameBoard g)
    /\ Board.height (gameBoard g') = Board.height (gameBoard g)
    /\ length (Board.gameBoard (gameBoard g'))
       = length (Board.gameBoard (gameBoard g)).
Proof.
  intros Hw. destruct (decide (lines = [])) as [->|Hne].
  - exists g. repeat split.
  - destruct (collapseRows_total (Board.width (gameBoard g))
                (sort_ascending lines) (Board.gameBoard (gameBoard g)) Hw)
      as (grid' & Hrun & Hlen).
    eexists. split; [apply clearLines_run; eassumption|].
    game_simpl.
    destruct (afterScore_frame (reward (length lines) (difficulty g)) g)
      as (_ & Hs & Hgp & Hnp & Hpa & _ & _ & Hsc).
    repeat split; assumption.
Qed.

Lemma bakePiece_run sel g l raw p pos arr p' pos' :
  gamePiece g = Some raw ->
  pieceAt g raw = Some p ->
  positionOf g raw = Some pos ->
  occupancy g raw = Some arr ->
  (GamePiece_height <= length arr)%nat ->
  pieceAt g l = Some p' ->
  positionOf g l = Some pos' ->
  (Z.to_nat (Board.width (gameBoard g))
   <= length (Board.gameBoard (gameBoard g)))%nat ->
  exists b' lines g1,
    bakeCells pos arr (gameBoard g) = Ok b'
    /\ scanLines b' (Position.y pos') GamePiece_height = Ok lines
    /\ clearLines lines (set_gameBoard b' g) = Ok (tt, g1)
    /\ bakePiece_ sel (Some l) g = sel g1.
Proof.
  unfold pieceAt, positionOf, occupancy, pieceAt.
  intros Hgp Hp Hpos Harr Hlen Hp' Hpos' Hw.
  rewrite Hp in Hpos, Harr. rewrite Hp' in Hpos'.
  cbn [mbind option_bind] in Hpos, Harr, Hpos'.
  destruct (bakeCells_total pos arr (gameBoard g) Hlen)
    as (b' & Hbake & Hbw & Hbh & Hbl).
  destruct (scanLines_total b' GamePiece_height (Position.y pos'))
    as (lines & Hscan & _); [lia|].
  destruct (clearLines_total lines (set_gameBoard b' g))
    as (g1 & Hclear & _); [game_simpl; lia|].
  exists b', lines, g1.
  split; [exact Hbake|]. split; [exact Hscan|]. split; [exact Hclear|].
  unfold bakePiece_.
  run1 ltac:(reflexivity). rewrite Hgp.
  run1 ltac:(reflexivity).
  run1 ltac:(apply getPiece_run; eassumption).
  run1 ltac:(apply getPosition_run; eassumption).
  run1 ltac:(apply getArray_run; eassumption).
  run1 ltac:(reflexivity).
  run1 ltac:(apply lift_run; eassumption).
  run1 ltac:(reflexivity).
  run1 ltac:(apply (checkLines_run _ l p' pos' lines); game_simpl; assumption).
  run1 ltac:(eassumption).
  reflexivity.
Qed.

(** C10: the copy loop of [bakePiece] returns for every board and every
    position of the piece, keeps the number of columns, and on a
    rectangular board writes exactly the blocks of the piece that lie on
    the board: every column keeps its length, cells off the board are
    skipped; and [bakePiece] as a whole reaches [selectNextPiece] without
    throwing. *)
Theorem bakePiece_writes_in_bounds :
  (forall b pos arr,
     (GamePiece_height <= length arr)%nat ->
     exists b',
       bakeCells pos arr b = Ok b'
       /\ Board.width b' = Board.width b
       /\ Board.height b' = Board.height b
       /\ length (Board.gameBoard b') = length (Board.gameBoard b)
       /\ (rectangular b ->
           rectangular b'
           /\ (forall X Y, cellAt b' X Y = bakedCell b pos arr X Y)
           /\ (forall X Y, isOnBoard b X Y = false ->
                           cellAt b' X Y = cellAt b X Y)))
  /\ (forall sel g l raw p pos arr p' pos',
        gamePiece g = Some raw ->
        pieceAt g raw = Some p ->
        positionOf g raw = Some pos ->
        occupancy g raw = Some arr ->
        (GamePiece_height <= length arr)%nat ->
        pieceAt g l = Some p' ->
        positionOf g l = Some pos' ->
        (Z.to_nat (Board.width (gameBoard g))
         <= length (Board.gameBoard (gameBoard g)))%nat ->
        exists g1, bakePiece_ sel (Some l) g = sel g1).
Proof.
  split.
  - intros b pos arr Harr.
    destruct (bakeCells_total pos arr b Harr) as (b' & Hrun & Hw & Hh & Hlen).
    exists b'. repeat (split; [assumption|]).
    intros Hrect.
    destruct (bakeCells_rectangular b pos arr Hrect Harr)
      as (b'' & Hrun' & _ & _ & Hrect' & Hcells).
    assert (b'' = b') as -> by congruence.
    split; [exact Hrect'|]. split; [exact Hcells|].
    intros X Y Hoff. rewrite Hcells. unfold bakedCell, bakedUpTo. cbn zeta.
    rewrite Hoff. rewrite !andb_false_r. reflexivity.
  - intros sel g l raw p pos arr p' pos' Hgp Hp Hpos Harr Hlen Hp' Hpos' Hw.
    destruct (bakePiece_run sel g l raw p pos arr p' pos'
                Hgp Hp Hpos Harr Hlen Hp' Hpos' Hw)
      as (b' & lines & g1 & _ & _ & _ & Hrun).
    exists g1. exact Hrun.
Qed.

Lemma emptyBoard_rectangular w h : rectangular (emptyBoard w h).
Proof.
  split; cbn [emptyBoard Board.width Board.height Board.gameBoard].
  - rewrite length_replicate. reflexivity.
  - apply Forall_replicate. rewrite length_replicate. reflexivity.
Qed.

Lemma bakePiece_writes_in_bounds_witness :
  (exists b',
     bakeCells (Position.mk (-1) 18) (shapeMatrix (shapeOf "o") 0)
       (emptyBoard 10 20) = Ok b'
     /\ length (Board.gameBoard b') = 10%nat
     /\ rectangular b'
     /\ cellAt b' 0 18 = Block 3
     /\ cellAt b' (-1) 18 = Undefined)
  /\ (exists g1, bakePiece_ (ret tt) (Some 0%nat) floorGame = ret tt g1).
Proof.
  split.
  - destruct (proj1 bakePiece_writes_in_bounds (emptyBoard 10 20)
                (Position.mk (-1) 18) (shapeMatrix (shapeOf "o") 0))
      as (b' & Hrun & _ & _ & Hlen & Hrect); [vm_compute; lia|].
    destruct (Hrect (emptyBoard_rectangular 10 20)) as (Hr & Hcells & Hoff).
    exists b'. split; [exact Hrun|]. split; [exact Hlen|].
    split; [exact Hr|]. split.
    + rewrite Hcells. reflexivity.
    + rewrite Hoff; reflexivity.
  - apply (proj2 bakePiece_writes_in_bounds (ret tt) floorGame 0%nat 0%nat
             (pieceObject "o" 0 0%nat) (Position.mk 0 2)
             (shapeMatrix (shapeOf "o") 0)
             (pieceObject "o" 0 0%nat) (Position.mk 0 2));
      try reflexivity; vm_compute; lia.
Defined.

(** A call that the program never makes.  The copy loop reads the piece
    in play, [this.game.gamePiece], where its documentation names the
    argument; both callers pass [this.game.gamePiece], so the two are the
    same piece in every run.  Were [bakePiece] called with another piece
    (here the next piece, an I piece at (3, 0), while an O piece at
    (4, 18) is in play), the board would take the blocks of the piece in
    play and none of the argument. *)
Remark bakePiece_copies_active_piece_not_argument :
  exists g' bActive bArgument,
    bakePiece 2 (Some 1%nat) twoPieceGame = Ok (tt, g')
    /\ bakeCells (Position.mk 4 18) (shapeMatrix (shapeOf "o") 0)
         (emptyBoard 10 20) = Ok bActive
    /\ bakeCells (Position.mk 3 0) (shapeMatrix (shapeOf "i") 0)
         (emptyBoard 10 20) = Ok bArgument
    /\ gameBoard g' = bActive
    /\ gameBoard g' <> bArgument
    /\ cellAt (gameBoard g') 4 18 = Block 3
    /\ cellAt (gameBoard g') 5 19 = Block 3
    /\ cellAt (gameBoard g') 3 1 = Zero
    /\ cellAt bArgument 3 1 = Block 0.
Proof.
  eexists. eexists. eexists.
  split; [vm_compute; reflexivity|].
  split; [vm_compute; reflexivity|].
  split; [vm_compute; reflexivity|].
  split; [reflexivity|].
  split; [discriminate|].
  repeat split.
Qed.

(** ** Spawning the next piece *)

Lemma getRandomPiece_run g :
  getRandomPiece g =
  GamePiece (default "undefined"%string
               (keys shapes !! (randoms g O mod length (keys shapes))%nat))
    (set_randoms (fun n => randoms g (S n)) g).
Proof. reflexivity. Qed.

Lemma putNextPieceInPlay_run g l p sd :
  nextPiece g = Some l ->
  pieces (store g) !! l = Some p ->
  Piece.shapeDescription p = Some sd ->
  putNextPieceInPlay g = Ok (l, afterSpawn g l p sd).
Proof.
  intros Hnp Hp Hsd. unfold putNextPieceInPlay.
  run1 ltac:(reflexivity). rewrite Hnp.
  run1 ltac:(reflexivity).
  run1 ltac:(reflexivity).
  run1 ltac:(apply getPiece_run; eassumption).
  rewrite Hsd.
  run1 ltac:(reflexivity).
  run1 ltac:(reflexivity).
  run1 ltac:(reflexivity).
  run1 ltac:(reflexivity).
  run1 ltac:(rewrite getRandomPiece_run; apply GamePiece_run).
  rewrite length_insert.
  run1 ltac:(reflexivity).
  unfold ret, afterSpawn. cbn zeta. rewrite ?Hsd, length_app. cbn [length].
  rewrite Nat.add_1_r, <- !app_assoc. reflexivity.
Qed.

Lemma putNextPieceInPlay_inv g l g1 :
  putNextPieceInPlay g = Ok (l, g1) ->
  exists p sd,
    nextPiece g = Some l
    /\ pieces (store g) !! l = Some p
    /\ Piece.shapeDescription p = Some sd
    /\ g1 = afterSpawn g l p sd.
Proof.
  intros Hrun.
  destruct (nextPiece g) as [l'|] eqn:Hnp.
  2:{ exfalso. revert Hrun. unfold putNextPieceInPlay.
      run1 ltac:(reflexivity). rewrite Hnp.
      run1 ltac:(reflexivity). discriminate. }
  destruct (pieces (store g) !! l') as [p|] eqn:Hp.
  2:{ exfalso. revert Hrun. unfold putNextPieceInPlay.
      run1 ltac:(reflexivity). rewrite Hnp.
      run1 ltac:(reflexivity). run1 ltac:(reflexivity).
      rewrite bind_throw; [discriminate|].
      unfold getPiece, bind, gets, lift. game_simpl. rewrite Hp. reflexivity. }
  destruct (Piece.shapeDescription p) as [sd|] eqn:Hsd.
  2:{ exfalso. revert Hrun. unfold putNextPieceInPlay.
      run1 ltac:(reflexivity). rewrite Hnp.
      run1 ltac:(reflexivity). run1 ltac:(reflexivity).
      run1 ltac:(apply getPiece_run; eassumption).
      rewrite Hsd. discriminate. }
  rewrite (putNextPieceInPlay_run g l' p sd Hnp Hp Hsd) in Hrun.
  injection Hrun as <- <-. exists p, sd. auto.
Qed.

(** The first branch of [togglePause]. *)
Lemma togglePause_pauses fuel g :
  isPaused g = false ->
  togglePause (S fuel) g = Ok (tt, afterPause g).
Proof.
  intros Hp. cbn [togglePause]. unfold togglePause_.
  run1 ltac:(reflexivity). rewrite Hp. cbn [negb].
  run1 ltac:(reflexivity).
  unfold afterPause, stopTimer.
  destruct (ticker g) as [t|]; reflexivity.
Qed.

(** C2, as the code has it: when the piece just put in play cannot move
    down from its spawn position and the game is not paused,
    [selectNextPiece] sets the game-over flag, pauses the game and stops
    the clock; the piece stays the game's [gamePiece]. *)
Theorem failed_spawn_is_game_over fuel g l g1 g2 :
  isPaused g = false ->
  putNextPieceInPlay g = Ok (l, g1) ->
  isValidMove l "down" g1 = Ok (false, g2) ->
  exists g',
    selectNextPiece (S fuel) g = Ok (tt, g')
    /\ isGameOver g' = true
    /\ isPaused g' = true
    /\ ticker g' = None
    /\ intervals g' = stopTimer (ticker g) (intervals g)
    /\ gamePiece g' = Some l
    /\ gameBoard g' = gameBoard g
    /\ score g' = score g.
Proof.
  intros Hpaused Hspawn Hcheck.
  destruct (putNextPieceInPlay_inv g l g1 Hspawn)
    as (p & sd & Hnp & Hp & Hsd & ->).
  assert (Hl := lookup_lt_Some _ _ _ Hp).
  (* the probe only touched the store *)
  assert (Hg2 : exists s2, g2 = set_store s2 (afterSpawn g l p sd)).
  { erewrite isValidMove_run in Hcheck.
    - injection Hcheck as _ <-. eexists. reflexivity.
    - unfold afterSpawn. game_simpl.
      rewrite lookup_app_l by (rewrite length_insert; lia).
      apply list_lookup_insert_eq. lia.
    - unfold afterSpawn. game_simpl.
      apply list_lookup_middle. reflexivity.
    - exact Hsd. }
  destruct Hg2 as (s2 & ->).
  eexists. split.
  { unfold selectNextPiece, selectNextPiece_.
    run1 ltac:(eassumption).
    run1 ltac:(eassumption).
    run1 ltac:(reflexivity).
    apply togglePause_pauses. unfold afterSpawn. game_simpl. exact Hpaused. }
  unfold afterPause, afterSpawn. game_simpl. repeat split.
Qed.

Lemma failed_spawn_is_game_over_witness :
  exists g',
    selectNextPiece 1 blockedGame = Ok (tt, g')
    /\ isGameOver g' = true
    /\ isPaused g' = true
    /\ ticker g' = None
    /\ intervals g' = stopTimer (ticker blockedGame) (intervals blockedGame)
    /\ gamePiece g' = Some 0%nat
    /\ gameBoard g' = gameBoard blockedGame
    /\ score g' = score blockedGame.
Proof.
  eapply (failed_spawn_is_game_over 0 blockedGame 0%nat);
    [reflexivity | vm_compute; reflexivity | vm_compute; reflexivity].
Defined.

(** The claim C2 fails where it says that no piece is held: after a spawn
    that cannot move down, the game is over and still holds the piece. *)
Lemma failed_spawn_keeps_piece_counterexample :
  exists g1 g2 g',
    putNextPieceInPlay blockedGame = Ok (0%nat, g1)
    /\ isValidMove 0%nat "down" g1 = Ok (false, g2)
    /\ selectNextPiece 1 blockedGame = Ok (tt, g')
    /\ isGameOver g' = true
    /\ gamePiece g' = Some 0%nat
    /\ gamePiece g' <> None.
Proof.
  eexists. eexists. eexists.
  split; [vm_compute; reflexivity|].
  split; [vm_compute; reflexivity|].
  split; [vm_compute; reflexivity|].
  split; [reflexivity|]. split; [reflexivity|]. discriminate.
Qed.

(** ** Methods that need no fuel and keep a field *)

Lemma rbind_fuel_free {A B} (r : result A) (k : A -> result B) :
  r <> OutOfFuel -> (forall a, k a <> OutOfFuel) -> rbind r k <> OutOfFuel.
Proof. destruct r; cbn [rbind]; auto. Qed.

Lemma defined_fuel_free {A} (o : option A) : defined o <> OutOfFuel.
Proof. destruct o; discriminate. Qed.

Lemma for_up_fuel_free {St} (body : nat -> St -> result St) n :
  (forall i s, body i s <> OutOfFuel) ->
  forall i s, for_up n i body s <> OutOfFuel.
Proof.
  intros Hbody. induction n as [|n IH]; intros i s; cbn [for_up].
  - discriminate.
  - apply rbind_fuel_free; [apply Hbody|]. intros s'. apply IH.
Qed.

Lemma for_down_fuel_free {St} (body : nat -> St -> result St) n :
  (forall i s, body i s <> OutOfFuel) ->
  forall s, for_down n body s <> OutOfFuel.
Proof.
  intros Hbody. induction n as [|n IH]; intros s; cbn [for_down].
  - discriminate.
  - apply rbind_fuel_free; [apply Hbody|]. intros s'. apply IH.
Qed.

Lemma scan_up_fuel_free test n :
  (forall i, test i <> OutOfFuel) ->
  forall i, scan_up n i test <> OutOfFuel.
Proof.
  intros Htest. induction n as [|n IH]; intros i; cbn [scan_up].
  - discriminate.
  - apply rbind_fuel_free; [apply Htest|]. intros [|]; [apply IH|discriminate].
Qed.

Lemma fuel_free_bind {A B} (m : M A) (k : A -> M B) :
  fuel_free m -> (forall a, fuel_free (k a)) -> fuel_free (bind m k).
Proof.
  intros Hm Hk g. unfold bind. specialize (Hm g).
  destruct (m g) as [[a g']| |]; [apply Hk|discriminate|contradiction].
Qed.

Lemma fuel_free_ret {A} (a : A) : fuel_free (ret a).
Proof. intros g. discriminate. Qed.

Lemma fuel_free_gets {A} (f : Game -> A) : fuel_free (gets f).
Proof. intros g. discriminate. Qed.

Lemma fuel_free_modify f : fuel_free (modify f).
Proof. intros g. discriminate. Qed.

Lemma fuel_free_lift {A} (r : result A) : r <> OutOfFuel -> fuel_free (lift r).
Proof. intros Hr g. unfold lift. destruct r; [discriminate|discriminate|contradiction]. Qed.

Lemma keeps_bind {A B C} (f : Game -> C) (m : M A) (k : A -> M B) :
  keeps f m -> (forall a, keeps f (k a)) -> keeps f (bind m k).
Proof.
  intros Hm Hk g b g2 Hrun. unfold bind in Hrun.
  destruct (m g) as [[a g1]| |] eqn:Hmg; try discriminate Hrun.
  rewrite (Hk a g1 b g2 Hrun). exact (Hm g a g1 Hmg).
Qed.

Lemma keeps_ret {A C} (f : Game -> C) (a : A) : keeps f (ret a).
Proof. intros g a' g' H. injection H as _ <-. reflexivity. Qed.

Lemma keeps_gets {A C} (f : Game -> C) (h : Game -> A) : keeps f (gets h).
Proof. intros g a' g' H. injection H as _ <-. reflexivity. Qed.

Lemma keeps_modify {C} (f : Game -> C) h :
  (forall g, f (h g) = f g) -> keeps f (modify h).
Proof. intros Hh g a' g' H. injection H; intros <- _. apply Hh. Qed.

Lemma keeps_lift {A C} (f : Game -> C) (r : result A) : keeps f (lift r).
Proof.
  intros g a' g' H. unfold lift in H. destruct r; try discriminate H.
  injection H as _ <-. reflexivity.
Qed.


Ltac fuel_free_step :=
  first
    [ apply fuel_free_bind; [|intros ?]
    | apply fuel_free_ret
    | apply fuel_free_gets
    | apply fuel_free_modify
    | apply fuel_free_lift ].

Ltac keeps_step :=
  first
    [ apply keeps_bind; [|intros ?]
    | apply keeps_ret
    | apply keeps_gets
    | apply keeps_lift ].

Section StoreMethods.

Context {C : Type} (f : Game -> C).
Hypothesis f_ignores_store : ignores_store f.

Lemma keeps_getPiece l : keeps f (getPiece l).
Proof. unfold getPiece. repeat keeps_step. Qed.
Lemma keeps_getPosition l : keeps f (getPosition l).
Proof. unfold getPosition. repeat keeps_step. Qed.
Lemma keeps_getArray l : keeps f (getArray l).
Proof. unfold getArray. repeat keeps_step. Qed.
Lemma keeps_setPiece l p : keeps f (setPiece l p).
Proof. apply keeps_modify. intros g. apply f_ignores_store. Qed.
Lemma keeps_setPosition l p : keeps f (setPosition l p).
Proof. apply keeps_modify. intros g. apply f_ignores_store. Qed.
Lemma keeps_setArray l a : keeps f (setArray l a).
Proof. apply keeps_modify. intros g. apply f_ignores_store. Qed.
Lemma keeps_newPiece p : keeps f (newPiece p).
Proof. intros g a g' H. injection H as _ <-. apply f_ignores_store. Qed.
Lemma keeps_newPosition p : keeps f (newPosition p).
Proof. intros g a g' H. injection H as _ <-. apply f_ignores_store. Qed.
Lemma keeps_newArray p : keeps f (newArray p).
Proof. intros g a g' H. injection H as _ <-. apply f_ignores_store. Qed.

Lemma keeps_GamePiece key : keeps f (GamePiece key).
Proof.
  unfold GamePiece.
  apply keeps_bind; [apply keeps_newArray|intros ?].
  apply keeps_bind; [apply keeps_newPosition|intros ?].
  apply keeps_newPiece.
Qed.

Lemma keeps_computeShape l : keeps f (computeShape l).
Proof.
  unfold computeShape.
  apply keeps_bind; [apply keeps_getPiece|intros ?].
  apply keeps_bind; [apply keeps_getArray|intros ?].
  apply keeps_bind; [apply keeps_lift|intros ?].
  apply keeps_setArray.
Qed.

Lemma keeps_rotate l : keeps f (rotate l).
Proof.
  unfold rotate.
  apply keeps_bind; [apply keeps_getPiece|intros ?]. cbn zeta.
  apply keeps_bind; [apply keeps_newArray|intros ?].
  apply keeps_setPiece.
Qed.

Lemma keeps_shiftPosition l dx dy : keeps f (shiftPosition l dx dy).
Proof.
  unfold shiftPosition.
  apply keeps_bind; [apply keeps_getPiece|intros ?].
  apply keeps_bind; [apply keeps_getPosition|intros ?].
  apply keeps_setPosition.
Qed.

Lemma keeps_move l direction : keeps f (move l direction).
Proof.
  unfold move. repeat (destruct (decide _); [apply keeps_shiftPosition|]).
  apply keeps_ret.
Qed.

Lemma keeps_isValidMove l direction : keeps f (isValidMove l direction).
Proof.
  unfold isValidMove.
  apply keeps_bind; [apply keeps_GamePiece|intros ?].
  apply keeps_bind; [apply keeps_getPiece|intros ?].
  apply keeps_bind; [apply keeps_getPiece|intros ?].
  apply keeps_bind; [apply keeps_setPiece|intros ?].
  apply keeps_bind; [apply keeps_getPosition|intros ?].
  apply keeps_bind; [apply keeps_newPosition|intros ?].
  apply keeps_bind; [apply keeps_getPiece|intros ?].
  apply keeps_bind; [apply keeps_setPiece|intros ?].
  apply keeps_bind.
  { destruct (decide _); [apply keeps_rotate|].
    repeat (destruct (decide _); [apply keeps_move|]). apply keeps_ret. }
  intros ?.
  apply keeps_bind; [apply keeps_computeShape|intros ?].
  apply keeps_bind; [apply keeps_getPiece|intros ?].
  apply keeps_bind; [apply keeps_getArray|intros ?].
  apply keeps_bind; [apply keeps_getPosition|intros ?].
  apply keeps_bind; [apply keeps_gets|intros ?].
  apply keeps_lift.
Qed.

End StoreMethods.

(** * Further properties of the code *)

(** ** The board constructor *)

Lemma GameBoard_column i : forall n (pre : list (list cell)) col,
  length pre = i ->
  for_up n (length col)
    (fun j grid =>
       rbind (defined (grid !! i)) (fun col =>
         Ok (<[i := cell_set col j Zero]> grid)))
    (pre ++ [col])
  = Ok (pre ++ [col ++ replicate n Zero]).
Proof.
  induction n as [|n IH]; intros pre col Hi.
  - cbn [for_up replicate]. rewrite app_nil_r. reflexivity.
  - cbn [for_up]. subst i. rewrite lookup_snoc. cbn [defined rbind].
    rewrite insert_snoc.
    assert (Hset : cell_set col (length col) Zero = col ++ [Zero]).
    { unfold cell_set. destruct (decide _) as [Hlt|_]; [lia|].
      rewrite Nat.sub_diag. reflexivity. }
    rewrite Hset.
    specialize (IH pre (col ++ [Zero]) eq_refl).
    rewrite length_app in IH. cbn [length] in IH. rewrite Nat.add_1_r in IH.
    rewrite IH. rewrite <- app_assoc. reflexivity.
Qed.

Lemma GameBoard_columns h : forall n (pre : list (list cell)),
  for_up n (length pre)
    (fun i grid =>
       for_up h 0
         (fun j grid =>
            rbind (defined (grid !! i)) (fun col =>
              Ok (<[i := cell_set col j Zero]> grid)))
         (row_set grid i []))
    pre
  = Ok (pre ++ replicate n (replicate h Zero)).
Proof.
  induction n as [|n IH]; intros pre.
  - cbn [for_up replicate]. rewrite app_nil_r. reflexivity.
  - cbn [for_up].
    assert (Hrow : row_set pre (length pre) [] = pre ++ [[]]).
    { unfold row_set. destruct (decide _) as [Hlt|_]; [lia|reflexivity]. }
    rewrite Hrow.
    pose proof (GameBoard_column (length pre) h pre [] eq_refl) as Hcol.
    cbn [length app] in Hcol. rewrite Hcol. cbn [rbind].
    specialize (IH (pre ++ [replicate h Zero])).
    rewrite length_app in IH. cbn [length] in IH. rewrite Nat.add_1_r in IH.
    rewrite IH. rewrite <- app_assoc. reflexivity.
Qed.

Lemma GameBoard_run width height :
  GameBoard width height
  = Ok (Board.mk width height
          (replicate (Z.to_nat width) (replicate (Z.to_nat height) Zero))).
Proof.
  unfold GameBoard.
  pose proof (GameBoard_columns (Z.to_nat height) (Z.to_nat width) []) as H.
  cbn [length app] in H. rewrite H. reflexivity.
Qed.

(** X1: [new GameBoard(game, width, height)] never throws.  It builds
    [width] columns of [height] zeros each (no column for a width that is
    not positive, columns with no cell for such a height), so that for
    sizes that are not negative the board is rectangular, and every cell
    on the board is a zero and not occupied. *)
Theorem GameBoard_builds_zeros width height :
  exists b,
    GameBoard width height = Ok b
    /\ Board.width b = width
    /\ Board.height b = height
    /\ Board.gameBoard b
       = replicate (Z.to_nat width) (replicate (Z.to_nat height) Zero)
    /\ (0 <= width -> 0 <= height -> rectangular b)
    /\ forall x y,
         isOnBoard b x y = true ->
         cellAt b x y = Zero /\ isOccupied b x y = false.
Proof.
  eexists. split; [apply GameBoard_run|].
  split; [reflexivity|]. split; [reflexivity|]. split; [reflexivity|].
  split.
  - intros Hw Hh. split; cbn [Board.width Board.height Board.gameBoard].
    + rewrite length_replicate. lia.
    + apply Forall_replicate. rewrite length_replicate. lia.
  - intros x y Hon.
    assert (Hcell : cellAt
                      (Board.mk width height
                         (replicate (Z.to_nat width)
                            (replicate (Z.to_nat height) Zero))) x y = Zero).
    { apply isOnBoard_true in Hon. cbn [Board.gameBoard] in Hon.
      rewrite length_replicate in Hon. destruct Hon as [Hx Hy].
      rewrite lookup_replicate_2 in Hy by lia.
      cbn [default id] in Hy. rewrite length_replicate in Hy.
      unfold cellAt, lookupZ. cbn [Board.gameBoard].
      destruct (Z.ltb_spec x 0); [lia|].
      rewrite lookup_replicate_2 by lia. cbn [default id].
      unfold cell_get. destruct (Z.ltb_spec y 0); [lia|].
      rewrite lookup_replicate_2 by lia. reflexivity. }
    split; [exact Hcell|].
    unfold isOccupied. rewrite Hon. cbn [negb].
    fold (cellAt (Board.mk width height
                    (replicate (Z.to_nat width)
                       (replicate (Z.to_nat height) Zero))) x y).
    rewrite Hcell. reflexivity.
Qed.

(** ** The occupancy test *)

Lemma land_pow2_testbit k s :
  0 <= k -> negb (Z.land (2 ^ k) s =? 0) = Z.testbit s k.
Proof.
  intros Hk.
  assert (H : Z.land (2 ^ k) s = if Z.testbit s k then 2 ^ k else 0).
  { apply Z.bits_inj'. intros n Hn. rewrite Z.land_spec.
    rewrite Z.pow2_bits_eqb by assumption.
    destruct (Z.eqb_spec k n) as [->|Hne].
    - destruct (Z.testbit s n); [|rewrite Z.bits_0; reflexivity].
      rewrite Z.pow2_bits_true by assumption. reflexivity.
    - cbn [andb]. destruct (Z.testbit s k); [|rewrite Z.bits_0; reflexivity].
      rewrite Z.pow2_bits_false by (try assumption; lia). reflexivity. }
  rewrite H. destruct (Z.testbit s k).
  - destruct (Z.eqb_spec (2 ^ k) 0) as [E|_]; [|reflexivity].
    pose proof (Z.pow_pos_nonneg 2 k). lia.
  - reflexivity.
Qed.

(** X2: [indexContainsBlock(i, j, shape)] reads one bit of the mask: bit
    [15 - i - 4 j] for [i], [j] below 4.  A [j] from 4 on gives [false]
    ([hexValues[i][j]] is [undefined]), an [i] from 4 on throws
    ([hexValues[i]] is [undefined]). *)
Theorem indexContainsBlock_tests_one_bit i j shape :
  indexContainsBlock i j shape
  = if decide (i < 4)%nat then
      Ok (if decide (j < 4)%nat
          then Z.testbit (default 0 shape) (15 - Z.of_nat i - 4 * Z.of_nat j)
          else false)
    else Throw.
Proof.
  unfold indexContainsBlock.
  destruct i as [|[|[|[|i]]]]; cbn [hexValues lookup list_lookup defined rbind];
    try reflexivity;
    (destruct (decide _) as [_|Hn]; [|exfalso; apply Hn; lia]);
    f_equal;
    (destruct j as [|[|[|[|j]]]]; cbn [lookup list_lookup default id];
     [ | | | | destruct (decide _) as [Hlt|_]; [lia|reflexivity] ]);
    (destruct (decide _) as [_|Hn]; [|exfalso; apply Hn; lia]).
  all: match goal with
       | |- negb (Z.land ?c _ =? 0) = Z.testbit _ ?e =>
           let k := eval vm_compute in e in
           change e with k; change c with (2 ^ k);
           apply land_pow2_testbit; lia
       end.
Qed.

(** ** What isValidMove decides *)

Lemma isOccupied_on_board b x y :
  isOnBoard b x y = true -> isOccupied b x y = isGameBlock (cellAt b x y).
Proof. intros H. unfold isOccupied, cellAt. rewrite H. reflexivity. Qed.

Lemma fits_shapeMatrix b sd rot pos :
  fits b (shapeMatrix sd rot) pos = true <->
  forall i j,
    occupies sd rot i j = true ->
    isOnBoard b (Position.x pos + Z.of_nat i) (Position.y pos + Z.of_nat j) = true
    /\ isGameBlock
         (cellAt b (Position.x pos + Z.of_nat i) (Position.y pos + Z.of_nat j))
       = false.
Proof.
  unfold fits. rewrite forallb_forall. split.
  - intros H i j Hocc.
    destruct (occupies_in_range _ _ _ _ Hocc) as [Hi Hj].
    specialize (H i). rewrite forallb_forall in H.
    assert (Hin : forall k, (k < 4)%nat -> In k (seq 0 4))
      by (intros k Hk; apply in_seq; lia).
    specialize (H (Hin i Hi) j (Hin j Hj)).
    rewrite shapeMatrix_cell in H by assumption. rewrite Hocc in H.
    unfold cellFree in H. cbn [isGameBlock] in H.
    destruct (isOnBoard b _ _) eqn:Hon; [|discriminate H].
    split; [reflexivity|]. rewrite isOccupied_on_board in H by exact Hon.
    cbn [negb orb] in H. destruct (isGameBlock _); [discriminate H|reflexivity].
  - intros H i Hi. apply in_seq in Hi. rewrite forallb_forall. intros j Hj.
    apply in_seq in Hj. unfold GamePiece_height, GamePiece_width in *.
    rewrite shapeMatrix_cell by lia. unfold cellFree.
    destruct (occupies sd rot i j) eqn:Hocc; [|reflexivity].
    cbn [isGameBlock]. destruct (H i j Hocc) as [Hon Hfree].
    rewrite isOccupied_on_board by exact Hon. rewrite Hon, Hfree. reflexivity.
Qed.

(** X3: [isValidMove(gamePiece, direction)] returns, and returns [true]
    exactly when every block of the piece, in the rotation and at the
    position the move would give it, is on the board and on a cell that
    holds no block. *)
Theorem isValidMove_spec g l p pos sd direction :
  pieceAt g l = Some p ->
  positionOf g l = Some pos ->
  Piece.shapeDescription p = Some sd ->
  exists ok g',
    isValidMove l direction g = Ok (ok, g')
    /\ (ok = true <->
        forall i j,
          occupies sd (movedRotation direction (Piece.rotation p)) i j = true ->
          let X := Position.x (movedPosition direction pos) + Z.of_nat i in
          let Y := Position.y (movedPosition direction pos) + Z.of_nat j in
          isOnBoard (gameBoard g) X Y = true
          /\ isGameBlock (cellAt (gameBoard g) X Y) = false).
Proof.
  unfold positionOf, pieceAt. intros Hp Hpos Hsd.
  rewrite Hp in Hpos. cbn [mbind option_bind] in Hpos.
  eexists. eexists. split.
  - apply (isValidMove_run g l p pos sd direction Hp Hpos Hsd).
  - apply fits_shapeMatrix.
Qed.

(** ** What checkLines returns *)

Lemma scanLines_spec b n : forall j,
  (Z.to_nat (Board.width b) <= length (Board.gameBoard b))%nat ->
  exists lines,
    scanLines b j n = Ok lines
    /\ StronglySorted Z.lt lines
    /\ forall r, r ∈ lines <-> (j <= r < j + Z.of_nat n /\ rowComplete b r = true).
Proof.
  induction n as [|n IH]; intros j Hw.
  - exists []. split; [reflexivity|]. split; [constructor|].
    intros r. rewrite elem_of_nil. split; [contradiction|]. intros [? _]. lia.
  - cbn [scanLines]. rewrite lineComplete_run by exact Hw. cbn [rbind].
    fold (rowComplete b j).
    destruct (IH (j + 1) Hw) as (rest & Hrun & Hsorted & Hspec).
    rewrite Hrun. cbn [rbind].
    destruct (rowComplete b j) eqn:Hc.
    + exists (j :: rest). split; [reflexivity|]. split.
      * constructor; [exact Hsorted|]. apply Forall_forall. intros r Hr.
        apply Hspec in Hr. lia.
      * intros r. rewrite elem_of_cons, Hspec. split.
        -- intros [->|[Hr Hrc]]; [split; [lia|exact Hc]|split; [lia|exact Hrc]].
        -- intros [Hr Hrc]. destruct (Z.eq_dec r j) as [->|Hne]; [left; reflexivity|].
           right. split; [lia|exact Hrc].
    + exists rest. split; [reflexivity|]. split; [exact Hsorted|].
      intros r. rewrite Hspec. split.
      * intros [Hr Hrc]. split; [lia|exact Hrc].
      * intros [Hr Hrc]. split; [|exact Hrc].
        destruct (Z.eq_dec r j) as [->|Hne]; [congruence|lia].
Qed.

(** X4: [checkLines(gamePiece)] returns the complete rows among the four
    rows from the piece's [y] on, in ascending order and each once, and
    leaves the game as it was; on a board of width 0 every one of the
    four rows counts as complete.  [checkLines(null)] does the same over
    all rows of the board. *)
Theorem checkLines_spec g :
  (Z.to_nat (Board.width (gameBoard g))
   <= length (Board.gameBoard (gameBoard g)))%nat ->
  (forall l p pos,
     pieceAt g l = Some p ->
     positionOf g l = Some pos ->
     exists lines,
       checkLines (Some l) g = Ok (lines, g)
       /\ StronglySorted Z.lt lines
       /\ (forall r, r ∈ lines <->
                     (Position.y pos <= r < Position.y pos + 4
                      /\ rowComplete (gameBoard g) r = true))
       /\ (Board.width (gameBoard g) <= 0 ->
           lines = [Position.y pos; Position.y pos + 1;
                    Position.y pos + 2; Position.y pos + 3]))
  /\ (exists lines,
        checkLines None g = Ok (lines, g)
        /\ StronglySorted Z.lt lines
        /\ forall r, r ∈ lines <->
                     (0 <= r < Board.height (gameBoard g)
                      /\ rowComplete (gameBoard g) r = true)).
Proof.
  intros Hw. split.
  - unfold positionOf, pieceAt. intros l p pos Hp Hpos.
    rewrite Hp in Hpos. cbn [mbind option_bind] in Hpos.
    destruct (scanLines_spec (gameBoard g) GamePiece_height (Position.y pos) Hw)
      as (lines & Hrun & Hsorted & Hspec).
    exists lines. split; [apply (checkLines_run g l p pos lines); assumption|].
    split; [exact Hsorted|]. split; [exact Hspec|].
    intros Hzero. revert Hrun. unfold GamePiece_height.
    cbn [scanLines]. rewrite !lineComplete_run by exact Hw.
    replace (Z.to_nat (Board.width (gameBoard g))) with 0%nat by lia.
    cbn [seq forallb rbind]. intros Hrun. injection Hrun as <-.
    rewrite <- !Z.add_assoc. reflexivity.
  - destruct (scanLines_spec (gameBoard g)
                (Z.to_nat (Board.height (gameBoard g))) 0 Hw)
      as (lines & Hrun & Hsorted & Hspec).
    exists lines. split.
    + unfold checkLines. run1 ltac:(reflexivity). run1 ltac:(reflexivity).
      rewrite Z.sub_0_r. rewrite Hrun. reflexivity.
    + split; [exact Hsorted|]. intros r. rewrite Hspec.
      split; intros [Hr Hc]; (split; [lia|exact Hc]).
Qed.

(** ** The shape catalogue *)

(** Every shape of the catalogue, by key. *)
Lemma shapes_cases key sd :
  property shapes key = Some sd ->
  sd = shapeOf "i" \/ sd = shapeOf "j" \/ sd = shapeOf "l" \/ sd = shapeOf "o"
  \/ sd = shapeOf "s" \/ sd = shapeOf "t" \/ sd = shapeOf "z".
Proof.
  unfold shapes. cbn [property].
  repeat (destruct (decide (_ = key));
          [intros H; injection H as <-; auto 10|]).
  discriminate.
Qed.

Lemma rotation_cases rot :
  0 <= rot <= 3 -> rot = 0 \/ rot = 1 \/ rot = 2 \/ rot = 3.
Proof. lia. Qed.

(** The blocks of a catalogue shape lie in the square of its size. *)
Lemma catalogue_box key sd rot :
  property shapes key = Some sd ->
  0 <= rot <= 3 ->
  forall i j, occupies sd rot i j = true ->
              Z.of_nat i < size sd /\ Z.of_nat j < size sd.
Proof.
  intros Hkey Hrot.
  apply shapes_cases in Hkey. apply rotation_cases in Hrot.
  destruct Hkey as [->|[->|[->|[->|[->|[->| ->]]]]]];
    destruct Hrot as [->|[->|[->| ->]]];
    intros i j Hocc;
    destruct (occupies_in_range _ _ _ _ Hocc) as [Hi Hj];
    destruct i as [|[|[|[|i]]]]; try lia;
    destruct j as [|[|[|[|j]]]]; try lia;
    first [ discriminate Hocc | vm_compute; split; reflexivity ].
Qed.

(** X5: every shape of the catalogue, in each of its four rotations,
    computes to exactly four blocks, all of them inside the square of
    its [size]. *)
Theorem catalogue_shapes_are_tetrominoes key sd rot :
  property shapes key = Some sd ->
  0 <= rot <= 3 ->
  length (blocksOf (shapeMatrix sd rot)) = 4%nat
  /\ forall i j, occupies sd rot i j = true ->
                 Z.of_nat i < size sd /\ Z.of_nat j < size sd.
Proof.
  intros Hkey Hrot. split; [|exact (catalogue_box key sd rot Hkey Hrot)].
  apply shapes_cases in Hkey. apply rotation_cases in Hrot.
  destruct Hkey as [->|[->|[->|[->|[->|[->| ->]]]]]];
    destruct Hrot as [->|[->|[->| ->]]];
    vm_compute; reflexivity.
Qed.

(** ** Scoring and spawning *)

Lemma ceil_half_bounds a : 0 <= a -> 0 <= ceil_half a <= a /\ 0 <= 2 * ceil_half a - a <= 1.
Proof.
  intros Ha. unfold ceil_half.
  pose proof (Z.div_mod (a + 1) 2 ltac:(lia)) as Hdm.
  pose proof (Z.mod_pos_bound (a + 1) 2 ltac:(lia)) as Hmod.
  lia.
Qed.

(** X6: [addScore(val)] always returns; it adds [val] to the score and
    raises the level by one at most, never beyond 9 from a level in
    0..9; when the level stays, the clock is not touched; board, pieces
    and flags are never touched. *)
Theorem addScore_moves_one_level_at_most g val :
  exists g',
    addScore val g = Ok (tt, g')
    /\ score g' = num_add (score g) val
    /\ difficulty g <= difficulty g' <= difficulty g + 1
    /\ (0 <= difficulty g <= 9 -> 0 <= difficulty g' <= 9)
    /\ (difficulty g' = difficulty g ->
        ticker g' = ticker g /\ intervals g' = intervals g)
    /\ gameBoard g' = gameBoard g
    /\ store g' = store g
    /\ gamePiece g' = gamePiece g
    /\ nextPiece g' = nextPiece g
    /\ (isRunning g', isPaused g', isGameOver g')
       = (isRunning g, isPaused g, isGameOver g).
Proof.
  exists (afterScore val g). split; [apply addScore_run|].
  unfold afterScore. game_simpl.
  destruct (num_gt _ _) eqn:Hgt; cbn [andb];
    [destruct (Z.ltb_spec (difficulty g) 9)|];
    unfold afterResetTimer; game_simpl;
    repeat split; try lia; try reflexivity.
Qed.

(** X7: the piece that [selectNextPiece] puts in play is placed in row 0,
    centred ([2 x] is the free width or one more), and on a board at
    least as wide as the shape all its blocks are between the walls. *)
Theorem spawn_is_centred_inside_the_walls g l p key sd :
  nextPiece g = Some l ->
  pieceAt g l = Some p ->
  Piece.shapeDescription p = Some sd ->
  property shapes key = Some sd ->
  0 <= Piece.rotation p <= 3 ->
  size sd <= Board.width (gameBoard g) ->
  exists g1 x,
    putNextPieceInPlay g = Ok (l, g1)
    /\ gamePiece g1 = Some l
    /\ positionOf g1 l = Some (Position.mk x 0)
    /\ 0 <= 2 * x - (Board.width (gameBoard g) - size sd) <= 1
    /\ forall i j,
         occupies sd (Piece.rotation p) i j = true ->
         0 <= x + Z.of_nat i < Board.width (gameBoard g).
Proof.
  unfold pieceAt. intros Hnp Hp Hsd Hkey Hrot Hsize.
  assert (Hl := lookup_lt_Some _ _ _ Hp).
  exists (afterSpawn g l p sd),
         (ceil_half (Board.width (gameBoard g) - size sd)).
  split; [apply putNextPieceInPlay_run; assumption|].
  split; [reflexivity|].
  destruct (ceil_half_bounds (Board.width (gameBoard g) - size sd))
    as [Hx Hc]; [lia|].
  split.
  { unfold positionOf, pieceAt, afterSpawn. game_simpl.
    rewrite lookup_app_l by (rewrite length_insert; lia).
    rewrite list_lookup_insert_eq by lia. cbn [mbind option_bind Piece.position].
    apply list_lookup_middle. reflexivity. }
  split; [exact Hc|].
  intros i j Hocc.
  pose proof (catalogue_box key sd (Piece.rotation p) Hkey Hrot) as Hbox.
  destruct (Hbox i j Hocc) as [Hi _]. lia.
Qed.

(** ** The cycle of [togglePause], [reset], [start], [selectNextPiece] *)

Lemma fuel_free_getPiece l : fuel_free (getPiece l).
Proof.
  unfold getPiece. repeat fuel_free_step. apply defined_fuel_free.
Qed.

Lemma fuel_free_getPosition l : fuel_free (getPosition l).
Proof.
  unfold getPosition. repeat fuel_free_step. apply defined_fuel_free.
Qed.

Lemma fuel_free_getArray l : fuel_free (getArray l).
Proof.
  unfold getArray. repeat fuel_free_step. apply defined_fuel_free.
Qed.

Lemma fuel_free_GamePiece key : fuel_free (GamePiece key).
Proof. intros g. rewrite GamePiece_run. discriminate. Qed.

Lemma fuel_free_newPosition p : fuel_free (newPosition p).
Proof. intros g. discriminate. Qed.

Lemma fuel_free_newArray a : fuel_free (newArray a).
Proof. intros g. discriminate. Qed.

Lemma fuel_free_rotate l : fuel_free (rotate l).
Proof.
  unfold rotate.
  apply fuel_free_bind; [apply fuel_free_getPiece|intros ?]. cbn zeta.
  apply fuel_free_bind; [apply fuel_free_newArray|intros ?].
  apply fuel_free_modify.
Qed.

Lemma fuel_free_move l direction : fuel_free (move l direction).
Proof.
  assert (Hshift : forall dx dy, fuel_free (shiftPosition l dx dy)).
  { intros dx dy. unfold shiftPosition.
    apply fuel_free_bind; [apply fuel_free_getPiece|intros ?].
    apply fuel_free_bind; [apply fuel_free_getPosition|intros ?].
    apply fuel_free_modify. }
  unfold move. repeat (destruct (decide _); [apply Hshift|]).
  apply fuel_free_ret.
Qed.

Lemma indexContainsBlock_fuel_free i j shape :
  indexContainsBlock i j shape <> OutOfFuel.
Proof.
  unfold indexContainsBlock.
  apply rbind_fuel_free; [apply defined_fuel_free|discriminate].
Qed.

Lemma fuel_free_computeShape l : fuel_free (computeShape l).
Proof.
  unfold computeShape.
  apply fuel_free_bind; [apply fuel_free_getPiece|intros p].
  apply fuel_free_bind; [apply fuel_free_getArray|intros arr].
  apply fuel_free_bind; [|intros ?; apply fuel_free_modify].
  apply fuel_free_lift. apply for_up_fuel_free. intros i s.
  unfold computeShape_row. apply for_up_fuel_free. intros j s'.
  unfold computeShape_cell.
  apply rbind_fuel_free; [apply defined_fuel_free|intros d]. cbn zeta.
  apply rbind_fuel_free; [apply indexContainsBlock_fuel_free|intros b].
  apply rbind_fuel_free; [apply defined_fuel_free|intros row].
  discriminate.
Qed.

Lemma collisionFree_fuel_free b arr pos : collisionFree b arr pos <> OutOfFuel.
Proof.
  unfold collisionFree. apply scan_up_fuel_free. intros i.
  apply scan_up_fuel_free. intros j.
  apply rbind_fuel_free; [apply defined_fuel_free|intros row]. cbn zeta.
  destruct (isGameBlock _); discriminate.
Qed.

Lemma fuel_free_isValidMove l direction : fuel_free (isValidMove l direction).
Proof.
  unfold isValidMove.
  apply fuel_free_bind; [apply fuel_free_GamePiece|intros ?].
  apply fuel_free_bind; [apply fuel_free_getPiece|intros ?].
  apply fuel_free_bind; [apply fuel_free_getPiece|intros ?].
  apply fuel_free_bind; [apply fuel_free_modify|intros ?].
  apply fuel_free_bind; [apply fuel_free_getPosition|intros ?].
  apply fuel_free_bind; [apply fuel_free_newPosition|intros ?].
  apply fuel_free_bind; [apply fuel_free_getPiece|intros ?].
  apply fuel_free_bind; [apply fuel_free_modify|intros ?].
  apply fuel_free_bind.
  { destruct (decide _); [apply fuel_free_rotate|].
    repeat (destruct (decide _); [apply fuel_free_move|]).
    apply fuel_free_ret. }
  intros ?.
  apply fuel_free_bind; [apply fuel_free_computeShape|intros ?].
  apply fuel_free_bind; [apply fuel_free_getPiece|intros ?].
  apply fuel_free_bind; [apply fuel_free_getArray|intros ?].
  apply fuel_free_bind; [apply fuel_free_getPosition|intros ?].
  apply fuel_free_bind; [apply fuel_free_gets|intros ?].
  apply fuel_free_lift. apply collisionFree_fuel_free.
Qed.

Lemma fuel_free_getRandomPiece : fuel_free getRandomPiece.
Proof.
  unfold getRandomPiece.
  apply fuel_free_bind; [apply fuel_free_gets|intros ?].
  apply fuel_free_bind; [apply fuel_free_modify|intros ?].
  apply fuel_free_GamePiece.
Qed.

Lemma fuel_free_putNextPieceInPlay : fuel_free putNextPieceInPlay.
Proof.
  unfold putNextPieceInPlay.
  apply fuel_free_bind; [apply fuel_free_gets|intros ?].
  apply fuel_free_bind; [apply fuel_free_modify|intros ?].
  apply fuel_free_bind; [apply fuel_free_lift, defined_fuel_free|intros ?].
  apply fuel_free_bind; [apply fuel_free_getPiece|intros ?].
  apply fuel_free_bind; [apply fuel_free_lift, defined_fuel_free|intros ?].
  apply fuel_free_bind; [apply fuel_free_gets|intros ?].
  apply fuel_free_bind; [apply fuel_free_newPosition|intros ?].
  apply fuel_free_bind; [apply fuel_free_modify|intros ?].
  apply fuel_free_bind; [apply fuel_free_getRandomPiece|intros ?].
  apply fuel_free_bind; [apply fuel_free_modify|intros ?].
  apply fuel_free_ret.
Qed.

Lemma keeps_isPaused_putNextPieceInPlay : keeps isPaused putNextPieceInPlay.
Proof.
  assert (Hs : ignores_store isPaused) by (intros s g; reflexivity).
  unfold putNextPieceInPlay.
  apply keeps_bind; [apply keeps_gets|intros ?].
  apply keeps_bind; [apply keeps_modify; reflexivity|intros ?].
  apply keeps_bind; [apply keeps_lift|intros ?].
  apply keeps_bind; [apply keeps_getPiece|intros ?].
  apply keeps_bind; [apply keeps_lift|intros ?].
  apply keeps_bind; [apply keeps_gets|intros ?].
  apply keeps_bind; [apply keeps_newPosition, Hs|intros ?].
  apply keeps_bind; [apply keeps_setPiece, Hs|intros ?].
  apply keeps_bind.
  { unfold getRandomPiece.
    apply keeps_bind; [apply keeps_gets|intros ?].
    apply keeps_bind; [apply keeps_modify; reflexivity|intros ?].
    apply keeps_GamePiece, Hs. }
  intros ?.
  apply keeps_bind; [apply keeps_modify; reflexivity|intros ?].
  apply keeps_ret.
Qed.

(** [selectNextPiece] throws, returns, or hands over to [togglePause] in a
    state that is paused exactly when the game was. *)
Lemma selectNextPiece_cases g :
  (forall tp, selectNextPiece_ tp g = Throw)
  \/ (exists g', forall tp, selectNextPiece_ tp g = Ok (tt, g'))
  \/ (exists g', isPaused g' = isPaused g
        /\ forall tp, selectNextPiece_ tp g = tp g').
Proof.
  unfold selectNextPiece_.
  pose proof (fuel_free_putNextPieceInPlay g) as Hfree.
  pose proof (keeps_isPaused_putNextPieceInPlay g) as Hkeep.
  destruct (putNextPieceInPlay g) as [[l g1]| |] eqn:Hspawn;
    [|left; intros tp; unfold bind; rewrite Hspawn; reflexivity
     |contradiction].
  specialize (Hkeep l g1 eq_refl).
  pose proof (fuel_free_isValidMove l "down" g1) as Hfree'.
  pose proof (keeps_isValidMove isPaused (fun s g => eq_refl) l "down" g1)
    as Hkeep'.
  destruct (isValidMove l "down" g1) as [[ok g2]| |] eqn:Hcheck;
    [|left; intros tp; unfold bind; rewrite Hspawn, Hcheck; reflexivity
     |contradiction].
  specialize (Hkeep' ok g2 eq_refl).
  destruct ok.
  - right. left. exists g2. intros tp. unfold bind.
    rewrite Hspawn, Hcheck. reflexivity.
  - right. right. exists (set_isGameOver true g2). split.
    + cbn. congruence.
    + intros tp. unfold bind. rewrite Hspawn, Hcheck. reflexivity.
Qed.

Lemma reset_run (k : M unit) g : reset_ k g = k (freshGame g).
Proof.
  unfold reset_.
  do 9 run1 ltac:(reflexivity).
  run1 ltac:(apply lift_run, GameBoard_run).
  do 3 run1 ltac:(reflexivity).
  run1 ltac:(rewrite getRandomPiece_run, GamePiece_run; reflexivity).
  run1 ltac:(reflexivity).
  f_equal. unfold freshGame. destruct g as [? ? ? ? [t|] ? ? ? ? ? ? ? ? ? ?];
    reflexivity.
Qed.

Lemma start_run (k : M unit) g :
  start_ k g =
  if isRunning g then Ok (tt, g)
  else match k g with
       | Ok (_, g') => Ok (tt, afterStart g')
       | Throw => Throw
       | OutOfFuel => OutOfFuel
       end.
Proof.
  unfold start_. run1 ltac:(reflexivity).
  destruct (isRunning g); [reflexivity|]. cbn [negb].
  unfold bind at 1. destruct (k g) as [[[] g']| |]; [|reflexivity..].
  destruct g' as [? ? ? ? [t|] ? ? ? ? ? ? ? ? ? ?]; reflexivity.
Qed.

(** What [togglePause] does, by cases on the two flags it reads. *)
Lemma togglePause_run (reset : M unit) g :
  togglePause_ reset g =
  if isPaused g then
    if isGameOver g then reset g else Ok (tt, afterResume g)
  else Ok (tt, afterPause g).
Proof.
  unfold togglePause_. run1 ltac:(reflexivity).
  destruct (isPaused g); cbn [negb].
  - run1 ltac:(reflexivity). destruct (isGameOver g); reflexivity.
  - destruct g as [? ? ? ? [t|] ? ? ? ? ? ? ? ? ? ?]; reflexivity.
Qed.

Lemma bind_ext {A B} (m : M A) (k1 k2 : A -> M B) g :
  (forall a g', k1 a g' = k2 a g') -> bind m k1 g = bind m k2 g.
Proof.
  intros Hk. unfold bind. destruct (m g) as [[a g']| |]; auto.
Qed.

Lemma bind_assoc {A B C} (m : M A) (k : A -> M B) (h : B -> M C) g :
  bind (bind m k) h g = bind m (fun a => bind (k a) h) g.
Proof. unfold bind. destruct (m g) as [[a g']| |]; reflexivity. Qed.

(** [bakePiece] does all its work on the board before it calls
    [selectNextPiece]. *)
Lemma bakePiece_then_select sel l g :
  bakePiece_ sel (Some l) g
  = bind (bakePiece_ (ret tt) (Some l)) (fun _ => sel) g.
Proof.
  unfold bakePiece_.
  repeat (rewrite bind_assoc; apply bind_ext; intros ? ?).
  reflexivity.
Qed.

Lemma bakeCells_fuel_free pos arr b : bakeCells pos arr b <> OutOfFuel.
Proof.
  unfold bakeCells. apply for_up_fuel_free. intros i s.
  apply for_up_fuel_free. intros j s'. unfold bakeCell. cbn zeta.
  destruct (isOnBoard _ _ _); [|discriminate].
  apply rbind_fuel_free; [apply defined_fuel_free|intros row].
  destruct (isGameBlock _); [|discriminate].
  apply rbind_fuel_free; [apply defined_fuel_free|intros col].
  discriminate.
Qed.

Lemma scanLines_fuel_free b n : forall j, scanLines b j n <> OutOfFuel.
Proof.
  induction n as [|n IH]; intros j; cbn [scanLines]; [discriminate|].
  apply rbind_fuel_free.
  - unfold lineComplete. apply scan_up_fuel_free. intros i.
    apply rbind_fuel_free; [apply defined_fuel_free|discriminate].
  - intros c. apply rbind_fuel_free; [apply IH|discriminate].
Qed.

Lemma fuel_free_checkLines p : fuel_free (checkLines p).
Proof.
  unfold checkLines.
  apply fuel_free_bind; [apply fuel_free_gets|intros b].
  apply fuel_free_bind.
  - destruct p; [|apply fuel_free_ret].
    apply fuel_free_bind; [apply fuel_free_getPiece|intros ?].
    apply fuel_free_bind; [apply fuel_free_getPosition|intros ?].
    apply fuel_free_ret.
  - intros range. apply fuel_free_lift, scanLines_fuel_free.
Qed.

Lemma collapseRows_fuel_free width lines :
  forall grid, collapseRows width lines grid <> OutOfFuel.
Proof.
  induction lines as [|r lines IH]; intros grid; cbn [collapseRows];
    [discriminate|].
  apply rbind_fuel_free; [|apply IH].
  unfold collapseRow. apply for_down_fuel_free. intros j s.
  apply for_up_fuel_free. intros k s'. unfold shiftCell.
  apply rbind_fuel_free; [apply defined_fuel_free|discriminate].
Qed.

Lemma fuel_free_clearLines lines : fuel_free (clearLines lines).
Proof.
  unfold clearLines. destruct (_ <? _)%nat; [|apply fuel_free_ret].
  cbn zeta.
  apply fuel_free_bind; [apply fuel_free_gets|intros d].
  apply fuel_free_bind.
  { intros g. rewrite addScore_run. discriminate. }
  intros [].
  apply fuel_free_bind; [apply fuel_free_gets|intros b].
  apply fuel_free_bind; [apply fuel_free_lift, collapseRows_fuel_free|].
  intros grid. apply fuel_free_modify.
Qed.

Lemma fuel_free_bake l : fuel_free (bakePiece_ (ret tt) (Some l)).
Proof.
  unfold bakePiece_.
  apply fuel_free_bind; [apply fuel_free_gets|intros ?].
  apply fuel_free_bind; [apply fuel_free_lift, defined_fuel_free|intros ?].
  apply fuel_free_bind; [apply fuel_free_getPiece|intros ?].
  apply fuel_free_bind; [apply fuel_free_getPosition|intros ?].
  apply fuel_free_bind; [apply fuel_free_getArray|intros ?].
  apply fuel_free_bind; [apply fuel_free_gets|intros ?].
  apply fuel_free_bind; [apply fuel_free_lift, bakeCells_fuel_free|intros ?].
  apply fuel_free_bind; [apply fuel_free_modify|intros ?].
  apply fuel_free_bind; [apply fuel_free_checkLines|intros ?].
  apply fuel_free_bind; [apply fuel_free_clearLines|intros ?].
  apply fuel_free_ret.
Qed.

(** A game that is not paused never goes round the cycle: a failing spawn
    only pauses it. *)
Lemma selectNextPiece_unpaused n g :
  isPaused g = false ->
  selectNextPiece (S n) g = selectNextPiece 1 g
  /\ selectNextPiece 1 g <> OutOfFuel.
Proof.
  intros Hpaused. unfold selectNextPiece.
  destruct (selectNextPiece_cases g)
    as [Hthrow|[(g' & Hok)|(g' & Hp & Hover)]].
  - rewrite !Hthrow. split; [reflexivity|discriminate].
  - rewrite !Hok. split; [reflexivity|discriminate].
  - rewrite !Hover.
    rewrite !togglePause_pauses by congruence.
    split; [reflexivity|discriminate].
Qed.

Lemma togglePause_settles n g :
  togglePause (S (S n)) g = togglePause 2 g /\ togglePause 2 g <> OutOfFuel.
Proof.
  change (togglePause (S (S n)))
    with (togglePause_ (reset_ (start_ (selectNextPiece (S n))))).
  change (togglePause 2)
    with (togglePause_ (reset_ (start_ (selectNextPiece 1)))).
  rewrite !togglePause_run.
  destruct (isPaused g); [|split; [reflexivity|discriminate]].
  destruct (isGameOver g); [|split; [reflexivity|discriminate]].
  rewrite !reset_run, !start_run.
  change (isRunning (freshGame g)) with false. cbv iota.
  destruct (selectNextPiece_unpaused n (freshGame g) eq_refl) as [-> Hfree].
  split; [reflexivity|].
  destruct (selectNextPiece 1 (freshGame g)) as [[[] g']| |];
    [discriminate|discriminate|contradiction].
Qed.

Lemma selectNextPiece_settles n g :
  selectNextPiece (S (S n)) g = selectNextPiece 2 g
  /\ selectNextPiece 2 g <> OutOfFuel.
Proof.
  unfold selectNextPiece.
  destruct (selectNextPiece_cases g)
    as [Hthrow|[(g' & Hok)|(g' & Hp & Hover)]].
  - rewrite !Hthrow. split; [reflexivity|discriminate].
  - rewrite !Hok. split; [reflexivity|discriminate].
  - rewrite !Hover. apply togglePause_settles.
Qed.

Lemma start_settles n g :
  start (S (S n)) g = start 2 g /\ start 2 g <> OutOfFuel.
Proof.
  unfold start. rewrite !start_run.
  destruct (isRunning g); [split; [reflexivity|discriminate]|].
  destruct (selectNextPiece_settles n g) as [-> Hfree].
  split; [reflexivity|].
  destruct (selectNextPiece 2 g) as [[[] g']| |];
    [discriminate|discriminate|contradiction].
Qed.

(** X8: The cycle selectNextPiece, togglePause, reset, start always comes to
    an end: two unfoldings of [togglePause] give every method its final
    result, which is a return or an exception. *)
Theorem two_unfoldings_settle_the_cycle n g :
  (togglePause (2 + n) g = togglePause 2 g /\ togglePause 2 g <> OutOfFuel)
  /\ (selectNextPiece (2 + n) g = selectNextPiece 2 g
      /\ selectNextPiece 2 g <> OutOfFuel)
  /\ (start (2 + n) g = start 2 g /\ start 2 g <> OutOfFuel)
  /\ (reset (2 + n) g = reset 2 g /\ reset 2 g <> OutOfFuel)
  /\ (forall p, bakePiece (2 + n) p g = bakePiece 2 p g
                /\ bakePiece 2 p g <> OutOfFuel).
Proof.
  split; [apply togglePause_settles|].
  split; [apply selectNextPiece_settles|].
  split; [apply start_settles|].
  split.
  - unfold reset. rewrite !reset_run. apply start_settles.
  - intros [l|]; unfold bakePiece; cycle 1.
    { assert (Hnone : forall sel, bakePiece_ sel None g = Ok (tt, g))
        by reflexivity.
      rewrite !Hnone. split; [reflexivity|discriminate]. }
    rewrite !bakePiece_then_select. unfold bind.
    pose proof (fuel_free_bake l g) as Hfree.
    destruct (bakePiece_ (ret tt) (Some l) g) as [[[] g']| |];
      [apply selectNextPiece_settles|split; [reflexivity|discriminate]
      |contradiction].
Qed.

(** ** A new game *)

Lemma random_key_in_catalogue (r : nat) :
  exists sd,
    property shapes
      (default "undefined"%string
         (keys shapes !! (r mod length (keys shapes))%nat)) = Some sd.
Proof.
  assert (Hlt : (r mod length (keys shapes) < 7)%nat).
  { apply Nat.mod_upper_bound. discriminate. }
  destruct (r mod length (keys shapes))%nat as [|[|[|[|[|[|[|k]]]]]]];
    [eexists; reflexivity..|lia].
Qed.

(** A piece of the catalogue in rotation 0 fits one row below its spawn
    position on a board of zeros that is at least 4 wide and 5 high. *)
Lemma spawn_fits_empty_board w h key sd rot :
  property shapes key = Some sd ->
  0 <= rot <= 3 ->
  4 <= w -> 5 <= h ->
  fits (Board.mk w h (replicate (Z.to_nat w) (replicate (Z.to_nat h) Zero)))
    (shapeMatrix sd rot)
    (Position.mk (ceil_half (w - size sd)) 1) = true.
Proof.
  intros Hkey Hrot Hw Hh. apply fits_shapeMatrix. intros i j Hocc.
  pose proof (catalogue_box key sd rot Hkey Hrot) as Hbox.
  destruct (Hbox i j Hocc) as [Hi Hj].
  assert (Hsize : 2 <= size sd <= 4).
  { destruct (shapes_cases key sd Hkey) as [->|[->|[->|[->|[->|[->| ->]]]]]];
      cbv; split; intros H; discriminate H. }
  destruct (ceil_half_bounds (w - size sd)) as [Hx Hx']; [lia|].
  cbn [Position.x Position.y].
  set (X := ceil_half (w - size sd) + Z.of_nat i).
  set (Y := 1 + Z.of_nat j).
  assert (HX : 0 <= X < w) by (unfold X; lia).
  assert (HY : 0 <= Y < h) by (unfold Y; lia).
  assert (Hcol : replicate (Z.to_nat w) (replicate (Z.to_nat h) Zero)
                   !! Z.to_nat X = Some (replicate (Z.to_nat h) Zero)).
  { apply lookup_replicate_2. lia. }
  split.
  - unfold isOnBoard. cbn [Board.gameBoard].
    rewrite length_replicate.
    assert (H0 : replicate (Z.to_nat w) (replicate (Z.to_nat h) Zero) !! 0%nat
                 = Some (replicate (Z.to_nat h) Zero)).
    { apply lookup_replicate_2. lia. }
    rewrite H0. cbn [default id]. rewrite length_replicate.
    repeat (apply andb_true_intro; split);
      first [apply Z.geb_le|apply Z.ltb_lt]; lia.
  - unfold cellAt, lookupZ. cbn [Board.gameBoard].
    destruct (Z.ltb_spec X 0); [lia|]. rewrite Hcol. cbn [default id].
    unfold cell_get. destruct (Z.ltb_spec Y 0); [lia|].
    rewrite lookup_replicate_2 by lia. reflexivity.
Qed.

(** X9: [reset()] always returns, whatever the game was: with score 0 at
    level 0 on a board of zeros of the configured size, a piece of the
    catalogue in play at the top centre, the old clock stopped and one
    new clock of 1000 ms.  The new game is over (and paused) exactly when
    that piece does not fit one row down, which cannot happen on a board
    at least 4 wide and 5 high. *)
Theorem reset_starts_a_new_game n g :
  exists g' p key sd,
    reset (2 + n) g = Ok (tt, g')
    /\ score g' = Some 0
    /\ difficulty g' = 0
    /\ isRunning g' = true
    /\ gameBoard g'
       = Board.mk (boardWidth g) (boardHeight g)
           (replicate (Z.to_nat (boardWidth g))
              (replicate (Z.to_nat (boardHeight g)) Zero))
    /\ gamePiece g' = Some (length (pieces (store g)))
    /\ nextPiece g' = Some (S (length (pieces (store g))))
    /\ pieceAt g' (length (pieces (store g))) = Some p
    /\ property shapes key = Some sd
    /\ Piece.shapeDescription p = Some sd
    /\ Piece.rotation p = 0
    /\ positionOf g' (length (pieces (store g)))
       = Some (Position.mk (ceil_half (boardWidth g - size sd)) 0)
    /\ ticker g' = Some (S (handles g))
    /\ intervals g'
       = (S (handles g), Some 1000) :: stopTimer (ticker g) (intervals g)
    /\ isPaused g' = isGameOver g'
    /\ isGameOver g'
       = negb (fits (gameBoard g') (shapeMatrix sd 0)
                 (Position.mk (ceil_half (boardWidth g - size sd)) 1))
    /\ (4 <= boardWidth g -> 5 <= boardHeight g -> isGameOver g' = false).
Proof.
  set (l := length (pieces (store g))).
  set (key := default "undefined"%string
                (keys shapes !! (randoms g O mod length (keys shapes))%nat)).
  destruct (random_key_in_catalogue (randoms g O)) as [sd Hsd].
  fold key in Hsd.
  set (p0 := Piece.mk (Some sd) 0 (length (arrays (store g)))
               (length (positions (store g)))).
  assert (Hspawn : putNextPieceInPlay (freshGame g)
                   = Ok (l, afterSpawn (freshGame g) l p0 sd)).
  { apply putNextPieceInPlay_run; [reflexivity| |reflexivity].
    unfold freshGame. game_simpl. fold key. rewrite Hsd. apply lookup_snoc. }
  set (g1 := afterSpawn (freshGame g) l p0 sd) in *.
  set (pos := Position.mk (ceil_half (boardWidth g - size sd)) 0).
  set (p1 := Piece.mk (Some sd) 0 (length (arrays (store g)))
               (S (length (positions (store g))))).
  assert (Hp1 : pieces (store g1) !! l = Some p1).
  { unfold g1, afterSpawn, freshGame, l, p0, p1. game_simpl.
    rewrite insert_snoc, length_app. cbn [length].
    rewrite lookup_app_l by (rewrite length_app; cbn [length]; lia).
    replace (length (positions (store g)) + 1)%nat
      with (S (length (positions (store g)))) by lia.
    apply lookup_snoc. }
  assert (Hpos1 : positions (store g1) !! Piece.position p1 = Some pos).
  { unfold g1, afterSpawn, freshGame, l, p0, p1, pos. game_simpl.
    rewrite lookup_app_r by (rewrite length_app; cbn [length]; lia).
    rewrite length_app. cbn [length].
    replace (S (length (positions (store g)))
             - (length (positions (store g)) + 1))%nat with 0%nat by lia.
    reflexivity. }
  pose proof (isValidMove_run g1 l p1 pos sd "down" Hp1 Hpos1 eq_refl)
    as Hcheck.
  change (movedRotation "down" (Piece.rotation p1)) with 0 in Hcheck.
  change (movedPosition "down" pos)
    with (Position.mk (ceil_half (boardWidth g - size sd)) (0 + 1)) in Hcheck.
  change (0 + 1) with 1 in Hcheck.
  set (g2 := set_store _ g1) in Hcheck.
  set (ok := fits (gameBoard g1) (shapeMatrix sd 0)
               (Position.mk (ceil_half (boardWidth g - size sd)) 1)) in *.
  assert (Hselect : selectNextPiece 2 (freshGame g)
            = if ok then Ok (tt, g2)
              else Ok (tt, afterPause (set_isGameOver true g2))).
  { unfold selectNextPiece, selectNextPiece_.
    run1 ltac:(exact Hspawn). run1 ltac:(exact Hcheck).
    destruct ok; [reflexivity|].
    run1 ltac:(reflexivity). apply togglePause_pauses. reflexivity. }
  assert (Hrun : reset (2 + n) g
            = Ok (tt, afterStart (if ok then g2
                                  else afterPause (set_isGameOver true g2)))).
  { change (2 + n)%nat with (S (S n)). unfold reset. rewrite reset_run.
    destruct (start_settles n (freshGame g)) as [-> _].
    unfold start. rewrite start_run.
    change (isRunning (freshGame g)) with false. cbv iota.
    rewrite Hselect. destruct ok; reflexivity. }
  assert (Hp2 : pieces (store g2) !! l = Some p1).
  { unfold g2. game_simpl. unfold probeStore. game_simpl.
    apply lookup_app_l_Some. exact Hp1. }
  assert (Hpos2 : positions (store g2) !! Piece.position p1 = Some pos).
  { unfold g2. game_simpl. unfold probeStore. game_simpl.
    apply lookup_app_l_Some. exact Hpos1. }
  assert (Hnext : nextPiece g2 = Some (S l)).
  { unfold g2, g1, afterSpawn, freshGame. game_simpl.
    rewrite length_app. cbn [length]. f_equal. unfold l. lia. }
  assert (Hboard : gameBoard g1
            = Board.mk (boardWidth g) (boardHeight g)
                (replicate (Z.to_nat (boardWidth g))
                   (replicate (Z.to_nat (boardHeight g)) Zero)))
    by reflexivity.
  set (g3 := if ok then g2 else afterPause (set_isGameOver true g2)) in *.
  assert (Hg3 : store g3 = store g2
                /\ nextPiece g3 = nextPiece g2
                /\ score g3 = Some 0 /\ difficulty g3 = 0
                /\ gameBoard g3 = gameBoard g1
                /\ gamePiece g3 = Some l
                /\ handles g3 = handles g
                /\ stopTimer (ticker g3) (intervals g3)
                   = stopTimer (ticker g) (intervals g)
                /\ isPaused g3 = negb ok
                /\ isGameOver g3 = negb ok).
  { unfold g3. destruct ok;
      unfold afterPause, g2, g1, afterSpawn, freshGame; game_simpl;
      repeat split; reflexivity. }
  destruct Hg3 as (Hst & Hn & Hs & Hd & Hb & Hgp & Hh & Ht & Hpa & Hov).
  exists (afterStart g3), p1, key, sd.
  split; [exact Hrun|].
  unfold pieceAt, positionOf, pieceAt.
  unfold afterStart, afterResetTimer. game_simpl.
  rewrite Hst, Hn, Hs, Hd, Hb, Hgp, Hh, Ht, Hpa, Hov, Hp2, Hnext, Hboard.
  do 7 (split; [reflexivity|]).
  split; [exact Hsd|].
  do 2 (split; [reflexivity|]).
  split; [exact Hpos2|].
  do 3 (split; [reflexivity|]).
  split; [rewrite <- Hboard; reflexivity|].
  intros Hw Hh'. unfold ok. rewrite Hboard.
  rewrite (spawn_fits_empty_board _ _ key sd 0 Hsd) by lia.
  reflexivity.
Qed.

(** ** Keys and ticks *)

Lemma resume_after_pause g :
  isPaused g = false -> afterResume (afterPause g) = afterResetTimer g.
Proof.
  intros Hp. unfold afterResume, afterPause, afterResetTimer.
  destruct g. cbn in Hp. subst. reflexivity.
Qed.

(** X10: Pausing a game that is neither paused nor over stops its clock, and
    resuming it gives the state [resetTimer()] would have given: the same
    game with one new clock in place of the old one. *)
Theorem pause_then_resume_restarts_the_clock f1 f2 g :
  isPaused g = false ->
  isGameOver g = false ->
  exists g1,
    togglePause (S f1) g = Ok (tt, g1)
    /\ isPaused g1 = true
    /\ ticker g1 = None
    /\ (forall h d, ticker g = Some h -> (h, d) ∉ intervals g1)
    /\ togglePause (S f2) g1 = resetTimer g.
Proof.
  intros Hp Hover. exists (afterPause g).
  split; [apply togglePause_pauses; exact Hp|].
  split; [reflexivity|]. split; [reflexivity|]. split.
  - intros h d Hh Hin. unfold afterPause in Hin.
    cbn [intervals set_isPaused set_ticker set_timers] in Hin.
    rewrite Hh in Hin. cbn [stopTimer] in Hin.
    apply list_elem_of_filter in Hin as [Hne _]. apply Hne. reflexivity.
  - cbn [togglePause]. rewrite togglePause_run.
    change (isPaused (afterPause g)) with true.
    change (isGameOver (afterPause g)) with (isGameOver g).
    rewrite Hover, resetTimer_run, resume_after_pause by exact Hp.
    reflexivity.
Qed.

(** X11: A key other than the five of the game does nothing, and while the
    game is paused only the space bar does anything. *)
Theorem keys_that_do_nothing start tp bake keyCode g :
  keyCode <> 32 ->
  isPaused g = true \/ keyCode ∉ [37; 38; 39; 40] ->
  handleInput_ start tp bake keyCode g = Ok (tt, g).
Proof.
  intros Hspace Hcase. unfold handleInput_, steer.
  repeat (destruct (decide _) as [->|?]);
    try contradiction; try reflexivity;
    (destruct Hcase as [Hp|Hkey];
     [run1 ltac:(reflexivity); rewrite Hp; reflexivity
     |exfalso; apply Hkey; repeat constructor]).
Qed.

(** The store once [isValidMove] has probed a move keeps every object
    that was there. *)
Lemma probeStore_pieces s sd rot pos direction (l : nat) p :
  pieces s !! l = Some p ->
  pieces (probeStore s sd rot pos direction) !! l = Some p.
Proof. intros H. unfold probeStore. game_simpl. apply lookup_app_l_Some, H. Qed.

Lemma probeStore_positions s sd rot pos direction (l : nat) q :
  positions s !! l = Some q ->
  positions (probeStore s sd rot pos direction) !! l = Some q.
Proof. intros H. unfold probeStore. game_simpl. apply lookup_app_l_Some, H. Qed.

Lemma probeStore_arrays s sd rot pos direction (l : nat) a :
  arrays s !! l = Some a ->
  arrays (probeStore s sd rot pos direction) !! l = Some a.
Proof. intros H. unfold probeStore. game_simpl. apply lookup_app_l_Some, H. Qed.

Lemma withGamePiece_run method g l :
  gamePiece g = Some l -> withGamePiece method g = method l g.
Proof.
  intros Hgp. unfold withGamePiece.
  run1 ltac:(reflexivity). rewrite Hgp. reflexivity.
Qed.

(** One of the keys that steer the piece, on a game that is not paused:
    the move is made when [isValidMove] accepts it and dropped when not. *)
Lemma steer_run direction method g l p pos sd :
  isPaused g = false ->
  gamePiece g = Some l ->
  pieces (store g) !! l = Some p ->
  positions (store g) !! Piece.position p = Some pos ->
  Piece.shapeDescription p = Some sd ->
  let g1 :=
    set_store (probeStore (store g) sd (Piece.rotation p) pos direction) g in
  steer direction method g
  = if fits (gameBoard g)
         (shapeMatrix sd (movedRotation direction (Piece.rotation p)))
         (movedPosition direction pos)
    then method l g1 else Ok (tt, g1).
Proof.
  intros Hpaused Hgp Hp Hpos Hsd g1. unfold steer.
  run1 ltac:(reflexivity). rewrite Hpaused. cbn [negb].
  run1 ltac:(reflexivity). rewrite Hgp.
  run1 ltac:(eapply isValidMove_run; eassumption).
  fold g1. destruct (fits _ _ _); [|reflexivity].
  apply withGamePiece_run. exact Hgp.
Qed.

(** X12: The three keys that steer the piece (up rotates, left and right
    shift) only ever change the piece in play, and never put it on a
    block or off the board: the piece takes the new placement when every
    block of it is then on a free cell of the board, and keeps its
    placement when not. *)
Theorem steering_keeps_the_piece_on_free_cells
    start tp bake keyCode direction g l p pos sd :
  (keyCode, direction)
    ∈ [(38, "rotate"%string); (37, "left"%string); (39, "right"%string)] ->
  isPaused g = false ->
  gamePiece g = Some l ->
  pieceAt g l = Some p ->
  positionOf g l = Some pos ->
  Piece.shapeDescription p = Some sd ->
  let rot' := movedRotation direction (Piece.rotation p) in
  let pos' := movedPosition direction pos in
  let accepted := fits (gameBoard g) (shapeMatrix sd rot') pos' in
  exists s' p',
    handleInput_ start tp bake keyCode g = Ok (tt, set_store s' g)
    /\ pieces s' !! l = Some p'
    /\ Piece.shapeDescription p' = Some sd
    /\ Piece.rotation p' = (if accepted then rot' else Piece.rotation p)
    /\ positions s' !! Piece.position p'
       = Some (if accepted then pos' else pos)
    /\ (fits (gameBoard g) (shapeMatrix sd (Piece.rotation p)) pos = true ->
        fits (gameBoard g) (shapeMatrix sd (Piece.rotation p'))
          (if accepted then pos' else pos) = true).
Proof.
  intros Hkey Hpaused Hgp Hp Hpos Hsd rot' pos' accepted.
  unfold positionOf in Hpos. rewrite Hp in Hpos. cbn [mbind option_bind] in Hpos.
  unfold pieceAt in Hp.
  pose proof (probeStore_pieces (store g) sd (Piece.rotation p) pos direction
                l p Hp) as Hp1.
  pose proof (probeStore_positions (store g) sd (Piece.rotation p) pos
                direction _ pos Hpos) as Hpos1.
  set (g1 := set_store
               (probeStore (store g) sd (Piece.rotation p) pos direction) g).
  assert (Hsteer : forall method,
            steer direction method g
            = if accepted then method l g1 else Ok (tt, g1)).
  { intros method. apply steer_run; assumption. }
  assert (Hrun : handleInput_ start tp bake keyCode g
                 = if accepted
                   then (if decide (direction = "rotate"%string)
                         then rotate l g1 else move l direction g1)
                   else Ok (tt, g1)).
  { unfold handleInput_.
    repeat (apply elem_of_cons in Hkey as [Hkey|Hkey];
            [injection Hkey as -> ->; cbn [decide]; apply Hsteer|]).
    apply elem_of_nil in Hkey. contradiction. }
  rewrite Hrun. clear Hrun Hsteer. subst accepted rot' pos'.
  destruct (fits (gameBoard g) _ (movedPosition direction pos)) eqn:Hfit.
  - destruct (decide (direction = "rotate"%string)) as [->|Hdir].
    + rewrite (rotate_run g1 l p Hp1). unfold g1. game_simpl.
      eexists _, _. split; [reflexivity|]. game_simpl.
      split.
      { apply list_lookup_insert_eq.
        apply lookup_lt_Some in Hp1. exact Hp1. }
      split; [exact Hsd|]. split; [reflexivity|]. split.
      * exact Hpos1.
      * intros _. exact Hfit.
    + rewrite (move_run g1 l p pos direction Hp1 Hpos1 Hdir).
      unfold g1. game_simpl.
      eexists _, p. split; [reflexivity|]. game_simpl.
      split; [exact Hp1|]. split; [exact Hsd|]. split.
      { unfold movedRotation.
        destruct (decide _); [contradiction|reflexivity]. }
      split.
      * apply list_lookup_insert_eq.
        apply lookup_lt_Some in Hpos1. exact Hpos1.
      * intros _. unfold movedRotation in Hfit.
        destruct (decide _); [contradiction|exact Hfit].
  - exists (probeStore (store g) sd (Piece.rotation p) pos direction), p.
    split; [reflexivity|]. split; [exact Hp1|]. split; [exact Hsd|].
    split; [reflexivity|]. split; [exact Hpos1|]. auto.
Qed.

(** X13: While the game is not paused the down key does what a tick of the
    clock does. *)
Theorem down_key_is_a_tick start tp bake g :
  (forall g', bake None g' = Ok (tt, g')) ->
  isPaused g = false ->
  handleInput_ start tp bake 40 g = gameTick_ bake g.
Proof.
  intros Hbake Hpaused. unfold handleInput_, gameTick_.
  repeat (destruct (decide (40 = _)) as [Heq|_]; [discriminate Heq|]).
  destruct (decide (40 = 40)) as [_|Hne]; [|contradiction].
  unfold bind, gets, ret. rewrite Hpaused. cbn [negb].
  destruct (gamePiece g) as [l|] eqn:Hgp; [reflexivity|].
  rewrite Hgp. apply Hbake.
Qed.

(** X14: A tick moves a piece that can go down by exactly one row and touches
    nothing else; a piece that cannot go down is handed to [bakePiece] on
    the board as it is. *)
Theorem tick_drops_or_bakes bake g l p pos arr sd :
  gamePiece g = Some l ->
  pieceAt g l = Some p ->
  positionOf g l = Some pos ->
  occupancy g l = Some arr ->
  Piece.shapeDescription p = Some sd ->
  let below := Position.mk (Position.x pos) (Position.y pos + 1) in
  let free := fits (gameBoard g) (shapeMatrix sd (Piece.rotation p)) below in
  exists s',
    gameTick_ bake g
    = (if free then Ok (tt, set_store s' g)
       else bake (Some l) (set_store s' g))
    /\ pieces s' !! l = Some p
    /\ positions s' !! Piece.position p = Some (if free then below else pos)
    /\ arrays s' !! Piece.shapeArray p = Some arr.
Proof.
  intros Hgp Hp Hpos Hocc Hsd below free.
  unfold positionOf in Hpos. rewrite Hp in Hpos. cbn [mbind option_bind] in Hpos.
  unfold pieceAt in Hp.
  pose proof (probeStore_pieces (store g) sd (Piece.rotation p) pos "down"
                l p Hp) as Hp1.
  pose proof (probeStore_positions (store g) sd (Piece.rotation p) pos
                "down" _ pos Hpos) as Hpos1.
  assert (Harr : arrays (probeStore (store g) sd (Piece.rotation p) pos "down")
                   !! Piece.shapeArray p = Some arr).
  { apply probeStore_arrays. unfold occupancy, pieceAt in Hocc.
    rewrite Hp in Hocc. exact Hocc. }
  set (g1 := set_store
               (probeStore (store g) sd (Piece.rotation p) pos "down") g).
  assert (Hrun : gameTick_ bake g
            = if free then move l "down" g1 else bake (Some l) g1).
  { unfold gameTick_. run1 ltac:(reflexivity). rewrite Hgp.
    run1 ltac:(eapply isValidMove_run; eassumption).
    fold g1.
    change (movedRotation "down" (Piece.rotation p)) with (Piece.rotation p).
    change (movedPosition "down" pos) with below. fold free.
    destruct free.
    - apply (withGamePiece_run (fun l => move l "down") g1 l). exact Hgp.
    - run1 ltac:(reflexivity). change (gamePiece g1) with (gamePiece g).
      rewrite Hgp. reflexivity. }
  rewrite Hrun. clear Hrun.
  destruct free.
  - rewrite (move_run g1 l p pos "down" Hp1 Hpos1) by discriminate.
    unfold g1. game_simpl.
    eexists. split; [reflexivity|]. game_simpl.
    split; [exact Hp1|]. split; [|exact Harr].
    apply list_lookup_insert_eq. apply lookup_lt_Some in Hpos1.
    exact Hpos1.
  - exists (store g1). split; [reflexivity|].
    split; [exact Hp1|]. split; [exact Hpos1|exact Harr].
Qed.

(** ** One clock *)

Lemma preserves_bind {A B} P (m : M A) (k : A -> M B) :
  preserves P m -> (forall a, preserves P (k a)) -> preserves P (bind m k).
Proof.
  intros Hm Hk g b g2 HP Hrun. unfold bind in Hrun.
  destruct (m g) as [[a g1]| |] eqn:Hmg; try discriminate Hrun.
  exact (Hk a g1 b g2 (Hm g a g1 HP Hmg) Hrun).
Qed.

Lemma preserves_reads {A} P (m : M A) :
  keeps (fun g => g) m -> preserves P m.
Proof. intros Hm g a g' HP Hrun. rewrite (Hm g a g' Hrun). exact HP. Qed.

Lemma keeps_all_gets {A} (h : Game -> A) : keeps (fun g => g) (gets h).
Proof. apply keeps_gets. Qed.

Lemma preserves_modify P h :
  (forall g, P g -> P (h g)) -> preserves P (modify h).
Proof. intros Hh g a g' HP H. injection H; intros <- _. apply Hh, HP. Qed.

(** The phase of the game and its piece in play, beside the clock. *)
Lemma oneClock_of_view g g' :
  clockView g' = clockView g ->
  (isRunning g' = false -> gamePiece g' = None) ->
  oneClock g -> oneClock g'.
Proof.
  unfold clockView, oneClock, tickerIsTheOnlyTimer.
  intros Hview Hpiece (H1 & H3 & H4 & H6).
  injection Hview as Ht Hi Hd Hp Ho Hr.
  rewrite Ht, Hi, Hd, Hp, Ho. rewrite Hr in Hpiece |- *.
  repeat split; assumption.
Qed.

Lemma oneClock_of_pair g g' :
  (clockView g', gamePiece g') = (clockView g, gamePiece g) ->
  oneClock g -> oneClock g'.
Proof.
  intros H Hone.
  pose proof (f_equal fst H) as Hv. pose proof (f_equal snd H) as Hgp.
  cbn [fst snd] in Hv, Hgp.
  apply (oneClock_of_view g); [exact Hv| |exact Hone].
  rewrite Hgp. unfold clockView in Hv. injection Hv as _ _ _ _ _ ->.
  apply Hone.
Qed.

Lemma stopTimer_only g :
  tickerIsTheOnlyTimer g -> stopTimer (ticker g) (intervals g) = [].
Proof.
  unfold tickerIsTheOnlyTimer. intros ->.
  destruct (ticker g) as [h|]; [|reflexivity].
  cbn [stopTimer]. rewrite filter_cons. cbn [fst].
  destruct (decide (h <> h)) as [Hne|_]; [contradiction|reflexivity].
Qed.

Lemma oneClock_afterPause g :
  tickerIsTheOnlyTimer g -> isRunning g = true -> oneClock (afterPause g).
Proof.
  intros Hone Hrun. unfold oneClock, tickerIsTheOnlyTimer, afterPause.
  game_simpl. rewrite (stopTimer_only g Hone).
  repeat split; try reflexivity; intros; congruence.
Qed.

Lemma oneClock_afterResume g :
  oneClock g -> isPaused g = true -> isGameOver g = false ->
  oneClock (afterResume g).
Proof.
  intros (H1 & H3 & H4 & H6) Hp Hover.
  unfold oneClock, tickerIsTheOnlyTimer, afterResume in *. game_simpl.
  rewrite H1, (H3 Hp Hover).
  split; [reflexivity|]. split; [discriminate|].
  split; [reflexivity|exact H6].
Qed.

Lemma oneClock_afterStart g :
  tickerIsTheOnlyTimer g ->
  isPaused g = false \/ isGameOver g = true ->
  oneClock (afterStart g).
Proof.
  intros H1 Hphase.
  unfold oneClock, tickerIsTheOnlyTimer, afterStart, afterResetTimer.
  game_simpl. rewrite (stopTimer_only g H1).
  repeat split; try reflexivity; try discriminate.
  intros Hp Hover. destruct Hphase; congruence.
Qed.

Lemma keeps_clockView_putNextPieceInPlay g l g1 :
  putNextPieceInPlay g = Ok (l, g1) -> clockView g1 = clockView g.
Proof.
  intros Hspawn.
  destruct (putNextPieceInPlay_inv g l g1 Hspawn)
    as (p & sd & _ & _ & _ & ->).
  reflexivity.
Qed.

Lemma keeps_clockView_isValidMove l direction g ok g1 :
  isValidMove l direction g = Ok (ok, g1) ->
  clockView g1 = clockView g /\ gamePiece g1 = gamePiece g.
Proof.
  intros Hcheck.
  pose proof (keeps_isValidMove (fun g => (clockView g, gamePiece g))
                (fun s g => eq_refl) l direction g ok g1 Hcheck) as H.
  injection H as H1 H2. split; [unfold clockView; congruence|assumption].
Qed.

(** [selectNextPiece] throws, returns with the clock and the phase as
    they were, or marks the game over and hands over to [togglePause]. *)
Lemma selectNextPiece_views g :
  (forall tp, selectNextPiece_ tp g = Throw)
  \/ (exists g', clockView g' = clockView g
        /\ forall tp, selectNextPiece_ tp g = Ok (tt, g'))
  \/ (exists g', clockView g' = clockView (set_isGameOver true g)
        /\ forall tp, selectNextPiece_ tp g = tp g').
Proof.
  unfold selectNextPiece_.
  pose proof (fuel_free_putNextPieceInPlay g) as Hfree.
  destruct (putNextPieceInPlay g) as [[l g1]| |] eqn:Hspawn;
    [|left; intros tp; unfold bind; rewrite Hspawn; reflexivity
     |contradiction].
  pose proof (keeps_clockView_putNextPieceInPlay g l g1 Hspawn) as Hv1.
  pose proof (fuel_free_isValidMove l "down" g1) as Hfree'.
  destruct (isValidMove l "down" g1) as [[ok g2]| |] eqn:Hcheck;
    [|left; intros tp; unfold bind; rewrite Hspawn, Hcheck; reflexivity
     |contradiction].
  destruct (keeps_clockView_isValidMove l "down" g1 ok g2 Hcheck)
    as [Hv2 _].
  destruct ok.
  - right. left. exists g2. split; [congruence|].
    intros tp. unfold bind. rewrite Hspawn, Hcheck. reflexivity.
  - right. right. exists (set_isGameOver true g2). split.
    + unfold clockView in *. game_simpl. congruence.
    + intros tp. unfold bind. rewrite Hspawn, Hcheck. reflexivity.
Qed.

Lemma view_tickerIsTheOnlyTimer g g' :
  (ticker g', intervals g', difficulty g')
  = (ticker g, intervals g, difficulty g) ->
  tickerIsTheOnlyTimer g -> tickerIsTheOnlyTimer g'.
Proof.
  unfold tickerIsTheOnlyTimer. intros H. injection H as -> -> ->. auto.
Qed.

(** [start()] on a game that has not been started and is not paused. *)
Lemma start_oneClock f g g' :
  tickerIsTheOnlyTimer g ->
  isRunning g = false ->
  isPaused g = false ->
  start (S f) g = Ok (tt, g') ->
  oneClock g'.
Proof.
  intros H1 Hrun Hpaused Hstart.
  unfold start in Hstart. rewrite start_run, Hrun in Hstart.
  unfold selectNextPiece in Hstart.
  destruct (selectNextPiece_views g)
    as [Hthrow|[(g1 & Hv & Hok)|(g1 & Hv & Hover)]].
  - rewrite Hthrow in Hstart. discriminate.
  - rewrite Hok in Hstart. injection Hstart as <-.
    unfold clockView in Hv. injection Hv as Ht Hi Hd Hp Ho Hr.
    apply oneClock_afterStart.
    + apply (view_tickerIsTheOnlyTimer g); [congruence|exact H1].
    + left. congruence.
  - rewrite Hover in Hstart.
    unfold clockView in Hv.
    cbn [ticker intervals difficulty isPaused isGameOver isRunning
         set_isGameOver] in Hv.
    injection Hv as Ht Hi Hd Hp Ho Hr.
    rewrite togglePause_pauses in Hstart by congruence.
    injection Hstart as <-.
    apply oneClock_afterStart.
    + unfold tickerIsTheOnlyTimer, afterPause. game_simpl.
      apply stopTimer_only.
      apply (view_tickerIsTheOnlyTimer g); [congruence|exact H1].
    + right. unfold afterPause. game_simpl. exact Ho.
Qed.

Lemma reset_unfold f g : reset f g = start f (freshGame g).
Proof. unfold reset. apply reset_run. Qed.

Lemma freshGame_phase g :
  isRunning (freshGame g) = false /\ isPaused (freshGame g) = false.
Proof. unfold freshGame. game_simpl. split; reflexivity. Qed.

Lemma freshGame_clock g :
  tickerIsTheOnlyTimer g -> tickerIsTheOnlyTimer (freshGame g).
Proof.
  intros H1. unfold tickerIsTheOnlyTimer, freshGame. game_simpl.
  apply stopTimer_only, H1.
Qed.

Lemma reset_oneClock f g g' :
  tickerIsTheOnlyTimer g -> reset (S f) g = Ok (tt, g') -> oneClock g'.
Proof.
  intros H1 Hreset. rewrite reset_unfold in Hreset.
  destruct (freshGame_phase g) as [Hr Hp].
  exact (start_oneClock f (freshGame g) g' (freshGame_clock g H1) Hr Hp
           Hreset).
Qed.

Lemma togglePause_unfold f : togglePause (S f) = togglePause_ (reset f).
Proof. cbn [togglePause]. unfold reset, start, selectNextPiece. reflexivity. Qed.

Lemma togglePause_oneClock f g g' :
  oneClock g -> isRunning g = true ->
  togglePause (S (S f)) g = Ok (tt, g') -> oneClock g'.
Proof.
  intros Hone Hrun Htoggle.
  rewrite togglePause_unfold, togglePause_run in Htoggle.
  destruct (isPaused g) eqn:Hp.
  - destruct (isGameOver g) eqn:Hover.
    + apply (reset_oneClock f g); [apply Hone|exact Htoggle].
    + injection Htoggle as <-. apply oneClock_afterResume; assumption.
  - injection Htoggle as <-. apply oneClock_afterPause; [apply Hone|exact Hrun].
Qed.

(** [selectNextPiece()] in a running game. *)
Lemma selectNextPiece_oneClock f g g' :
  oneClock g -> isRunning g = true ->
  selectNextPiece (S (S f)) g = Ok (tt, g') -> oneClock g'.
Proof.
  intros Hone Hrun Hselect. unfold selectNextPiece in Hselect.
  destruct (selectNextPiece_views g)
    as [Hthrow|[(g1 & Hv & Hok)|(g1 & Hv & Hover)]].
  - rewrite Hthrow in Hselect. discriminate.
  - rewrite Hok in Hselect. injection Hselect as <-.
    apply (oneClock_of_view g); [exact Hv| |exact Hone].
    unfold clockView in Hv. injection Hv as Ht Hi Hd Hp Ho Hr. congruence.
  - rewrite Hover in Hselect.
    unfold clockView in Hv.
    cbn [ticker intervals difficulty isPaused isGameOver isRunning
         set_isGameOver] in Hv.
    injection Hv as Ht Hi Hd Hp Ho Hr.
    assert (H1 : tickerIsTheOnlyTimer g1).
    { apply (view_tickerIsTheOnlyTimer g); [congruence|apply Hone]. }
    rewrite togglePause_unfold, togglePause_run, Ho in Hselect.
    destruct (isPaused g1).
    + apply (reset_oneClock f g1); assumption.
    + injection Hselect as <-. apply oneClock_afterPause; [exact H1|congruence].
Qed.

Lemma preserves_gets {A} P (h : Game -> A) : preserves P (gets h).
Proof. intros g a g' HP H. injection H as _ <-. exact HP. Qed.

Lemma preserves_ret {A} P (a : A) : preserves P (ret a).
Proof. intros g a' g' HP H. injection H as _ <-. exact HP. Qed.

Lemma preserves_lift {A} P (r : result A) : preserves P (lift r).
Proof.
  intros g a g' HP H. unfold lift in H. destruct r; try discriminate H.
  injection H as _ <-. exact HP.
Qed.

Lemma preserves_getPiece P l : preserves P (getPiece l).
Proof.
  unfold getPiece. apply preserves_bind; [apply preserves_gets|intros ?].
  apply preserves_lift.
Qed.

Lemma preserves_getPosition P l : preserves P (getPosition l).
Proof.
  unfold getPosition. apply preserves_bind; [apply preserves_gets|intros ?].
  apply preserves_lift.
Qed.

Lemma preserves_getArray P l : preserves P (getArray l).
Proof.
  unfold getArray. apply preserves_bind; [apply preserves_gets|intros ?].
  apply preserves_lift.
Qed.

Lemma bakeFrame_afterScore v val g :
  bakeFrame v g -> bakeFrame v (afterScore val g).
Proof.
  unfold bakeFrame, tickerIsTheOnlyTimer. intros [H1 Hv].
  unfold afterScore. cbn zeta.
  destruct (_ && _); [|game_simpl; split; assumption].
  unfold afterResetTimer. game_simpl.
  pose proof (stopTimer_only g H1) as Hstop.
  rewrite Hstop. split; [reflexivity|exact Hv].
Qed.

Lemma preserves_bakeFrame_bake v l :
  preserves (bakeFrame v) (bakePiece_ (ret tt) (Some l)).
Proof.
  assert (Hboard : forall b, preserves (bakeFrame v) (modify (set_gameBoard b))).
  { intros b. apply preserves_modify. intros g H. exact H. }
  unfold bakePiece_.
  apply preserves_bind; [apply preserves_gets|intros ?].
  apply preserves_bind; [apply preserves_lift|intros ?].
  apply preserves_bind; [apply preserves_getPiece|intros ?].
  apply preserves_bind; [apply preserves_getPosition|intros ?].
  apply preserves_bind; [apply preserves_getArray|intros ?].
  apply preserves_bind; [apply preserves_gets|intros ?].
  apply preserves_bind; [apply preserves_lift|intros ?].
  apply preserves_bind; [apply Hboard|intros ?].
  apply preserves_bind.
  { unfold checkLines.
    apply preserves_bind; [apply preserves_gets|intros ?].
    apply preserves_bind; [|intros ?; apply preserves_lift].
    apply preserves_bind; [apply preserves_getPiece|intros ?].
    apply preserves_bind; [apply preserves_getPosition|intros ?].
    apply preserves_ret. }
  intros lines.
  apply preserves_bind; [|intros ?; apply preserves_ret].
  unfold clearLines. destruct (_ <? _)%nat; [|apply preserves_ret].
  cbn zeta.
  apply preserves_bind; [apply preserves_gets|intros ?].
  apply preserves_bind.
  { intros g0 u g0' HP H. rewrite addScore_run in H. injection H as _ <-.
    apply bakeFrame_afterScore, HP. }
  intros ?.
  apply preserves_bind; [apply preserves_gets|intros ?].
  apply preserves_bind; [apply preserves_lift|intros ?].
  apply Hboard.
Qed.

Lemma bakePiece_keepsOneClock n : keepsOneClock (bakePiece (2 + n)).
Proof.
  intros [l|] g g' Hone Hphase Hp Hbake; unfold bakePiece in Hbake.
  - assert (Hrun : isRunning g = true).
    { destruct (isRunning g); [reflexivity|]. discriminate (Hp eq_refl). }
    rewrite bakePiece_then_select in Hbake. unfold bind in Hbake.
    destruct (bakePiece_ (ret tt) (Some l) g) as [[[] g1]| |] eqn:Hprefix;
      try discriminate Hbake.
    destruct Hone as (H1 & H3 & H4 & H6).
    destruct (preserves_bakeFrame_bake _ l g tt g1
                (conj H1 eq_refl) Hprefix) as [H1' Hv].
    injection Hv as Hp1 Ho1 Hr1 Hg1.
    apply (selectNextPiece_oneClock n g1 g'); [|congruence|exact Hbake].
    split; [exact H1'|]. split; [|split].
    + intros Hpa Hov. destruct Hphase; congruence.
    + intros Hr. congruence.
    + intros Hr. congruence.
  - assert (Hnone : bakePiece_ (selectNextPiece (2 + n)) None g = Ok (tt, g))
      by reflexivity.
    rewrite Hnone in Hbake. injection Hbake as <-. exact Hone.
Qed.

(** X15: [bakePiece], up to and including its call of [selectNextPiece]
    (levelling up, game over, restart), keeps the clock in order when it
    is called in a game that is not in a pause, and with no piece if the
    game has not been started: afterwards the game still has one timer at
    most, its ticker, at the interval of its level. *)
Theorem bakePiece_keeps_one_clock n p g g' :
  oneClock g ->
  isPaused g = false \/ isGameOver g = true ->
  (isRunning g = false -> p = None) ->
  bakePiece (2 + n) p g = Ok (tt, g') ->
  oneClock g'.
Proof. apply bakePiece_keepsOneClock. Qed.

Lemma keeps_withGamePiece {C} (f : Game -> C) method :
  (forall l, keeps f (method l)) -> keeps f (withGamePiece method).
Proof.
  intros Hm. unfold withGamePiece.
  apply keeps_bind; [apply keeps_gets|intros ?].
  apply keeps_bind; [apply keeps_lift|intros ?]. apply Hm.
Qed.

Lemma keeps_steer {C} (f : Game -> C) direction method :
  ignores_store f ->
  (forall l, keeps f (method l)) -> keeps f (steer direction method).
Proof.
  intros Hs Hm. unfold steer.
  apply keeps_bind; [apply keeps_gets|intros paused].
  destruct (negb paused); [|apply keeps_ret].
  apply keeps_bind; [apply keeps_gets|intros [l|]]; [|apply keeps_ret].
  apply keeps_bind; [apply keeps_isValidMove, Hs|intros [|]];
    [|apply keeps_ret].
  apply keeps_withGamePiece, Hm.
Qed.

(** The part that the down key and the tick share. *)
Lemma drop_oneClock bake (ok : M bool) g g' :
  keepsOneClock bake ->
  oneClock g ->
  isPaused g = false \/ isGameOver g = true ->
  keeps (fun g => (clockView g, gamePiece g)) ok ->
  (ok' <- ok ;;
   if (ok' : bool) then withGamePiece (fun l => move l "down")
   else gp' <- gets gamePiece ;; bake gp') g = Ok (tt, g') ->
  oneClock g'.
Proof.
  intros Hbake Hone Hphase Hkeeps Hrun. unfold bind at 1 in Hrun.
  destruct (ok g) as [[b g1]| |] eqn:Hok; try discriminate Hrun.
  pose proof (Hkeeps g b g1 Hok) as Hv.
  assert (Hone1 : oneClock g1) by exact (oneClock_of_pair g g1 Hv Hone).
  pose proof (f_equal fst Hv) as Hview. cbn [fst] in Hview.
  unfold clockView in Hview. injection Hview as Ht Hi Hd Hp Ho Hr.
  destruct b.
  - pose proof (keeps_withGamePiece (fun g => (clockView g, gamePiece g))
                  (fun l => move l "down")
                  (fun l => keeps_move (fun g => (clockView g, gamePiece g))
                              (fun s g => eq_refl) l "down")
                  g1 tt g' Hrun) as Hv'.
    exact (oneClock_of_pair g1 g' Hv' Hone1).
  - unfold bind, gets in Hrun.
    apply (Hbake (gamePiece g1) g1 g' Hone1); [| |exact Hrun].
    + destruct Hphase; [left|right]; congruence.
    + apply Hone1.
Qed.

(** X16: However the keys are pressed and the clock ticks, the game has one
    timer at most, the one in [ticker], running at the interval of the
    current level; and none while it is paused and not over. *)
Theorem handlers_keep_one_clock n bake keyCode g g' :
  keepsOneClock bake ->
  oneClock g ->
  handleInput_ (start (2 + n)) (togglePause (2 + n)) bake keyCode g
    = Ok (tt, g')
  \/ (ticker g <> None /\ gameTick_ bake g = Ok (tt, g')) ->
  oneClock g'.
Proof.
  intros Hbake Hone [Hkey|[Hticker Htick]].
  - set (f := fun g => (clockView g, gamePiece g)).
    assert (Hsteer : forall direction method,
              (forall l, keeps f (method l)) ->
              steer direction method g = Ok (tt, g') -> oneClock g').
    { intros direction method Hm Hrun.
      pose proof (keeps_steer f direction method (fun s g => eq_refl) Hm
                    g tt g' Hrun) as Hv.
      exact (oneClock_of_pair g g' Hv Hone). }
    unfold handleInput_ in Hkey.
    destruct (decide (keyCode = 38)).
    { apply (Hsteer _ _ (fun l => keeps_rotate f (fun s g => eq_refl) l) Hkey). }
    destruct (decide (keyCode = 37)).
    { apply (Hsteer _ _ (fun l => keeps_move f (fun s g => eq_refl) l _) Hkey). }
    destruct (decide (keyCode = 39)).
    { apply (Hsteer _ _ (fun l => keeps_move f (fun s g => eq_refl) l _) Hkey). }
    destruct (decide (keyCode = 40)).
    { unfold bind at 1, gets at 1 in Hkey.
      destruct (isPaused g) eqn:Hp; cbn [negb] in Hkey.
      - injection Hkey as <-. exact Hone.
      - unfold bind at 1, gets at 1 in Hkey.
        apply (drop_oneClock bake _ g g' Hbake Hone (or_introl Hp))
          in Hkey; [exact Hkey|].
        destruct (gamePiece g); [|apply keeps_ret].
        apply keeps_isValidMove. intros s g0. reflexivity. }
    destruct (decide (keyCode = 32)); [|injection Hkey as <-; exact Hone].
    unfold bind at 1, gets at 1 in Hkey.
    destruct (isRunning g) eqn:Hr; cbn [negb] in Hkey.
    + apply (togglePause_oneClock n g g' Hone Hr Hkey).
    + destruct Hone as (H1 & H3 & H4 & H6).
      apply (start_oneClock (S n) g g' H1 Hr (H4 Hr) Hkey).
  - unfold gameTick_ in Htick. unfold bind at 1, gets at 1 in Htick.
    destruct (gamePiece g) as [l|] eqn:Hgp;
      [|injection Htick as <-; exact Hone].
    apply (drop_oneClock bake _ g g' Hbake Hone) in Htick; [exact Htick| |].
    + destruct Hone as (H1 & H3 & H4 & H6).
      destruct (isPaused g) eqn:Hp; [|left; reflexivity].
      destruct (isGameOver g) eqn:Ho; [right; reflexivity|].
      exfalso. apply Hticker. apply H3; reflexivity.
    + apply keeps_isValidMove. intros s g0. reflexivity.
Qed.

(** ** Resizing the board *)

Lemma slice0_take {A} (a : list A) (e : Z) :
  0 <= e -> slice0 a e = take (Z.to_nat e) a.
Proof. intros He. unfold slice0. destruct (Z.ltb_spec e 0); [lia|reflexivity]. Qed.

Lemma cell_set_end (a : list cell) v : cell_set a (length a) v = a ++ [v].
Proof.
  unfold cell_set. destruct (decide _) as [Hlt|_]; [lia|].
  rewrite Nat.sub_diag. reflexivity.
Qed.

Lemma geb_nat (j : nat) (n : Z) :
  0 <= n -> (Z.of_nat j >=? n) = negb (j <? Z.to_nat n)%nat.
Proof.
  intros Hn. rewrite Z.geb_leb.
  destruct (Nat.ltb_spec j (Z.to_nat n));
    cbn [negb]; [apply Z.leb_gt|apply Z.leb_le]; lia.
Qed.

(** The inner loop on a column the board has. *)
Lemma resize_old_column width height newHeight (i h : nat) grid col :
  Z.of_nat i < width ->
  height = Z.of_nat h ->
  0 <= newHeight ->
  grid !! i = Some col ->
  length col = h ->
  for_break (Z.to_nat (Z.max height newHeight)) 0
    (resizeCell width height newHeight i) grid
  = Ok (<[i := resizedColumn h (Z.to_nat newHeight) col]> grid).
Proof.
  intros Hi -> Hnh Hcol Hlen.
  set (nh := Z.to_nat newHeight).
  assert (Hloop : forall m j,
            (j <= nh)%nat ->
            (j + m = Z.to_nat (Z.max (Z.of_nat h) newHeight))%nat ->
            for_break m j (resizeCell width (Z.of_nat h) newHeight i)
              (<[i := col ++ replicate (j - h) Zero]> grid)
            = Ok (<[i := resizedColumn h nh col]> grid)).
  { induction m as [|m IH]; intros j Hj Hm.
    - cbn [for_break]. unfold resizedColumn.
      assert (j = nh) as -> by lia.
      rewrite take_ge; [reflexivity|].
      rewrite length_app, length_replicate. lia.
    - cbn [for_break]. unfold resizeCell at 1.
      rewrite (geb_nat j newHeight Hnh). fold nh.
      assert (Hat : <[i := col ++ replicate (j - h) Zero]> grid !! i
                    = Some (col ++ replicate (j - h) Zero)).
      { apply list_lookup_insert_eq. apply lookup_lt_Some in Hcol. exact Hcol. }
      destruct (Nat.ltb_spec j nh) as [Hlt|Hge]; cbn [negb].
      + destruct (Z.geb_spec (Z.of_nat i) width) as [?|_]; [lia|].
        destruct (Z.geb_spec (Z.of_nat j) (Z.of_nat h)) as [Hjh|Hjh].
        * rewrite Hat. cbn [defined rbind fst snd].
          rewrite list_insert_insert_eq.
          assert (Hlenj : length (col ++ replicate (j - h) Zero) = j)
            by (rewrite length_app, length_replicate; lia).
          pose proof (cell_set_end (col ++ replicate (j - h) Zero) Zero)
            as Hset.
          rewrite Hlenj in Hset. rewrite Hset, <- app_assoc.
          replace (replicate (j - h) Zero ++ [Zero])
            with (replicate (S j - h) Zero : list cell).
          { apply IH; lia. }
          replace (S j - h)%nat with (S (j - h)) by lia.
          rewrite replicate_S_end. reflexivity.
        * cbn [rbind fst snd].
          replace (j - h)%nat with (S j - h)%nat by lia.
          apply IH; lia.
      + rewrite Hat. cbn [defined rbind fst snd].
        rewrite list_insert_insert_eq.
        assert (j = nh) as -> by lia.
        assert (nh < h)%nat by lia.
        replace (nh - h)%nat with 0%nat by lia.
        rewrite slice0_take by exact Hnh. fold nh.
        unfold resizedColumn. replace (nh - h)%nat with 0%nat by lia.
        reflexivity. }
  specialize (Hloop (Z.to_nat (Z.max (Z.of_nat h) newHeight)) 0%nat).
  cbn [replicate Nat.sub] in Hloop. rewrite app_nil_r in Hloop.
  rewrite list_insert_id in Hloop by exact Hcol.
  apply Hloop; lia.
Qed.

(** The inner loop on a column the board does not have yet. *)
Lemma resize_new_column width height newHeight (i : nat) grid :
  width <= Z.of_nat i ->
  1 <= newHeight ->
  length grid = i ->
  for_break (Z.to_nat (Z.max height newHeight)) 0
    (resizeCell width height newHeight i) grid
  = Ok (grid ++ [newColumn (Z.to_nat newHeight)]).
Proof.
  intros Hi Hnh Hlen. subst i.
  set (nh := Z.to_nat newHeight).
  assert (Hloop : forall m j,
            (j < nh)%nat ->
            (S j + m = Z.to_nat (Z.max height newHeight))%nat ->
            for_break m (S j) (resizeCell width height newHeight (length grid))
              (grid ++ [replicate j Undefined ++ [Zero]])
            = Ok (grid ++ [newColumn nh])).
  { induction m as [|m IH]; intros j Hj Hm.
    - cbn [for_break]. unfold newColumn.
      replace (nh - 1)%nat with j by lia. reflexivity.
    - cbn [for_break]. unfold resizeCell at 1.
      rewrite (geb_nat (S j) newHeight) by lia. fold nh.
      destruct (Nat.ltb_spec (S j) nh) as [Hlt|Hge]; cbn [negb].
      + destruct (Z.geb_spec (Z.of_nat (length grid)) width) as [_|?]; [|lia].
        cbn [rbind fst snd]. unfold row_set.
        destruct (decide _) as [_|Hn];
          [|exfalso; apply Hn; rewrite length_app; cbn [length]; lia].
        rewrite !insert_snoc.
        unfold cell_set. destruct (decide _) as [Hlt'|_];
          [cbn [length] in Hlt'; lia|].
        cbn [length app]. rewrite Nat.sub_0_r.
        apply IH; lia.
      + rewrite lookup_snoc. cbn [defined rbind fst snd].
        rewrite insert_snoc.
        rewrite slice0_take by lia. fold nh.
        assert (S j = nh) by lia.
        rewrite take_ge
          by (rewrite length_app, length_replicate; cbn [length]; lia).
        unfold newColumn. replace (nh - 1)%nat with j by lia. reflexivity. }
  destruct (Z.to_nat (Z.max height newHeight)) as [|m] eqn:Hm; [lia|].
  cbn [for_break]. unfold resizeCell at 1.
  rewrite (geb_nat 0 newHeight) by lia. fold nh.
  destruct (Nat.ltb_spec 0 nh) as [_|?]; [|lia]. cbn [negb].
  destruct (Z.geb_spec (Z.of_nat (length grid)) width) as [_|?]; [|lia].
  cbn [rbind fst snd]. unfold row_set.
  destruct (decide _) as [?|_]; [lia|].
  rewrite insert_snoc.
  change (cell_set [] 0 Zero) with ([] ++ replicate 0 Undefined ++ [Zero]).
  apply Hloop; lia.
Qed.

Lemma resize_grid_step (f : list cell -> list cell) (grid : list (list cell))
    (i : nat) col :
  grid !! i = Some col ->
  <[i := f col]> ((f <$> take i grid) ++ drop i grid)
  = (f <$> take (S i) grid) ++ drop (S i) grid.
Proof.
  intros Hcol. assert (Hi := lookup_lt_Some _ _ _ Hcol).
  rewrite insert_app_r_alt by (rewrite length_fmap, length_take; lia).
  rewrite length_fmap, length_take, Nat.min_l, Nat.sub_diag by lia.
  rewrite (drop_S _ _ _ Hcol). cbn [insert list_insert].
  rewrite (take_S_r _ _ _ Hcol), fmap_app, <- app_assoc. reflexivity.
Qed.

(** The loops of [resize] on a rectangular board. *)
Lemma resize_loops (w h : nat) newWidth newHeight grid :
  length grid = w ->
  Forall (fun col => length col = h) grid ->
  0 <= newWidth ->
  1 <= newHeight ->
  forall height, (w <> 0%nat -> height = Z.of_nat h) ->
  for_break (Z.to_nat (Z.max (Z.of_nat w) newWidth)) 0
    (resizeColumn (Z.of_nat w) height newWidth newHeight) grid
  = Ok (resizedGrid w h (Z.to_nat newWidth) (Z.to_nat newHeight) grid).
Proof.
  intros Hw Hcols Hnw Hnh height Hheight.
  set (nw := Z.to_nat newWidth). set (nh := Z.to_nat newHeight).
  set (R := resizedColumn h nh).
  set (state := fun i : nat =>
         (R <$> take i grid) ++ drop i grid
         ++ replicate (i - w) (newColumn nh)).
  assert (Hloop : forall m i,
            (i <= nw)%nat ->
            (i + m = Z.to_nat (Z.max (Z.of_nat w) newWidth))%nat ->
            for_break m i
              (resizeColumn (Z.of_nat w) height newWidth newHeight) (state i)
            = Ok (resizedGrid w h nw nh grid)).
  { induction m as [|m IH]; intros i Hi Hm.
    - cbn [for_break]. unfold state, resizedGrid. fold R.
      assert (i = nw) as -> by lia.
      rewrite drop_ge by lia. reflexivity.
    - cbn [for_break]. unfold resizeColumn at 1.
      rewrite (geb_nat i newWidth Hnw). fold nw.
      destruct (Nat.ltb_spec i nw) as [Hlt|Hge]; cbn [negb].
      + destruct (Nat.lt_ge_cases i w) as [Hiw|Hiw].
        * destruct (lookup_lt_is_Some_2 grid i) as [col Hcol]; [lia|].
          assert (Hlen : length col = h).
          { rewrite Forall_lookup in Hcols. exact (Hcols i col Hcol). }
          assert (Hat : state i !! i = Some col).
          { unfold state.
            rewrite lookup_app_r by (rewrite length_fmap, length_take; lia).
            rewrite length_fmap, length_take, Nat.min_l, Nat.sub_diag by lia.
            rewrite lookup_app_l by (rewrite length_drop; lia).
            rewrite lookup_drop, Nat.add_0_r. exact Hcol. }
          rewrite (resize_old_column (Z.of_nat w) height newHeight i h
                     (state i) col) by (try lia; auto).
          cbn [rbind fst snd]. fold nh. fold R.
          replace (<[i := R col]> (state i)) with (state (S i)).
          { apply IH; lia. }
          unfold state.
          replace (i - w)%nat with 0%nat by lia.
          replace (S i - w)%nat with 0%nat by lia.
          cbn [replicate]. rewrite !app_nil_r.
          symmetry. apply resize_grid_step. exact Hcol.
        * assert (Hstate : forall k, (w <= k)%nat ->
                    state k = (R <$> grid) ++ replicate (k - w) (newColumn nh)).
          { intros k Hk. unfold state.
            rewrite take_ge, drop_ge by lia. reflexivity. }
          rewrite (resize_new_column (Z.of_nat w) height newHeight i (state i))
            by (try lia; rewrite Hstate by lia;
                rewrite length_app, length_fmap, length_replicate; lia).
          cbn [rbind fst snd]. fold nh.
          replace (state i ++ [newColumn nh]) with (state (S i)).
          { apply IH; lia. }
          rewrite !Hstate by lia.
          replace (S i - w)%nat with (S (i - w)) by lia.
          rewrite replicate_S_end, app_assoc. reflexivity.
      + cbn [fst snd]. rewrite slice0_take by exact Hnw. fold nw.
        assert (i = nw) as -> by lia. assert (nw < w)%nat by lia.
        unfold state, resizedGrid. fold R.
        replace (nw - w)%nat with 0%nat by lia. cbn [replicate].
        rewrite !app_nil_r.
        rewrite take_app_le by (rewrite length_fmap, length_take; lia).
        rewrite take_ge by (rewrite length_fmap, length_take; lia).
        reflexivity. }
  specialize (Hloop (Z.to_nat (Z.max (Z.of_nat w) newWidth)) 0%nat).
  unfold state in Hloop. cbn [take fmap list_fmap drop app replicate Nat.sub]
    in Hloop.
  rewrite app_nil_r in Hloop. apply Hloop; lia.
Qed.

Lemma rectangular_columns b :
  rectangular b ->
  Forall (fun col => length col = Z.to_nat (Board.height b))
    (Board.gameBoard b)
  /\ (length (Board.gameBoard b) <> 0%nat ->
      Board.height b = Z.of_nat (Z.to_nat (Board.height b))).
Proof.
  intros [_ Hcols]. split.
  - eapply Forall_impl; [exact Hcols|]. cbn beta. intros col Hcol. lia.
  - intros Hne. destruct (Board.gameBoard b) as [|col grid]; [contradiction|].
    apply Forall_cons in Hcols as [Hcol _]. lia.
Qed.

(** The outcome of [resize] on a rectangular board. *)
Lemma resize_grid_result b newWidth newHeight :
  rectangular b ->
  0 <= newWidth ->
  1 <= newHeight ->
  let b' :=
    Board.mk newWidth newHeight
      (resizedGrid (length (Board.gameBoard b)) (Z.to_nat (Board.height b))
         (Z.to_nat newWidth) (Z.to_nat newHeight) (Board.gameBoard b)) in
  GameBoard_resize newWidth newHeight b = Ok b' /\ rectangular b'.
Proof.
  intros Hrect Hnw Hnh.
  destruct (rectangular_columns b Hrect) as [Hcols Hheight].
  destruct Hrect as [Hwidth _].
  set (w := length (Board.gameBoard b)) in *.
  set (h := Z.to_nat (Board.height b)) in *.
  set (nw := Z.to_nat newWidth). set (nh := Z.to_nat newHeight).
  cbn zeta. split.
  { unfold GameBoard_resize. rewrite Hwidth.
    rewrite (resize_loops w h newWidth newHeight (Board.gameBoard b)
               eq_refl Hcols Hnw Hnh (Board.height b) Hheight).
    reflexivity. }
  assert (HR : forall col, length col = h ->
                 length (resizedColumn h nh col) = nh).
  { intros col Hcol. unfold resizedColumn.
    rewrite length_take, length_app, length_replicate. lia. }
  assert (HN : length (newColumn nh) = nh).
  { unfold newColumn. rewrite length_app, length_replicate. cbn [length]. lia. }
  split; cbn [Board.width Board.height Board.gameBoard].
  - unfold resizedGrid.
    rewrite length_app, length_fmap, length_take, length_replicate.
    fold w. lia.
  - unfold resizedGrid. apply Forall_app. split.
    + apply Forall_fmap. apply Forall_take.
      eapply Forall_impl; [exact Hcols|]. intros col Hcol.
      unfold compose. cbn beta in Hcol |- *.
      rewrite (HR col Hcol). lia.
    + apply Forall_replicate. lia.
Qed.

(** X17: Resizing a rectangular board to a size of at least one row returns a
    rectangular board of the new size.  The cells the two boards share are
    kept and the columns that were there are filled up with zeros; but a
    column that was not there is zero in its last row only and holds no
    value above it. *)
Theorem resize_keeps_cells_and_adds_sparse_columns b newWidth newHeight :
  rectangular b ->
  0 <= newWidth ->
  1 <= newHeight ->
  exists b',
    GameBoard_resize newWidth newHeight b = Ok b'
    /\ Board.width b' = newWidth
    /\ Board.height b' = newHeight
    /\ rectangular b'
    /\ forall X Y,
         0 <= X < newWidth -> 0 <= Y < newHeight ->
         cellAt b' X Y
         = if X <? Board.width b then
             if Y <? Board.height b then cellAt b X Y else Zero
           else if Y =? newHeight - 1 then Zero else Undefined.
Proof.
  intros Hrect Hnw Hnh.
  destruct (resize_grid_result b newWidth newHeight Hrect Hnw Hnh)
    as [Hrun Hrect'].
  destruct (rectangular_columns b Hrect) as [Hcols Hheight].
  destruct Hrect as [Hwidth _].
  set (w := length (Board.gameBoard b)) in *.
  set (h := Z.to_nat (Board.height b)) in *.
  set (nw := Z.to_nat newWidth) in *. set (nh := Z.to_nat newHeight) in *.
  eexists. split; [exact Hrun|].
  split; [reflexivity|]. split; [reflexivity|]. split; [exact Hrect'|].
  clear Hrun Hrect'.
  intros X Y HX HY. unfold cellAt. cbn [Board.gameBoard].
  unfold lookupZ. destruct (Z.ltb_spec X 0) as [?|_]; [lia|].
  unfold cell_get at 1. destruct (Z.ltb_spec Y 0) as [?|_]; [lia|].
  set (x := Z.to_nat X). set (y := Z.to_nat Y).
  destruct (Z.ltb_spec X (Board.width b)) as [Hold|Hnew].
  - destruct (lookup_lt_is_Some_2 (Board.gameBoard b) x) as [col Hcol];
      [fold w; lia|].
    assert (Hlen : length col = h).
    { rewrite Forall_lookup in Hcols. exact (Hcols x col Hcol). }
    assert (Hat : resizedGrid w h nw nh (Board.gameBoard b) !! x
                  = Some (resizedColumn h nh col)).
    { unfold resizedGrid.
      rewrite lookup_app_l by (rewrite length_fmap, length_take; fold w; lia).
      rewrite list_lookup_fmap, lookup_take_lt by lia.
      rewrite Hcol. reflexivity. }
    rewrite Hat, Hcol. cbn [default id].
    unfold resizedColumn. rewrite lookup_take_lt by lia.
    assert (Hh : Board.height b = Z.of_nat h) by (apply Hheight; fold w; lia).
    destruct (Z.ltb_spec Y (Board.height b)) as [Hin|Hout].
    + rewrite lookup_app_l by lia.
      unfold cell_get. destruct (Z.ltb_spec Y 0) as [?|_]; [lia|].
      reflexivity.
    + rewrite lookup_app_r by lia.
      rewrite lookup_replicate_2 by lia. reflexivity.
  - assert (Hat : resizedGrid w h nw nh (Board.gameBoard b) !! x
                  = Some (newColumn nh)).
    { unfold resizedGrid.
      rewrite lookup_app_r by (rewrite length_fmap, length_take; fold w; lia).
      apply lookup_replicate_2.
      rewrite length_fmap, length_take. fold w. lia. }
    rewrite Hat. cbn [default id]. unfold newColumn.
    destruct (Z.eqb_spec Y (newHeight - 1)) as [Hlast|Hnot].
    + rewrite lookup_app_r by (rewrite length_replicate; lia).
      rewrite length_replicate.
      replace (y - (nh - 1))%nat with 0%nat by lia. reflexivity.
    + rewrite lookup_app_l by (rewrite length_replicate; lia).
      rewrite lookup_replicate_2 by lia. reflexivity.
Qed.

(** X18: Widening a board that has rows while giving it no row throws: the
    loop asks the new column, which is not there, for its slice. *)
Theorem resize_wider_to_no_rows_throws b newWidth newHeight :
  rectangular b ->
  0 < Board.height b ->
  Board.width b < newWidth ->
  newHeight <= 0 ->
  GameBoard_resize newWidth newHeight b = Throw.
Proof.
  intros [Hwidth _] Hheight Hwider Hrows.
  set (w := length (Board.gameBoard b)) in *.
  assert (Hloop : forall m i s,
            length s = w -> (i <= w)%nat -> (w < i + m)%nat ->
            for_break m i
              (resizeColumn (Board.width b) (Board.height b)
                 newWidth newHeight) s
            = Throw).
  { induction m as [|m IH]; intros i s Hs Hi Hm; [lia|].
    cbn [for_break]. unfold resizeColumn at 1.
    destruct (Z.geb_spec (Z.of_nat i) newWidth) as [?|_]; [lia|].
    destruct (Z.to_nat (Z.max (Board.height b) newHeight)) as [|k] eqn:Hk;
      [lia|].
    cbn [for_break]. unfold resizeCell at 1.
    destruct (Z.geb_spec (Z.of_nat 0) newHeight) as [_|?]; [|lia].
    destruct (s !! i) as [col|] eqn:Hcol.
    - cbn [defined rbind fst snd].
      apply IH; [rewrite length_insert; exact Hs| |lia].
      apply lookup_lt_Some in Hcol. lia.
    - reflexivity. }
  unfold GameBoard_resize.
  rewrite (Hloop _ 0%nat (Board.gameBoard b) eq_refl) by lia.
  reflexivity.
Qed.

(** ** What clearing lines does to the blocks *)

Lemma count_from_split (L : list Z) (a b : Z) :
  NoDup L -> a < b ->
  length (filter (fun r => a <= r < b) L)
  = ((if decide (a ∈ L) then 1 else 0)
     + length (filter (fun r => (a + 1 <= r < b)%Z) L))%nat.
Proof.
  intros Hnd Hab. induction Hnd as [|x L Hx Hnd IH].
  - destruct (decide (a ∈ [])) as [Hin|_]; [|reflexivity].
    apply elem_of_nil in Hin. contradiction.
  - rewrite !filter_cons.
    destruct (decide (x = a)) as [->|Hne].
    + destruct (decide (a ∈ a :: L)) as [_|Hn];
        [|exfalso; apply Hn; constructor].
      destruct (decide (a ∈ L)) as [?|_]; [contradiction|].
      destruct (decide (a <= a < b)) as [_|?]; [|lia].
      destruct (decide (a + 1 <= a < b)) as [?|_]; [lia|].
      cbn [length]. rewrite IH. reflexivity.
    + assert (Hiff : a ∈ x :: L <-> a ∈ L).
      { rewrite elem_of_cons. split; [intros [?|?]; congruence|auto]. }
      destruct (decide (a ∈ x :: L)) as [Hin|Hnin];
        destruct (decide (a ∈ L)) as [Hin'|Hnin'];
        try (exfalso; tauto);
        destruct (decide (a <= x < b));
        destruct (decide (a + 1 <= x < b)); try lia;
        cbn [length]; rewrite IH; lia.
Qed.

(** Deleting rows from a column takes away what was in those rows. *)
Lemma deleteRows_count (P : cell -> Prop) `{!forall c, Decision (P c)}
    (L : list Z) :
  NoDup L ->
  forall col k,
    (forall r c, r ∈ L -> col !! (Z.to_nat (r - Z.of_nat k)) = Some c ->
                 Z.of_nat k <= r -> P c) ->
    (length (filter P (deleteRows L k col))
     + length (filter (fun r => (Z.of_nat k <= r
                                 < Z.of_nat k + Z.of_nat (length col))%Z) L)
     = length (filter P col))%nat.
Proof.
  intros Hnd. induction col as [|c rest IH]; intros k Hrows.
  - cbn [deleteRows length filter list_filter].
    rewrite Z.add_0_r.
    assert (Hnone : filter (fun r => Z.of_nat k <= r < Z.of_nat k) L = []).
    { clear. induction L as [|x L IH]; [reflexivity|].
      rewrite filter_cons. destruct (decide _); [lia|exact IH]. }
    rewrite Hnone. reflexivity.
  - cbn [deleteRows length].
    rewrite (count_from_split L (Z.of_nat k)) by (try assumption; lia).
    assert (Hrest : forall r c',
              r ∈ L -> rest !! Z.to_nat (r - Z.of_nat (S k)) = Some c' ->
              Z.of_nat (S k) <= r -> P c').
    { intros r c' Hr Hc' Hge. apply (Hrows r c' Hr); [|lia].
      replace (Z.to_nat (r - Z.of_nat k))
        with (S (Z.to_nat (r - Z.of_nat (S k)))) by lia.
      exact Hc'. }
    specialize (IH (S k) Hrest).
    replace (Z.of_nat k + Z.of_nat (S (length rest)))
      with (Z.of_nat (S k) + Z.of_nat (length rest)) by lia.
    replace (Z.of_nat k + 1) with (Z.of_nat (S k)) by lia.
    rewrite (filter_cons P c rest).
    destruct (decide (Z.of_nat k ∈ L)) as [Hin|Hnin].
    + assert (HP : P c).
      { apply (Hrows (Z.of_nat k) c Hin); [|lia].
        rewrite Z.sub_diag. reflexivity. }
      destruct (decide (P c)) as [_|?]; [|contradiction].
      cbn [length]. lia.
    + rewrite filter_cons. destruct (decide (P c)); cbn [length]; lia.
Qed.

Lemma filter_all {A} (P : A -> Prop) `{!forall x, Decision (P x)} (l : list A) :
  Forall P l -> filter P l = l.
Proof.
  induction 1 as [|x l Hx _ IH]; [reflexivity|].
  rewrite filter_cons. destruct (decide (P x)); [|contradiction].
  rewrite IH. reflexivity.
Qed.

Lemma blocksOf_cons col (grid : list (list cell)) :
  length (blocksOf (col :: grid))
  = (length (filter (fun c => isGameBlock c = true) col)
     + length (blocksOf grid))%nat.
Proof.
  unfold blocksOf. cbn [concat]. rewrite filter_app, length_app. reflexivity.
Qed.

(** X19: Clearing rows that are complete keeps the board rectangular and
    takes exactly the blocks of those rows off it, one per column and
    row. *)
Theorem clearing_complete_rows_removes_their_blocks g lines :
  rectangular (gameBoard g) ->
  1 <= Board.width (gameBoard g) ->
  NoDup lines ->
  (forall r, r ∈ lines -> rowComplete (gameBoard g) r = true) ->
  exists g',
    clearLines lines g = Ok (tt, g')
    /\ rectangular (gameBoard g')
    /\ Board.width (gameBoard g') = Board.width (gameBoard g)
    /\ Board.height (gameBoard g') = Board.height (gameBoard g)
    /\ (length (blocksOf (Board.gameBoard (gameBoard g')))
        + Z.to_nat (Board.width (gameBoard g)) * length lines
        = length (blocksOf (Board.gameBoard (gameBoard g))))%nat.
Proof.
  intros Hrect Hwide Hnd Hcomplete.
  destruct (rectangular_columns _ Hrect) as [Hcols Hheight].
  destruct Hrect as [Hwidth Hcols'].
  set (b := gameBoard g) in *.
  set (grid := Board.gameBoard b) in *.
  set (h := Z.to_nat (Board.height b)) in *.
  assert (Hh : Board.height b = Z.of_nat h) by (apply Hheight; lia).
  (* a complete row has a block in every column *)
  assert (Hblock : forall r i col,
            r ∈ lines -> grid !! i = Some col ->
            0 <= r /\ exists c, col !! Z.to_nat r = Some c
                                /\ isGameBlock c = true).
  { intros r i col Hr Hcol. specialize (Hcomplete r Hr).
    unfold rowComplete in Hcomplete. fold b grid in Hcomplete.
    rewrite forallb_forall in Hcomplete.
    assert (Hi := lookup_lt_Some _ _ _ Hcol).
    specialize (Hcomplete i). rewrite Hcol in Hcomplete.
    cbn [default id] in Hcomplete.
    assert (Hcell : isGameBlock (cell_get col r) = true).
    { apply Hcomplete. apply in_seq. lia. }
    unfold cell_get in Hcell. destruct (Z.ltb_spec r 0); [discriminate|].
    split; [assumption|].
    destruct (col !! Z.to_nat r) as [c|]; [|discriminate].
    exists c. split; [reflexivity|exact Hcell]. }
  assert (Hrange : Forall (fun r => 0 <= r < Z.of_nat h) lines).
  { apply Forall_forall. intros r Hr.
    destruct (lookup_lt_is_Some_2 grid 0%nat) as [col Hcol]; [lia|].
    destruct (Hblock r 0%nat col Hr Hcol) as [H0 (c & Hc & _)].
    apply lookup_lt_Some in Hc.
    rewrite Forall_lookup in Hcols. rewrite (Hcols 0%nat col Hcol) in Hc.
    lia. }
  (* what one column loses *)
  assert (Hcolumn : forall (P : cell -> Prop) `{!forall c, Decision (P c)},
            (forall c, isGameBlock c = true -> P c) ->
            forall i col, grid !! i = Some col ->
            (length (filter P (deleteRows lines 0 col)) + length lines
             = length (filter P col))%nat).
  { intros P HdecP HP i col Hcol.
    pose proof (deleteRows_count P lines Hnd col 0%nat) as Hcount.
    rewrite Forall_lookup in Hcols.
    rewrite (Hcols i col Hcol) in Hcount.
    rewrite (filter_all _ lines) in Hcount.
    - apply Hcount. intros r c Hr Hc _.
      destruct (Hblock r i col Hr Hcol) as [H0 (c' & Hc' & Hb)].
      rewrite Z.sub_0_r in Hc. apply HP. congruence.
    - eapply Forall_impl; [exact Hrange|]. cbn beta. lia. }
  destruct lines as [|r0 lines'] eqn:Hlines.
  { exists g. split; [reflexivity|]. fold b grid.
    split; [split; assumption|]. repeat split. cbn [length]. lia. }
  rewrite <- Hlines in *.
  assert (Hne : lines <> []) by (rewrite Hlines; discriminate).
  pose proof (clear_equals_reference (Board.width b) h lines grid Hnd Hrange)
    as Hclear.
  rewrite Hwidth, Nat2Z.id in Hclear. specialize (Hclear eq_refl Hcols).
  rewrite <- Hwidth in Hclear.
  rewrite (clearLines_run lines g _ Hne Hclear).
  eexists. split; [reflexivity|]. game_simpl. fold b grid.
  split.
  { split; cbn [Board.width Board.height Board.gameBoard].
    - unfold deleteAndPrepend. rewrite length_fmap. exact Hwidth.
    - unfold deleteAndPrepend. apply Forall_fmap, Forall_lookup.
      intros i col Hcol. unfold compose.
      rewrite length_app, length_replicate.
      pose proof (Hcolumn (fun _ => True) _ (fun _ _ => I) i col Hcol) as Hlen.
      rewrite !filter_all in Hlen by (apply Forall_forall; auto).
      rewrite Forall_lookup in Hcols. rewrite (Hcols i col Hcol) in Hlen.
      lia. }
  split; [reflexivity|]. split; [reflexivity|].
  rewrite Hwidth, Nat2Z.id.
  assert (Hall : forall cols : list (list cell),
            (forall i col, cols !! i = Some col ->
                           exists i', grid !! i' = Some col) ->
            (length (blocksOf (deleteAndPrepend lines cols))
             + length cols * length lines
             = length (blocksOf cols))%nat).
  { induction cols as [|col cols IH]; intros Hsub; [reflexivity|].
    unfold deleteAndPrepend. cbn [fmap list_fmap].
    rewrite !blocksOf_cons. fold (deleteAndPrepend lines cols).
    rewrite filter_app, length_app.
    assert (Hzeros : filter (fun c => isGameBlock c = true)
                       (replicate (length lines) Zero) = []).
    { clear. induction (length lines) as [|n IH]; [reflexivity|].
      cbn [replicate]. rewrite filter_cons.
      destruct (decide _) as [Hd|_]; [discriminate Hd|exact IH]. }
    rewrite Hzeros. cbn [length].
    destruct (Hsub 0%nat col eq_refl) as [i' Hcol].
    pose proof (Hcolumn (fun c => isGameBlock c = true) _ (fun _ H => H)
                  i' col Hcol) as Hone.
    assert (Hrest := IH (fun i c H => Hsub (S i) c H)).
    cbn [length]. lia. }
  apply Hall. intros i col Hcol. exists i. exact Hcol.
Qed.

(** ** Moves that undo each other *)

Lemma store_eta g :
  set_store {| pieces := pieces (store g); positions := positions (store g);
               arrays := arrays (store g) |} g = g.
Proof. destruct g as [? ? ? ? ? ? ? ? ? ? ? [? ? ?] ? ? ?]. reflexivity. Qed.

Lemma move_twice g l p pos d1 d2 :
  pieces (store g) !! l = Some p ->
  positions (store g) !! Piece.position p = Some pos ->
  d1 <> "rotate"%string -> d2 <> "rotate"%string ->
  movedPosition d2 (movedPosition d1 pos) = pos ->
  (move l d1 ;; move l d2) g = Ok (tt, g).
Proof.
  intros Hp Hpos Hd1 Hd2 Hback.
  assert (Hlt := lookup_lt_Some _ _ _ Hpos).
  run1 ltac:(apply (move_run g l p pos d1 Hp Hpos Hd1)).
  erewrite move_run; [|exact Hp|game_simpl; apply list_lookup_insert_eq, Hlt
                      |exact Hd2].
  game_simpl. rewrite set_store_twice, list_insert_insert_eq, Hback.
  rewrite list_insert_id by exact Hpos. rewrite store_eta. reflexivity.
Qed.

(** X20: A shift to the left and a shift to the right undo each other, in
    either order, and [move] with a word that is not a direction does
    nothing. *)
Theorem move_left_and_right_undo_each_other g l p pos :
  pieceAt g l = Some p ->
  positionOf g l = Some pos ->
  (move l "left" ;; move l "right") g = Ok (tt, g)
  /\ (move l "right" ;; move l "left") g = Ok (tt, g)
  /\ forall direction,
       direction ∉ ["right"; "left"; "down"]%string ->
       move l direction g = Ok (tt, g).
Proof.
  intros Hp Hpos. unfold positionOf in Hpos. rewrite Hp in Hpos.
  cbn [mbind option_bind] in Hpos. unfold pieceAt in Hp.
  split; [|split].
  - apply (move_twice g l p pos); try assumption; try discriminate.
    rewrite movedPosition_left, movedPosition_right. destruct pos as [x y].
    cbn [Position.x Position.y]. f_equal. lia.
  - apply (move_twice g l p pos); try assumption; try discriminate.
    rewrite movedPosition_right, movedPosition_left. destruct pos as [x y].
    cbn [Position.x Position.y]. f_equal. lia.
  - intros direction Hd. unfold move.
    repeat (destruct (decide _) as [->|_];
            [exfalso; apply Hd; repeat constructor|]).
    reflexivity.
Qed.

(** ** A spawn that fails during a pause *)

Lemma reset_any_fuel n m g : reset (S n) g = reset (S m) g.
Proof.
  rewrite !reset_unfold. unfold start. rewrite !start_run.
  destruct (freshGame_phase g) as [-> Hp].
  destruct (selectNextPiece_unpaused n (freshGame g) Hp) as [-> _].
  destruct (selectNextPiece_unpaused m (freshGame g) Hp) as [-> _].
  reflexivity.
Qed.

(** X21: When the new piece does not fit and the game is paused, the game is
    not left over and paused: [selectNextPiece] resets it on the spot, so
    that it returns a new game (see [reset]). *)
Theorem failed_spawn_in_a_pause_restarts_the_game n g l g1 g2 :
  isPaused g = true ->
  putNextPieceInPlay g = Ok (l, g1) ->
  isValidMove l "down" g1 = Ok (false, g2) ->
  selectNextPiece (2 + n) g = reset (2 + n) (set_isGameOver true g2).
Proof.
  intros Hpaused Hspawn Hcheck.
  pose proof (keeps_isPaused_putNextPieceInPlay g l g1 Hspawn) as Hp1.
  pose proof (keeps_isValidMove isPaused (fun s g => eq_refl) l "down"
                g1 false g2 Hcheck) as Hp2.
  unfold selectNextPiece, selectNextPiece_.
  run1 ltac:(exact Hspawn). run1 ltac:(exact Hcheck).
  run1 ltac:(reflexivity).
  change (2 + n)%nat with (S (S n)).
  rewrite togglePause_unfold, togglePause_run.
  cbn [isPaused isGameOver set_isGameOver].
  rewrite Hp2, Hp1, Hpaused. apply reset_any_fuel.
Qed.

(** ** A score that is not a number *)

(** X22: [clearLines] has a reward for one to four lines.  Given more it adds
    [undefined] to the score, which is then not a number; and from a
    score that is not a number [addScore] never gets to a number again
    and never raises the level. *)
Theorem score_that_is_not_a_number g lines val :
  (Z.to_nat (Board.width (gameBoard g))
   <= length (Board.gameBoard (gameBoard g)))%nat ->
  ((4 < length lines)%nat ->
   exists g',
     clearLines lines g = Ok (tt, g')
     /\ score g' = None
     /\ difficulty g' = difficulty g
     /\ ticker g' = ticker g)
  /\ (score g = None -> addScore val g = Ok (tt, g)).
Proof.
  intros Hwidth. split.
  - intros Hmany.
    destruct (collapseRows_total (Board.width (gameBoard g))
                (sort_ascending lines) (Board.gameBoard (gameBoard g)) Hwidth)
      as (grid' & Hgrid & _).
    assert (Hne : lines <> []) by (intros ->; cbn [length] in Hmany; lia).
    rewrite (clearLines_run lines g grid' Hne Hgrid).
    eexists. split; [reflexivity|]. game_simpl.
    assert (Hreward : reward (length lines) (difficulty g) = None).
    { unfold reward.
      rewrite (lookup_ge_None_2 pointsAwardedForLines)
        by (cbn [pointsAwardedForLines length]; lia).
      reflexivity. }
    rewrite Hreward. unfold afterScore. cbn zeta. game_simpl.
    assert (Hnan : num_add (score g) None = None)
      by (destruct (score g); reflexivity).
    rewrite Hnan. cbn [num_gt andb]. game_simpl. repeat split.
  - intros Hscore. rewrite addScore_run. unfold afterScore. cbn zeta.
    game_simpl. rewrite Hscore. cbn [num_add num_gt andb].
    rewrite <- Hscore. destruct g. reflexivity.
Qed.

(** ** Cells on and off the board *)

(** X23: on a rectangular board the cells on the board are those with
    [0 <= x < width] and [0 <= y < height]; no read of a cell throws; a
    cell off the board counts as occupied, and a cell on the board is
    occupied when it holds a block. *)
Theorem off_the_board_is_occupied b x y :
  rectangular b ->
  (isOnBoard b x y = true
   <-> 0 <= x < Board.width b /\ 0 <= y < Board.height b)
  /\ isUnoccupied b x y = negb (isOccupied b x y)
  /\ isOccupied b x y
     = if isOnBoard b x y then isGameBlock (cellAt b x y) else true.
Proof.
  intros [Hwidth Hcols]. split; [|split; [reflexivity|]].
  - rewrite isOnBoard_true, <- Hwidth.
    destruct (Board.gameBoard b) as [|col grid] eqn:Hgrid.
    + cbn [length] in *. lia.
    + apply Forall_cons in Hcols as [Hcol _].
      cbn [lookup list_lookup default id]. rewrite Hcol. reflexivity.
  - unfold isOccupied, cellAt. destruct (isOnBoard b x y); reflexivity.
Qed.

(** ** The size of the game *)

(** X24: resizing the game to a canvas of at least the side bar's width
    and one block's height returns; the board is then rectangular, as
    many blocks wide and high as fit the canvas beside the side bar, and
    the game remembers that size for its next reset.  Nothing else of the
    game changes: the pieces are neither moved nor checked against the
    new walls. *)
Theorem Game_resize_keeps_the_pieces g width height :
  rectangular (gameBoard g) ->
  sideBarSize <= width ->
  blockSize <= height ->
  exists b',
    Game_resize width height g
    = Ok (tt, set_boardSize (blocksWide width) (blocksHigh height)
                (set_gameBoard b' g))
    /\ rectangular b'
    /\ Board.width b' = blocksWide width
    /\ Board.height b' = blocksHigh height
    /\ 0 <= blocksWide width
    /\ 1 <= blocksHigh height.
Proof.
  intros Hrect Hwidth Hheight.
  assert (Hw : 0 <= blocksWide width).
  { unfold blocksWide, sideBarSize, blockSize in *.
    change (20 * 6 / 20) with 6.
    assert (6 <= width / 20) by (apply Z.div_le_lower_bound; lia). lia. }
  assert (Hh : 1 <= blocksHigh height).
  { unfold blocksHigh, blockSize in *. apply Z.div_le_lower_bound; lia. }
  destruct (resize_grid_result (gameBoard g) (blocksWide width)
              (blocksHigh height) Hrect Hw Hh)
    as [Hrun Hrect'].
  eexists. split; [|split; [exact Hrect'|auto]].
  unfold Game_resize. cbn zeta.
  run1 ltac:(reflexivity).
  run1 ltac:(apply lift_run; exact Hrun).
  run1 ltac:(reflexivity).
  reflexivity.
Qed.

(** ** The first state of the game *)

(** X25: the constructor and [init()] never throw, whatever the size of
    the canvas: they leave a game that is not running, paused or over, at
    level 0 with score 0, on a board of zeros, with no piece in play, a
    first next piece from the catalogue, and no timer. *)
Theorem init_builds_a_game_without_a_clock canvasWidth canvasHeight random :
  exists g p key sd,
    Game_init canvasWidth canvasHeight random = Ok g
    /\ oneClock g
    /\ (isRunning g, isPaused g, isGameOver g) = (false, false, false)
    /\ (difficulty g, score g) = (0, Some 0)
    /\ (ticker g, intervals g) = (None, [])
    /\ gameBoard g
       = Board.mk (blocksWide canvasWidth) (blocksHigh canvasHeight)
           (replicate (Z.to_nat (blocksWide canvasWidth))
              (replicate (Z.to_nat (blocksHigh canvasHeight)) Zero))
    /\ (boardWidth g, boardHeight g)
       = (blocksWide canvasWidth, blocksHigh canvasHeight)
    /\ gamePiece g = None
    /\ nextPiece g = Some 0%nat
    /\ pieceAt g 0%nat = Some p
    /\ property shapes key = Some sd
    /\ Piece.shapeDescription p = Some sd
    /\ Piece.rotation p = 0
    /\ occupancy g 0%nat = Some [].
Proof.
  destruct (random_key_in_catalogue (random O)) as [sd Hsd].
  set (key := default "undefined"%string
                (keys shapes !! (random O mod length (keys shapes))%nat)) in *.
  eexists _, (Piece.mk (Some sd) 0 0%nat 0%nat), key, sd.
  split.
  { unfold Game_init. rewrite GameBoard_run. cbn [rbind].
    rewrite getRandomPiece_run, GamePiece_run. game_simpl.
    cbn [rbind fst snd length app]. fold key. rewrite Hsd. reflexivity. }
  unfold oneClock, tickerIsTheOnlyTimer, pieceAt, occupancy, pieceAt.
  game_simpl.
  split; [repeat split; try reflexivity; intros H; discriminate H|].
  repeat split; try reflexivity. exact Hsd.
Qed.

(** * Instances *)

Lemma gameWith_oneClock b s gp np : oneClock (gameWith b s gp np).
Proof.
  unfold oneClock, tickerIsTheOnlyTimer, gameWith. game_simpl.
  repeat split; try reflexivity; intros H; discriminate H.
Qed.

Lemma isValidMove_spec_witness :
  exists ok g',
    isValidMove 0%nat "left" wallGame = Ok (ok, g')
    /\ (ok = true <->
        forall i j,
          occupies (shapeOf "l") 0 i j = true ->
          isOnBoard (gameBoard wallGame) (-1 + Z.of_nat i) (5 + Z.of_nat j)
          = true
          /\ isGameBlock
               (cellAt (gameBoard wallGame) (-1 + Z.of_nat i) (5 + Z.of_nat j))
             = false).
Proof.
  apply (isValidMove_spec wallGame 0%nat (pieceObject "l" 0 0%nat)
           (Position.mk 0 5) (shapeOf "l") "left");
    reflexivity.
Defined.

Lemma checkLines_spec_witness :
  exists lines,
    checkLines None linesGame = Ok (lines, linesGame)
    /\ StronglySorted Z.lt lines
    /\ forall r, r ∈ lines <->
                 (0 <= r < 6 /\ rowComplete linesBoard r = true).
Proof.
  apply (proj2 (checkLines_spec linesGame ltac:(vm_compute; lia))).
Defined.

Lemma catalogue_shapes_are_tetrominoes_witness :
  length (blocksOf (shapeMatrix (shapeOf "t") 2)) = 4%nat
  /\ forall i j, occupies (shapeOf "t") 2 i j = true ->
                 Z.of_nat i < 3 /\ Z.of_nat j < 3.
Proof.
  apply (catalogue_shapes_are_tetrominoes "t" (shapeOf "t") 2);
    [reflexivity|lia].
Defined.

Lemma spawn_is_centred_inside_the_walls_witness :
  exists g1 x,
    putNextPieceInPlay twoPieceGame = Ok (1%nat, g1)
    /\ gamePiece g1 = Some 1%nat
    /\ positionOf g1 1%nat = Some (Position.mk x 0)
    /\ 0 <= 2 * x - (10 - 4) <= 1
    /\ forall i j, occupies (shapeOf "i") 0 i j = true ->
                   0 <= x + Z.of_nat i < 10.
Proof.
  apply (spawn_is_centred_inside_the_walls twoPieceGame 1%nat
           (pieceObject "i" 0 1%nat) "i" (shapeOf "i"));
    try reflexivity; [cbn; lia|vm_compute; discriminate].
Defined.

Lemma pause_then_resume_restarts_the_clock_witness :
  exists g1,
    togglePause 1 wallGame = Ok (tt, g1)
    /\ isPaused g1 = true
    /\ ticker g1 = None
    /\ (forall h d, ticker wallGame = Some h -> (h, d) ∉ intervals g1)
    /\ togglePause 1 g1 = resetTimer wallGame.
Proof.
  apply (pause_then_resume_restarts_the_clock 0 0 wallGame); reflexivity.
Defined.

Lemma keys_that_do_nothing_witness :
  handleInput_ (start 2) (togglePause 2) (bakePiece 2) 37
    (set_isPaused true wallGame)
  = Ok (tt, set_isPaused true wallGame).
Proof.
  apply (keys_that_do_nothing (start 2) (togglePause 2) (bakePiece 2) 37
           (set_isPaused true wallGame));
    [lia|left; reflexivity].
Defined.

Lemma steering_keeps_the_piece_on_free_cells_witness :
  exists s' p',
    handleInput_ (start 2) (togglePause 2) (bakePiece 2) 39 wallGame
    = Ok (tt, set_store s' wallGame)
    /\ pieces s' !! 0%nat = Some p'
    /\ Piece.shapeDescription p' = Some (shapeOf "l")
    /\ Piece.rotation p' = 0
    /\ positions s' !! Piece.position p' = Some (Position.mk 1 5).
Proof.
  destruct (steering_keeps_the_piece_on_free_cells
              (start 2) (togglePause 2) (bakePiece 2) 39 "right" wallGame
              0%nat (pieceObject "l" 0 0%nat) (Position.mk 0 5) (shapeOf "l")
              ltac:(repeat constructor)
              eq_refl eq_refl eq_refl eq_refl eq_refl)
    as (s' & p' & Hrun & Hp & Hsd & Hrot & Hpos & _).
  exists s', p'. repeat split; assumption.
Defined.

Lemma down_key_is_a_tick_witness :
  handleInput_ (start 2) (togglePause 2) (bakePiece 2) 40 wallGame
  = gameTick_ (bakePiece 2) wallGame.
Proof.
  apply (down_key_is_a_tick (start 2) (togglePause 2) (bakePiece 2) wallGame);
    [intros g'; reflexivity|reflexivity].
Defined.

Lemma tick_drops_or_bakes_witness :
  exists s',
    gameTick_ (bakePiece 2) wallGame = Ok (tt, set_store s' wallGame)
    /\ pieces s' !! 0%nat = Some (pieceObject "l" 0 0%nat)
    /\ positions s' !! 0%nat = Some (Position.mk 0 6)
    /\ arrays s' !! 0%nat = Some (shapeMatrix (shapeOf "l") 0).
Proof.
  apply (tick_drops_or_bakes (bakePiece 2) wallGame 0%nat
           (pieceObject "l" 0 0%nat) (Position.mk 0 5)
           (shapeMatrix (shapeOf "l") 0) (shapeOf "l"));
    reflexivity.
Defined.

Lemma bakePiece_keeps_one_clock_witness :
  exists g',
    bakePiece 2 (Some 0%nat) floorGame = Ok (tt, g') /\ oneClock g'.
Proof.
  eexists. split; [vm_compute; reflexivity|].
  eapply (bakePiece_keeps_one_clock 0 (Some 0%nat) floorGame);
    [apply gameWith_oneClock|left; reflexivity
    |intros H; discriminate H|vm_compute; reflexivity].
Defined.

Lemma handlers_keep_one_clock_witness :
  exists g',
    handleInput_ (start 2) (togglePause 2) (bakePiece 2) 32 wallGame
    = Ok (tt, g')
    /\ oneClock g'.
Proof.
  eexists. split; [vm_compute; reflexivity|].
  eapply (handlers_keep_one_clock 0 (bakePiece 2) 32 wallGame);
    [apply (bakePiece_keepsOneClock 0)|apply gameWith_oneClock
    |left; vm_compute; reflexivity].
Defined.

Lemma resize_keeps_cells_and_adds_sparse_columns_witness :
  exists b',
    GameBoard_resize 5 4 linesBoard = Ok b'
    /\ Board.width b' = 5
    /\ Board.height b' = 4
    /\ rectangular b'
    /\ forall X Y,
         0 <= X < 5 -> 0 <= Y < 4 ->
         cellAt b' X Y
         = if X <? 3 then
             if Y <? 6 then cellAt linesBoard X Y else Zero
           else if Y =? 4 - 1 then Zero else Undefined.
Proof.
  apply (resize_keeps_cells_and_adds_sparse_columns linesBoard 5 4);
    [exact linesBoard_rectangular|lia|lia].
Defined.

Lemma resize_wider_to_no_rows_throws_witness :
  GameBoard_resize 4 0 linesBoard = Throw.
Proof.
  apply (resize_wider_to_no_rows_throws linesBoard 4 0);
    [exact linesBoard_rectangular|reflexivity|reflexivity|lia].
Defined.

Lemma clearing_complete_rows_removes_their_blocks_witness :
  exists g',
    clearLines [2; 3] linesGame = Ok (tt, g')
    /\ rectangular (gameBoard g')
    /\ Board.width (gameBoard g') = 3
    /\ Board.height (gameBoard g') = 6
    /\ (length (blocksOf (Board.gameBoard (gameBoard g'))) + 3 * 2
        = length (blocksOf (Board.gameBoard linesBoard)))%nat.
Proof.
  apply (clearing_complete_rows_removes_their_blocks linesGame [2; 3]).
  - exact linesBoard_rectangular.
  - vm_compute. discriminate.
  - repeat constructor; rewrite ?elem_of_cons, ?elem_of_nil; lia.
  - intros r Hr. rewrite !elem_of_cons, elem_of_nil in Hr.
    destruct Hr as [->|[->|[]]]; reflexivity.
Defined.

Lemma move_left_and_right_undo_each_other_witness :
  (move 0%nat "left" ;; move 0%nat "right")%method wallGame = Ok (tt, wallGame)
  /\ (move 0%nat "right" ;; move 0%nat "left")%method wallGame
     = Ok (tt, wallGame)
  /\ forall direction,
       direction ∉ ["right"; "left"; "down"]%string ->
       move 0%nat direction wallGame = Ok (tt, wallGame).
Proof.
  apply (move_left_and_right_undo_each_other wallGame 0%nat
           (pieceObject "l" 0 0%nat) (Position.mk 0 5));
    reflexivity.
Defined.

Lemma failed_spawn_in_a_pause_restarts_the_game_witness :
  exists g2,
    selectNextPiece 2 (set_isPaused true blockedGame)
    = reset 2 (set_isGameOver true g2).
Proof.
  eexists.
  eapply (failed_spawn_in_a_pause_restarts_the_game 0
            (set_isPaused true blockedGame) 0%nat);
    [reflexivity|vm_compute; reflexivity|vm_compute; reflexivity].
Defined.

Lemma score_that_is_not_a_number_witness :
  ((4 < length [0; 1; 2; 3; 4])%nat ->
   exists g',
     clearLines [0; 1; 2; 3; 4] linesGame = Ok (tt, g')
     /\ score g' = None
     /\ difficulty g' = difficulty linesGame
     /\ ticker g' = ticker linesGame)
  /\ (score linesGame = None -> addScore (Some 5) linesGame = Ok (tt, linesGame)).
Proof.
  apply (score_that_is_not_a_number linesGame [0; 1; 2; 3; 4] (Some 5)).
  vm_compute. lia.
Defined.

Lemma off_the_board_is_occupied_witness :
  (isOnBoard linesBoard (-1) 0 = true <-> 0 <= -1 < 3 /\ 0 <= 0 < 6)
  /\ isUnoccupied linesBoard (-1) 0 = negb (isOccupied linesBoard (-1) 0)
  /\ isOccupied linesBoard (-1) 0
     = if isOnBoard linesBoard (-1) 0
       then isGameBlock (cellAt linesBoard (-1) 0) else true.
Proof.
  apply (off_the_board_is_occupied linesBoard (-1) 0).
  exact linesBoard_rectangular.
Defined.

Lemma Game_resize_keeps_the_pieces_witness :
  exists b',
    Game_resize 200 100 linesGame
    = Ok (tt, set_boardSize 4 5 (set_gameBoard b' linesGame))
    /\ rectangular b'
    /\ Board.width b' = 4
    /\ Board.height b' = 5
    /\ 0 <= 4
    /\ 1 <= 5.
Proof.
  apply (Game_resize_keeps_the_pieces linesGame 200 100);
    [exact linesBoard_rectangular|vm_compute; discriminate
    |vm_compute; discriminate].
Defined.

(** * Baking: the argument and the score *)

(** [selectNextPiece()] in a game that is not paused, with a next piece:
    it returns, and touches neither the score nor the board. *)
Lemma selectNextPiece_returns f g l p sd :
  isPaused g = false ->
  nextPiece g = Some l ->
  pieces (store g) !! l = Some p ->
  Piece.shapeDescription p = Some sd ->
  exists g',
    selectNextPiece (S f) g = Ok (tt, g')
    /\ score g' = score g
    /\ difficulty g' = difficulty g
    /\ gameBoard g' = gameBoard g.
Proof.
  intros Hpaused Hnp Hp Hsd.
  assert (Hl := lookup_lt_Some _ _ _ Hp).
  pose proof (putNextPieceInPlay_run g l p sd Hnp Hp Hsd) as Hspawn.
  assert (Hcheck : exists ok s2,
            isValidMove l "down" (afterSpawn g l p sd)
            = Ok (ok, set_store s2 (afterSpawn g l p sd))).
  { eexists _, _. eapply isValidMove_run.
    - unfold afterSpawn. game_simpl.
      rewrite lookup_app_l by (rewrite length_insert; lia).
      apply list_lookup_insert_eq. lia.
    - unfold afterSpawn. game_simpl.
      apply list_lookup_middle. reflexivity.
    - exact Hsd. }
  destruct Hcheck as (ok & s2 & Hcheck).
  destruct ok.
  - eexists. split.
    { unfold selectNextPiece, selectNextPiece_.
      run1 ltac:(exact Hspawn). run1 ltac:(exact Hcheck). reflexivity. }
    unfold afterSpawn. game_simpl. repeat split.
  - eexists. split.
    { unfold selectNextPiece, selectNextPiece_.
      run1 ltac:(exact Hspawn). run1 ltac:(exact Hcheck).
      run1 ltac:(reflexivity).
      apply togglePause_pauses. unfold afterSpawn. game_simpl.
      exact Hpaused. }
    unfold afterPause, afterSpawn. game_simpl. repeat split.
Qed.

(** C6, as the code has it.  A bake in a game that is not paused: the
    copy loop merges the blocks of the piece in play into the board; the
    lines it completes are the complete rows of that board among the four
    rows of the piece, [n <= 4] of them; and when [bakePiece] returns the
    score has grown by exactly [pointsAwardedForLines[n - 1] * (d + 1)]
    for [n >= 1] at difficulty [d], and has not changed for [n = 0]. *)
Theorem bake_score n g l raw p pos arr p' pos' next pn sdn :
  isPaused g = false ->
  gamePiece g = Some raw ->
  pieceAt g raw = Some p ->
  positionOf g raw = Some pos ->
  occupancy g raw = Some arr ->
  (GamePiece_height <= length arr)%nat ->
  pieceAt g l = Some p' ->
  positionOf g l = Some pos' ->
  rectangular (gameBoard g) ->
  nextPiece g = Some next ->
  pieceAt g next = Some pn ->
  Piece.shapeDescription pn = Some sdn ->
  exists b' lines g',
    bakeCells pos arr (gameBoard g) = Ok b'
    /\ (forall X Y, cellAt b' X Y = bakedCell (gameBoard g) pos arr X Y)
    /\ checkLines (Some l) (set_gameBoard b' g)
       = Ok (lines, set_gameBoard b' g)
    /\ StronglySorted Z.lt lines
    /\ (forall r, r ∈ lines <->
                  (Position.y pos' <= r < Position.y pos' + 4
                   /\ rowComplete b' r = true))
    /\ bakePiece (2 + n) (Some l) g = Ok (tt, g')
    /\ (length lines <= 4)%nat
    /\ (lines = [] -> score g' = score g)
    /\ (forall s,
          score g = Some s -> lines <> [] ->
          exists points,
            pointsAwardedForLines !! (length lines - 1)%nat = Some points
            /\ score g' = Some (s + points * (difficulty g + 1))).
Proof.
  intros Hpaused Hgp Hp Hpos Harr Hlen Hp' Hpos' Hrect Hnext Hpn Hsdn.
  assert (Hw : (Z.to_nat (Board.width (gameBoard g))
                <= length (Board.gameBoard (gameBoard g)))%nat).
  { destruct Hrect as [Hwidth _]. lia. }
  destruct (bakePiece_run (selectNextPiece (2 + n)) g l raw p pos arr p' pos'
              Hgp Hp Hpos Harr Hlen Hp' Hpos' Hw)
    as (b' & lines & g1 & Hbake & Hscan & Hclear & Hrun).
  destruct (bakeCells_rectangular (gameBoard g) pos arr Hrect Hlen)
    as (b'' & Hbake' & Hbw & Hbh & Hrect' & Hcells).
  assert (b'' = b') as -> by congruence.
  assert (Hw' : (Z.to_nat (Board.width b') <= length (Board.gameBoard b'))%nat).
  { destruct Hrect' as [Hwidth' _]. lia. }
  destruct (scanLines_spec b' GamePiece_height (Position.y pos') Hw')
    as (lines' & Hscan' & Hsorted & Hmem).
  assert (lines' = lines) as -> by congruence.
  destruct (scanLines_total b' GamePiece_height (Position.y pos'))
    as (lines' & Hscan'' & Hn & _); [lia|].
  assert (lines' = lines) as -> by congruence.
  destruct (clearLines_total lines (set_gameBoard b' g))
    as (g1' & Hclear' & Hscore & Hstore & _ & Hnp & Hpa & _);
    [game_simpl; lia|].
  assert (g1' = g1) as -> by congruence.
  cbn [score difficulty store nextPiece isPaused set_gameBoard]
    in Hscore, Hstore, Hnp, Hpa.
  assert (Hd : difficulty g1 = difficulty (afterScore
                 (reward (length lines) (difficulty g)) (set_gameBoard b' g))
               \/ lines = []).
  { destruct lines as [|r0 rest]; [right; reflexivity|left].
    destruct (collapseRows_total (Board.width b')
                (sort_ascending (r0 :: rest)) (Board.gameBoard b') Hw')
      as (grid' & Hgrid & _).
    rewrite (clearLines_run (r0 :: rest) (set_gameBoard b' g) grid')
      in Hclear by (try discriminate; exact Hgrid).
    injection Hclear as <-. reflexivity. }
  unfold pieceAt in Hpn.
  destruct (selectNextPiece_returns (S n) g1 next pn sdn)
    as (g' & Hselect & Hscore' & _ & _);
    [congruence|congruence|rewrite Hstore; exact Hpn|exact Hsdn|].
  exists b', lines, g'.
  split; [exact Hbake|]. split; [exact Hcells|]. split.
  { unfold pieceAt, positionOf, pieceAt in Hp', Hpos'. rewrite Hp' in Hpos'.
    cbn [mbind option_bind] in Hpos'.
    apply (checkLines_run _ l p' pos' lines); game_simpl; assumption. }
  split; [exact Hsorted|]. split; [exact Hmem|]. split.
  { unfold bakePiece. rewrite Hrun. exact Hselect. }
  split; [exact Hn|].
  rewrite Hscore', Hscore. split.
  - intros ->. reflexivity.
  - intros s Hs Hne.
    destruct (decide (lines = [])) as [->|_]; [contradiction|].
    destruct (lookup_lt_is_Some_2 pointsAwardedForLines (length lines - 1))
      as [points Hpoints].
    { unfold GamePiece_height in Hn. cbn [length pointsAwardedForLines].
      destruct lines; [contradiction|]. cbn [length] in Hn |- *. lia. }
    exists points. split; [exact Hpoints|].
    unfold reward. rewrite Hpoints, Hs. reflexivity.
Qed.

Lemma bake_score_witness :
  exists b' lines g',
    bakeCells (Position.mk 0 2) (shapeMatrix (shapeOf "o") 0)
      (gameBoard floorGame) = Ok b'
    /\ (forall X Y, cellAt b' X Y
                    = bakedCell (gameBoard floorGame) (Position.mk 0 2)
                        (shapeMatrix (shapeOf "o") 0) X Y)
    /\ checkLines (Some 0%nat) (set_gameBoard b' floorGame)
       = Ok (lines, set_gameBoard b' floorGame)
    /\ StronglySorted Z.lt lines
    /\ (forall r, r ∈ lines <->
                  (Position.y (Position.mk 0 2) <= r
                   < Position.y (Position.mk 0 2) + 4
                   /\ rowComplete b' r = true))
    /\ bakePiece (2 + 0) (Some 0%nat) floorGame = Ok (tt, g')
    /\ (length lines <= 4)%nat
    /\ (lines = [] -> score g' = score floorGame)
    /\ (forall s,
          score floorGame = Some s -> lines <> [] ->
          exists points,
            pointsAwardedForLines !! (length lines - 1)%nat = Some points
            /\ score g' = Some (s + points * (difficulty floorGame + 1))).
Proof.
  apply (bake_score 0 floorGame 0%nat 0%nat
           (pieceObject "o" 0 0%nat) (Position.mk 0 2)
           (shapeMatrix (shapeOf "o") 0)
           (pieceObject "o" 0 0%nat) (Position.mk 0 2)
           0%nat (pieceObject "o" 0 0%nat) (shapeOf "o"));
    try reflexivity;
    first [apply emptyBoard_rectangular | vm_compute; lia].
Defined.

(** The bake of the O piece on the floor of the 2x4 board, evaluated: it
    completes rows 2 and 3, and the score goes from 0 to 100. *)
Remark bake_two_lines_scores_100 :
  exists b' g',
    bakeCells (Position.mk 0 2) (shapeMatrix (shapeOf "o") 0)
      (gameBoard floorGame) = Ok b'
    /\ checkLines (Some 0%nat) (set_gameBoard b' floorGame)
       = Ok ([2; 3], set_gameBoard b' floorGame)
    /\ pointsAwardedForLines !! 1%nat = Some 100
    /\ difficulty floorGame = 0
    /\ score floorGame = Some 0
    /\ bakePiece 2 (Some 0%nat) floorGame = Ok (tt, g')
    /\ score g' = Some 100.
Proof.
  eexists. eexists.
  split; [vm_compute; reflexivity|].
  split; [vm_compute; reflexivity|].
  split; [reflexivity|]. split; [reflexivity|]. split; [reflexivity|].
  split; [vm_compute; reflexivity|]. reflexivity.
Qed.

(** The two example games are states of the program: what [init()], the
    space bar and the redraws give on canvases of 200 by 40 and of 320 by
    20 pixels when the random pieces are I pieces. *)
Remark stalled_games_reached :
  afterFirstKey 200 40 (fun _ => 0%nat) 32 = Ok tinyGame
  /\ afterFirstKey 320 20 (fun _ => 0%nat) 32 = Ok flatGame.
Proof. split; vm_compute; reflexivity. Qed.

(** The claim C6 fails in a game that is paused.  On the board of 4 by 2
    blocks the game is over and paused as soon as it starts, and its clock
    runs; the tick bakes the I piece, which completes row 1 at difficulty
    0 and adds 40 to the score; [selectNextPiece] then finds the game
    paused and over, so that [togglePause] resets it; [bakePiece] returns
    with the score at 0, not at 40. *)
Lemma bake_score_counterexample :
  exists b' g1 g' g'',
    isPaused tinyGame = true
    /\ difficulty tinyGame = 0
    /\ score tinyGame = Some 0
    /\ bakeCells (Position.mk 0 0) (shapeMatrix (shapeOf "i") 0)
         (gameBoard tinyGame) = Ok b'
    /\ checkLines (Some 0%nat) (set_gameBoard b' tinyGame)
       = Ok ([1], set_gameBoard b' tinyGame)
    /\ rowComplete b' 1 = true
    /\ pointsAwardedForLines !! 0%nat = Some 40
    /\ bakePiece_ (ret tt) (Some 0%nat) tinyGame = Ok (tt, g1)
    /\ score g1 = Some 40
    /\ bakePiece 2 (Some 0%nat) tinyGame = Ok (tt, g')
    /\ score g' = Some 0
    /\ score g' <> Some (0 + 40 * (0 + 1))
    /\ gameTick_ (bakePiece 2) tinyGame = Ok (tt, g'')
    /\ score g'' = Some 0.
Proof.
  eexists. eexists. eexists. eexists.
  split; [reflexivity|]. split; [reflexivity|]. split; [reflexivity|].
  split; [vm_compute; reflexivity|].
  split; [vm_compute; reflexivity|].
  split; [vm_compute; reflexivity|].
  split; [reflexivity|].
  split; [vm_compute; reflexivity|].
  split; [reflexivity|].
  split; [vm_compute; reflexivity|].
  split; [reflexivity|]. split; [discriminate|].
  split; [vm_compute; reflexivity|]. reflexivity.
Qed.



